(** * scripts/bootstrap.ts: the bootstrap tool of vite-react-ts-template

    A shallow embedding of the argument parser, the option resolver, the
    five file patchers and the orchestrator of [scripts/bootstrap.ts],
    followed by the properties of them that are proved.

    Strings are sequences of code units.  The embedding covers the code
    units U+0000..U+00FF (one [ascii] each); the fixed console texts of the
    script keep their pictographs as the bytes of the source file, the
    script never inspects them.

    The process runs in a [world]: its arguments, the commands of the
    shell with what they print, the files and the directories under the
    working directory, the lines that will be typed, and the trace of what
    the run did.  Functions
    of the script that touch the outside are computations on the world;
    the code that computes what a patcher writes is a pure function of what
    it read.  A write to a file succeeds when the directory of the file is
    there, and throws otherwise. *)

From Stdlib Require Import ZArith Ascii.
From stdpp Require Import gmap strings list fin_maps.

Local Open Scope Z_scope.
Local Open Scope stdpp_scope.

#[local] Arguments String.append : simpl nomatch.

(** ** The string primitives of the runtime that the script calls *)

Module JS.

(** The line feed. *)
Definition LF : ascii := "010"%char.
Definition nl : string := String LF "".

(** WhiteSpace and LineTerminator code units below U+0100: what
    [String.prototype.trim] strips and what [\s] matches. *)
Definition isWhiteSpace (c : ascii) : bool :=
  match c with
  | "009" | "010" | "011" | "012" | "013" | " " | "160" => true
  | _ => false
  end%char.

(** The code units that [.] of a regular expression refuses. *)
Definition isLineTerminator (c : ascii) : bool :=
  match c with
  | "010" | "013" => true
  | _ => false
  end%char.

(** A string in a condition: only the empty string is falsy. *)
Definition truthy (s : string) : bool :=
  match s with
  | "" => false
  | String _ _ => true
  end.

(** [a || b] on strings. *)
Definition or_else (a b : string) : string := if truthy a then a else b.

Fixpoint trimStart (s : string) : string :=
  match s with
  | "" => ""
  | String c r => if isWhiteSpace c then trimStart r else s
  end.

Fixpoint trimEnd (s : string) : string :=
  match s with
  | "" => ""
  | String c r =>
      match trimEnd r with
      | "" => if isWhiteSpace c then "" else String c ""
      | r' => String c r'
      end
  end.

Definition trim (s : string) : string := trimEnd (trimStart s).

(** [s.startsWith(p)] *)
Fixpoint startsWith (s p : string) : bool :=
  match p, s with
  | "", _ => true
  | String _ _, "" => false
  | String a p', String b s' => Ascii.eqb a b && startsWith s' p'
  end.

(** [s.includes(x)] *)
Fixpoint includes (s x : string) : bool :=
  startsWith s x ||
  match s with
  | "" => false
  | String _ r => includes r x
  end.

(** [s.endsWith(x)] *)
Fixpoint endsWith (s x : string) : bool :=
  String.eqb s x ||
  match s with
  | "" => false
  | String _ r => endsWith r x
  end.

(** [s.split(sep)] for a separator of one code unit; never empty. *)
Fixpoint split (sep : ascii) (s : string) : list string :=
  match s with
  | "" => [""]
  | String c r =>
      if Ascii.eqb c sep then "" :: split sep r
      else match split sep r with
           | [] => [String c ""]
           | h :: t => String c h :: t
           end
  end.

(** [ls.join(sep)] *)
Fixpoint join (sep : string) (ls : list string) : string :=
  match ls with
  | [] => ""
  | [x] => x
  | x :: xs => x +:+ sep +:+ join sep xs
  end.

(** [toLowerCase] of one code unit below U+0100: A..Z and the capital
    letters U+00C0..U+00DE (the sign U+00D7 apart) move up by 32. *)
Definition lowerUnit (c : ascii) : ascii :=
  let n := nat_of_ascii c in
  if ((65 <=? n)%nat && (n <=? 90)%nat)
     || ((192 <=? n)%nat && (n <=? 222)%nat && negb (n =? 215)%nat)
  then ascii_of_nat (n + 32)
  else c.

Fixpoint toLowerCase (s : string) : string :=
  match s with
  | "" => ""
  | String c r => String (lowerUnit c) (toLowerCase r)
  end.

(** Two scans with which the regular expressions of the script are
    written out.  The longest prefix of [s] whose code units satisfy [p],
    and the rest. *)
Fixpoint span (p : ascii -> bool) (s : string) : string * string :=
  match s with
  | "" => ("", "")
  | String c r =>
      if p c then let '(a, b) := span p r in (String c a, b)
      else ("", s)
  end.

(** [Some r] when [s] is [p] followed by [r]. *)
Fixpoint stripPrefix (p s : string) : option string :=
  match p, s with
  | "", _ => Some s
  | String _ _, "" => None
  | String a p', String b s' =>
      if Ascii.eqb a b then stripPrefix p' s' else None
  end.

End JS.

Import JS.

(** ** Types and constants *)

Inductive PackageManager := npm | yarn | pnpm.

#[global] Instance PackageManager_eq_dec : EqDecision PackageManager.
Proof. solve_decision. Defined.

Definition pm_text (pm : PackageManager) : string :=
  match pm with
  | npm => "npm"
  | yarn => "yarn"
  | pnpm => "pnpm"
  end.

Definition PACKAGE_MANAGERS : list PackageManager := [npm; yarn; pnpm].

(** [PACKAGE_MANAGERS.includes(pm)] together with the cast [pm as
    PackageManager]: the member whose text is [pm], if there is one. *)
Definition as_PackageManager (pm : string) : option PackageManager :=
  head (filter (fun m => pm_text m = pm) PACKAGE_MANAGERS).

Record BootstrapOptions := {
  name : string;
  description : string;
  packageManager : PackageManager;
  interactive : bool
}.

(** [Partial<BootstrapOptions>]: an absent field is [None]. *)
Record PartialOptions := {
  cli_name : option string;
  cli_description : option string;
  cli_packageManager : option PackageManager;
  cli_interactive : option bool
}.

Definition DEFAULTS : BootstrapOptions := {|
  name := "topheman/vite-react-ts-template";
  description := "A starter template for frontend projects.";
  packageManager := npm;
  interactive := true
|}.

Definition ENV_TITLE : string := "VITE_TITLE".
Definition ENV_DESCRIPTION : string := "VITE_DESCRIPTION".

Definition RESOURCES_SECTION : string :=
  "## Resources" +:+ nl +:+ nl +:+
  "This project is based on the [topheman/vite-react-ts-template](https://github.com/topheman/vite-react-ts-template) template."
  +:+ nl.

(** ** Argument parsing *)

Record FlagParseResult := { value : string; nextIndex : Z }.

(** [args[i]]: [None] is [undefined]. *)
Definition at_index (args : list string) (i : Z) : option string :=
  if i <? 0 then None else args !! Z.to_nat i.

(** The [while] loop of [collectFlagValue]; [rest] is [args] from index [i]
    on. *)
Fixpoint collectLoop (rest : list string) (i : Z) (parts : list string)
  : list string * Z :=
  match rest with
  | [] => (parts, i)
  | a :: rest' =>
      if startsWith a "--" then (parts, i)
      else collectLoop rest' (i + 1) (parts ++ [a])
  end.

Definition collectFlagValue (args : list string) (startIndex : Z)
  : FlagParseResult :=
  let '(parts, i) := collectLoop (drop (Z.to_nat startIndex) args) startIndex [] in
  {| value := join " " parts; nextIndex := i - 1 |}.

(** What a run of the parser ends in: the options, or [process.exit] after
    one line on the error stream. *)
Inductive parsed (A : Type) :=
| Parsed (a : A)
| ProcessExit (code : Z) (stderr : string)
| OutOfFuel.
Arguments Parsed {A} a.
Arguments ProcessExit {A} code stderr.
Arguments OutOfFuel {A}.

Definition validatePackageManager (pm : string) : parsed PackageManager :=
  match as_PackageManager pm with
  | Some m => Parsed m
  | None =>
      ProcessExit 1
        ("Invalid package manager: " +:+ pm +:+ ". Must be one of: "
         +:+ join ", " (pm_text <$> PACKAGE_MANAGERS))
  end.

Definition set_name (o : PartialOptions) (v : string) : PartialOptions :=
  {| cli_name := Some v; cli_description := cli_description o;
     cli_packageManager := cli_packageManager o;
     cli_interactive := cli_interactive o |}.

Definition set_description (o : PartialOptions) (v : string) : PartialOptions :=
  {| cli_name := cli_name o; cli_description := Some v;
     cli_packageManager := cli_packageManager o;
     cli_interactive := cli_interactive o |}.

Definition set_packageManager (o : PartialOptions) (v : PackageManager)
  : PartialOptions :=
  {| cli_name := cli_name o; cli_description := cli_description o;
     cli_packageManager := Some v;
     cli_interactive := cli_interactive o |}.

Definition set_interactive (o : PartialOptions) (v : bool) : PartialOptions :=
  {| cli_name := cli_name o; cli_description := cli_description o;
     cli_packageManager := cli_packageManager o;
     cli_interactive := Some v |}.

Definition no_options : PartialOptions :=
  {| cli_name := None; cli_description := None;
     cli_packageManager := None; cli_interactive := None |}.

(** The body of the [for] loop of [parseArgs] at index [i], where
    [arg = args[i]]: the index and the options when the body ends. *)
Definition parseStep (args : list string) (i : Z) (arg : string)
    (options : PartialOptions) : parsed (Z * PartialOptions) :=
  if String.eqb arg "--name" then
    let result := collectFlagValue args (i + 1) in
    Parsed
      (nextIndex result,
       if truthy (value result) then set_name options (value result)
       else options)
  else if String.eqb arg "--description" then
    let result := collectFlagValue args (i + 1) in
    Parsed
      (nextIndex result,
       if truthy (value result) then set_description options (value result)
       else options)
  else if String.eqb arg "--packageManager"
          && truthy (default "" (at_index args (i + 1))) then
    match validatePackageManager (default "" (at_index args (i + 1))) with
    | Parsed m => Parsed (i + 1, set_packageManager options m)
    | ProcessExit code stderr => ProcessExit code stderr
    | OutOfFuel => OutOfFuel
    end
  else if String.eqb arg "--interactive" then
    if bool_decide (at_index args (i + 1) = Some "false")
       || bool_decide (at_index args (i + 1) = Some "0")
    then Parsed (i + 1, set_interactive options false)
    else Parsed (i, set_interactive options true)
  else if String.eqb arg "--no-interactive" then
    Parsed (i, set_interactive options false)
  else Parsed (i, options).

(** The [for] loop itself, one unit of [fuel] for each test of
    [i < args.length]; [args[i]] is defined exactly when the test holds. *)
Fixpoint parseLoop (fuel : nat) (args : list string) (i : Z)
    (options : PartialOptions) : parsed PartialOptions :=
  match fuel with
  | O => OutOfFuel
  | S fuel =>
      match at_index args i with
      | None => Parsed options
      | Some arg =>
          match parseStep args i arg options with
          | Parsed (i', options') => parseLoop fuel args (i' + 1) options'
          | ProcessExit code stderr => ProcessExit code stderr
          | OutOfFuel => OutOfFuel
          end
      end
  end.

(** [parseArgs()]; [process.argv] is its implicit input. *)
Definition parseArgs (process_argv : list string) : parsed PartialOptions :=
  let args := drop 2 process_argv in
  parseLoop (S (length args)) args 0 no_options.


(** ** .env file operations *)

(** [parseEnvLine]: [None] is [null]. *)
Definition parseEnvLine (line : string) : option (string * string) :=
  let trimmed := trim line in
  if negb (truthy trimmed) || startsWith trimmed "#" then None
  else
    match split "="%char trimmed with
    | [] => None
    | key :: valueParts =>
        if negb (truthy key) then None
        else Some (trim key, trim (join "=" valueParts))
    end.

Definition isEnvVarLine (line key : string) : bool :=
  startsWith (trim line) (key +:+ "=").

(** The line that the patcher writes for a key. *)
Definition envLine (key value : string) : string :=
  key +:+ "=" +:+ or_else value "".

(** [updateEnvVarInPlace]: the answer and the array after the call. *)
Definition updateEnvVarInPlace (lines : list string) (key value : string)
  : bool * list string :=
  match list_find (fun l => isEnvVarLine l key = true) lines with
  | Some (i, _) => (true, <[i := envLine key value]> lines)
  | None => (false, lines)
  end.

(** [removeTrailingEmptyLines]: the array after the [while] loop that pops
    the last line as long as it trims to nothing. *)
Fixpoint removeTrailingEmptyLines (lines : list string) : list string :=
  match lines with
  | [] => []
  | l :: rest =>
      match removeTrailingEmptyLines rest with
      | [] => if String.eqb (trim l) "" then [] else [l]
      | rest' => l :: rest'
      end
  end.

Definition addMissingEnvVars (lines : list string)
    (varsToAdd : list (string * string)) : list string :=
  match varsToAdd with
  | [] => lines
  | _ =>
      let lines := removeTrailingEmptyLines lines in
      let lines := if bool_decide (0 < length lines)%nat then lines ++ [""] else lines in
      lines ++ ((fun kv => envLine kv.1 kv.2) <$> varsToAdd)
  end.

(** [env[key]], the empty string when it is undefined. *)
Definition envValue (env : gmap string string) (key : string) : string :=
  or_else (default "" (env !! key)) "".

(** The array [lines] of [writeEnvFile] when it is joined. *)
Definition writeEnvFile_lines (originalContent : string)
    (env : gmap string string) : list string :=
  let lines := split LF originalContent in
  let titleValue := envValue env ENV_TITLE in
  let '(foundTitle, lines) := updateEnvVarInPlace lines ENV_TITLE titleValue in
  let varsToAdd := if foundTitle then [] else [(ENV_TITLE, titleValue)] in
  let descValue := envValue env ENV_DESCRIPTION in
  let '(foundDesc, lines) :=
    updateEnvVarInPlace lines ENV_DESCRIPTION descValue in
  let varsToAdd :=
    if foundDesc then varsToAdd else varsToAdd ++ [(ENV_DESCRIPTION, descValue)] in
  addMissingEnvVars lines varsToAdd.

(** The content, and a line feed more when the content is not empty and
    does not end with one. *)
Definition withFinalNewline (content : string) : string :=
  content +:+ (if truthy content && negb (endsWith content nl) then nl else "").

(** What [writeEnvFile] hands to [writeFileSync], from what it read (the
    empty string when there is no file). *)
Definition writeEnvFile_content (originalContent : string)
    (env : gmap string string) : string :=
  withFinalNewline (join nl (writeEnvFile_lines originalContent env)).

(** ** README.md *)

Definition updateReadmeTitle (content name : string) : string :=
  let lines := split LF content in
  let first := default "" (lines !! 0%nat) in
  let lines :=
    if startsWith first "#" then <[0%nat := "# " +:+ name]> lines
    else <[0%nat := "# " +:+ name +:+ nl +:+ first]> lines in
  join nl lines.

Definition appendResourcesSection (content : string) : string :=
  if includes content "## Resources" then content
  else
    let separator := if endsWith content nl then nl else nl +:+ nl in
    content +:+ separator +:+ RESOURCES_SECTION.

(** What [updateReadme] writes back, from what it read. *)
Definition updateReadme_content (name content : string) : string :=
  let content := updateReadmeTitle content name in
  let content := appendResourcesSection content in
  content.

(** ** Install commands *)

Definition getWorktreeInstallCommand (pm : PackageManager) : string :=
  match pm with
  | npm => "npm install"
  | pnpm => "pnpm install"
  | yarn => "yarn"
  end.

Definition getGithubActionsInstallCommand (pm : PackageManager) : string :=
  match pm with
  | npm => "npm ci"
  | pnpm => "pnpm install"
  | yarn => "yarn install --frozen-lockfile"
  end.

(** ** deploy.yml *)

Definition stepName : string := "- name: Install dependencies".

Definition notLineTerminator (c : ascii) : bool := negb (isLineTerminator c).

(** [/(\s+- name: Install dependencies\s+run: )(.+)/] tried at the first
    code unit of [s]: group 1, group 2 and what follows the match.  Each
    [\s+] is followed by a literal that starts with a code unit that is not
    white space, so the only split that can succeed gives [\s+] the whole
    run of white space; [.+] is last and greedy, it stops at the first line
    terminator or at the end. *)
Definition installPattern_at (s : string) : option (string * string * string) :=
  let '(ws1, r1) := span isWhiteSpace s in
  if negb (truthy ws1) then None
  else
    match stripPrefix stepName r1 with
    | None => None
    | Some r2 =>
        let '(ws2, r3) := span isWhiteSpace r2 in
        if negb (truthy ws2) then None
        else
          match stripPrefix "run: " r3 with
          | None => None
          | Some r4 =>
              let '(g2, rest) := span notLineTerminator r4 in
              if negb (truthy g2) then None
              else Some (ws1 +:+ stepName +:+ ws2 +:+ "run: ", g2, rest)
          end
    end.

(** The leftmost match of the pattern in [s]: the text before it, the two
    groups, the text after it. *)
Fixpoint installPattern_exec (s : string)
  : option (string * string * string * string) :=
  match installPattern_at s with
  | Some (g1, g2, rest) => Some ("", g1, g2, rest)
  | None =>
      match s with
      | "" => None
      | String c r =>
          match installPattern_exec r with
          | Some (before, g1, g2, rest) => Some (String c before, g1, g2, rest)
          | None => None
          end
      end
  end.

(** [/run: .+/] tried at the first code unit of [s]. *)
Definition runPattern_at (s : string) : option (string * string) :=
  match stripPrefix "run: " s with
  | None => None
  | Some r =>
      let '(g, rest) := span notLineTerminator r in
      if truthy g then Some (g, rest) else None
  end.

(** [line.replace(/run: .+/, replacement)]: the leftmost match only. *)
Fixpoint replaceRunPattern (line replacement : string) : string :=
  match runPattern_at line with
  | Some (_, rest) => replacement +:+ rest
  | None =>
      match line with
      | "" => ""
      | String c r => String c (replaceRunPattern r replacement)
      end
  end.

(** The fallback loop over [lines]; [lines] is the array from index [i] on,
    the loop stops at the first step it rewrites. *)
Fixpoint fallbackLoop (lines : list string) (installCommand : string)
  : list string :=
  match lines with
  | [] => []
  | l :: rest =>
      match rest with
      | next :: after =>
          if includes l "Install dependencies" && includes next "run:"
          then l :: replaceRunPattern next ("run: " +:+ installCommand) :: after
          else l :: fallbackLoop rest installCommand
      | [] => [l]
      end
  end.

(** What [updateDeployYml] writes back, from what it read.  None of the
    install commands holds a [$] or starts with a digit, so the replacement
    text [$1command] is group 1 followed by the command. *)
Definition updateDeployYml_content (pm : PackageManager) (content : string)
  : string :=
  let installCommand := getGithubActionsInstallCommand pm in
  match installPattern_exec content with
  | Some (before, g1, _, rest) => before +:+ g1 +:+ installCommand +:+ rest
  | None => join nl (fallbackLoop (split LF content) installCommand)
  end.

(** ** The process and its surroundings *)

(** What a run does to the outside, in order. *)
Inductive event :=
| EvExec (command : string)            (* execSync *)
| EvExists (path : string)             (* existsSync *)
| EvRead (path : string)               (* readFileSync *)
| EvWrite (path content : string)      (* writeFileSync *)
| EvQuestion (query : string)          (* rli.question *)
| EvLog (text : string)                (* console.log *)
| EvWarn (text : string)               (* console.warn *)
| EvError (text : string)              (* console.error *)
| EvClose.                             (* rli.close *)

(** [shell command] is what the command prints, [None] when it fails and
    [execSync] throws; [files] holds the files under [process.cwd()] by
    their path from there, and [dirs] the directories (the script makes
    none); [input] holds the lines that will be typed. *)
Record world := {
  process_argv : list string;
  shell : string -> option string;
  files : gmap string string;
  dirs : gset string;
  input : list string;
  trace : list event
}.

Definition record (e : event) (w : world) : world :=
  {| process_argv := process_argv w; shell := shell w; files := files w;
     dirs := dirs w; input := input w; trace := trace w ++ [e] |}.

Definition store (path content : string) (w : world) : world :=
  {| process_argv := process_argv w; shell := shell w;
     files := <[path := content]> (files w);
     dirs := dirs w; input := input w; trace := trace w |}.

Definition consume (w : world) : world :=
  {| process_argv := process_argv w; shell := shell w; files := files w;
     dirs := dirs w; input := tail (input w); trace := trace w |}.

(** The directory of a path: the text before its last slash, the empty
    text for a file in the working directory itself. *)
Definition dirname (path : string) : string :=
  join "/" (removelast (split "/"%char path)).

(** The directory [dir] is there: it is the working directory, or one of
    the directories of the world, or a file of the world lies in it or
    below it. *)
Definition directoryExists (w : world) (dir : string) : bool :=
  bool_decide (dir = "") || bool_decide (dir ∈ dirs w)
  || existsb (fun path => startsWith path (dir +:+ "/"))
       (elements (dom (files w))).

(** How a computation ends: a value, a thrown error, [process.exit], a
    question that is never answered, or a parser loop cut short. *)
Inductive outcome (A : Type) :=
| Return (a : A)
| Throw (error : string)
| Exit (code : Z)
| Waiting
| Unfinished.
Arguments Return {A} a.
Arguments Throw {A} error.
Arguments Exit {A} code.
Arguments Waiting {A}.
Arguments Unfinished {A}.

Definition M (A : Type) : Type := world -> outcome A * world.

#[global] Instance M_ret : MRet M := fun A a w => (Return a, w).

#[global] Instance M_bind : MBind M := fun A B f m w =>
  match m w with
  | (Return a, w') => f a w'
  | (Throw e, w') => (Throw e, w')
  | (Exit c, w') => (Exit c, w')
  | (Waiting, w') => (Waiting, w')
  | (Unfinished, w') => (Unfinished, w')
  end.

Definition emit (e : event) : M unit := fun w => (Return (), record e w).
Definition throw {A} (error : string) : M A := fun w => (Throw error, w).
Definition process_exit {A} (code : Z) : M A := fun w => (Exit code, w).
Definition unfinished {A} : M A := fun w => (Unfinished, w).
Definition argv : M (list string) := fun w => (Return (process_argv w), w).

(** [try { body } catch (error) { handler }] *)
Definition try_catch {A} (body : M A) (handler : string -> M A) : M A :=
  fun w =>
    match body w with
    | (Throw e, w') => handler e w'
    | r => r
    end.

(** [try { body } finally { cleanup }]; [process.exit] leaves at once. *)
Definition try_finally {A} (body : M A) (cleanup : M unit) : M A :=
  fun w =>
    match body w with
    | (Return a, w') => (_ ← cleanup; mret a) w'
    | (Throw e, w') => (_ ← cleanup; throw e) w'
    | r => r
    end.

Definition execSync (command : string) : M string :=
  fun w =>
    let w := record (EvExec command) w in
    match shell w command with
    | Some out => (Return out, w)
    | None => (Throw ("Command failed: " +:+ command), w)
    end.

Definition existsSync (path : string) : M bool :=
  fun w =>
    let w := record (EvExists path) w in
    (Return (bool_decide (is_Some (files w !! path))), w).

Definition readFileSync (path : string) : M string :=
  fun w =>
    let w := record (EvRead path) w in
    match files w !! path with
    | Some content => (Return content, w)
    | None => (Throw ("ENOENT: no such file or directory, open " +:+ path), w)
    end.

(** [writeFileSync] makes the file or replaces it, and throws when the
    directory of the file is not there. *)
Definition writeFileSync (path content : string) : M unit :=
  fun w =>
    let w := record (EvWrite path content) w in
    if directoryExists w (dirname path)
    then (Return (), store path content w)
    else (Throw ("ENOENT: no such file or directory, open " +:+ path), w).

(** [await promptUser(rli, query)] *)
Definition promptUser (query : string) : M string :=
  fun w =>
    let w := record (EvQuestion query) w in
    match input w with
    | line :: _ => (Return line, consume w)
    | [] => (Waiting, w)
    end.

Definition console_log (text : string) : M unit := emit (EvLog text).
Definition console_warn (text : string) : M unit := emit (EvWarn text).
Definition console_error (text : string) : M unit := emit (EvError text).

Definition quote : string := String "034"%char "".

(** Paths, from [process.cwd()]. *)
Definition envPath : string := ".env".
Definition readmePath : string := "README.md".
Definition worktreesPath : string := ".cursor/worktrees.json".
Definition deployPath : string := ".github/workflows/deploy.yml".

(** ** Options *)

Definition mergeOptions (cliArgs : PartialOptions)
    (packageJsonValues : string * string) : BootstrapOptions :=
  {| name :=
       or_else (or_else (default "" (cli_name cliArgs)) packageJsonValues.1)
         (name DEFAULTS);
     description :=
       or_else
         (or_else (default "" (cli_description cliArgs)) packageJsonValues.2)
         (description DEFAULTS);
     packageManager :=
       default (packageManager DEFAULTS) (cli_packageManager cliArgs);
     interactive :=
       match cli_interactive cliArgs with
       | Some b => b
       | None => interactive DEFAULTS
       end |}.

Definition shouldSkipInteractive (cliArgs : PartialOptions)
    (process_argv : list string) : bool :=
  bool_decide (cli_interactive cliArgs = Some false)
  || bool_decide ("--no-interactive" ∈ process_argv)
  || bool_decide ("--interactive=false" ∈ process_argv).

Definition with_name (o : BootstrapOptions) (v : string) : BootstrapOptions :=
  {| name := v; description := description o;
     packageManager := packageManager o; interactive := interactive o |}.

Definition with_description (o : BootstrapOptions) (v : string)
  : BootstrapOptions :=
  {| name := name o; description := v;
     packageManager := packageManager o; interactive := interactive o |}.

Definition with_packageManager (o : BootstrapOptions) (v : PackageManager)
  : BootstrapOptions :=
  {| name := name o; description := description o;
     packageManager := v; interactive := interactive o |}.

Definition promptForUserInput (options : BootstrapOptions)
  : M BootstrapOptions :=
  _ ← console_log (nl +:+ "📦 Bootstrap Configuration" +:+ nl);
  nameAnswer ← promptUser ("Project name [" +:+ name options +:+ "]: ");
  let options :=
    if truthy (trim nameAnswer) then with_name options (trim nameAnswer)
    else options in
  descAnswer ←
    promptUser ("Project description [" +:+ description options +:+ "]: ");
  let options :=
    if truthy (trim descAnswer)
    then with_description options (trim descAnswer)
    else options in
  _ ← console_log
        (nl +:+ "Package manager options: "
         +:+ join ", " (pm_text <$> PACKAGE_MANAGERS));
  pmAnswer ←
    promptUser
      ("Package manager [" +:+ pm_text (packageManager options) +:+ "]: ");
  let trimmedPm := trim pmAnswer in
  match (if truthy trimmedPm then as_PackageManager trimmedPm else None) with
  | Some m => mret (with_packageManager options m)
  | None =>
      if truthy trimmedPm then
        _ ← console_warn
              ("Invalid package manager " +:+ quote +:+ trimmedPm +:+ quote
               +:+ ", using " +:+ pm_text (packageManager options));
        mret options
      else mret options
  end.

(** ** package.json *)

(** The trimmed output less one double quote at its start and one at its
    end, where there is one (the regular expression of the script has the
    flag g, it removes both). *)
Definition extractNpmPkgValue (output : string) : string :=
  let t := trim output in
  let t := default t (stripPrefix quote t) in
  if endsWith t quote then String.substring 0 (String.length t - 1) t else t.

Definition getCurrentPackageJsonValues : M (string * string) :=
  try_catch
    (n ← execSync "npm pkg get name";
     d ← execSync "npm pkg get description";
     mret (extractNpmPkgValue n, extractNpmPkgValue d))
    (fun error =>
       _ ← console_error ("Error reading package.json: " +:+ error);
       mret (name DEFAULTS, description DEFAULTS)).

Definition updatePackageJson (name description : string) : M unit :=
  try_catch
    (_ ← execSync ("npm pkg set name=" +:+ quote +:+ name +:+ quote);
     _ ← execSync
           ("npm pkg set description=" +:+ quote +:+ description +:+ quote);
     mret ())
    (fun error =>
       _ ← console_error ("Error updating package.json: " +:+ error);
       throw error).

Definition collectOptions (cliArgs : PartialOptions) : M BootstrapOptions :=
  packageJsonValues ← getCurrentPackageJsonValues;
  let options := mergeOptions cliArgs packageJsonValues in
  args ← argv;
  if negb (shouldSkipInteractive cliArgs args) && interactive options
  then promptForUserInput options
  else mret options.

(** ** The patchers on the files *)

Definition readEnvFile : M (gmap string string) :=
  found ← existsSync envPath;
  if negb found then mret (∅ : gmap string string)
  else
    try_catch
      (content ← readFileSync envPath;
       mret
         (foldl
            (fun env line =>
               match parseEnvLine line with
               | Some (key, value) => <[key := value]> env
               | None => env
               end)
            ∅ (split LF content)))
      (fun error =>
         _ ← console_warn ("Warning: Could not read .env file: " +:+ error);
         mret ∅).

Definition writeEnvFile (env : gmap string string) : M unit :=
  found ← existsSync envPath;
  originalContent ← (if found : bool then readFileSync envPath else mret "");
  writeFileSync envPath (writeEnvFile_content originalContent env).

Definition updateReadme (name : string) : M unit :=
  content ← readFileSync readmePath;
  writeFileSync readmePath (updateReadme_content name content).

(** [JSON.stringify(worktrees, null, 2)] and a line feed; no install command
    holds a code unit that JSON escapes. *)
Definition updateWorktreesJson (pm : PackageManager) : M unit :=
  writeFileSync worktreesPath
    ("{" +:+ nl +:+ "  " +:+ quote +:+ "setup-worktree" +:+ quote +:+ ": ["
     +:+ nl +:+ "    " +:+ quote +:+ getWorktreeInstallCommand pm +:+ quote
     +:+ nl +:+ "  ]" +:+ nl +:+ "}" +:+ nl).

Definition updateDeployYml (pm : PackageManager) : M unit :=
  content ← readFileSync deployPath;
  writeFileSync deployPath (updateDeployYml_content pm content).

(** ** Summary and confirmation *)

Definition showSummary (options : BootstrapOptions)
    (currentPackageJson : string * string) : M unit :=
  _ ← console_log (nl +:+ "📋 Summary of changes:" +:+ nl);
  _ ← console_log "  • package.json:";
  _ ← console_log
        ("    - name: " +:+ quote +:+ currentPackageJson.1 +:+ quote +:+ " → "
         +:+ quote +:+ name options +:+ quote);
  _ ← console_log
        ("    - description: " +:+ quote +:+ currentPackageJson.2 +:+ quote
         +:+ " → " +:+ quote +:+ description options +:+ quote);
  _ ← console_log "  • README.md:";
  _ ← console_log
        ("    - title: " +:+ quote +:+ currentPackageJson.1 +:+ quote +:+ " → "
         +:+ quote +:+ name options +:+ quote);
  _ ← console_log "    - Resources section will be added (if not present)";
  _ ← console_log "  • .env:";
  _ ← console_log
        ("    - " +:+ ENV_TITLE +:+ ": " +:+ quote +:+ name options +:+ quote);
  _ ← console_log
        ("    - " +:+ ENV_DESCRIPTION +:+ ": " +:+ quote
         +:+ description options +:+ quote);
  _ ← console_log "  • .cursor/worktrees.json:";
  _ ← console_log
        ("    - setup-worktree: " +:+ quote
         +:+ getWorktreeInstallCommand (packageManager options) +:+ quote);
  _ ← console_log "  • .github/workflows/deploy.yml:";
  console_log
    ("    - Install dependencies: " +:+ quote
     +:+ getGithubActionsInstallCommand (packageManager options) +:+ quote).

Definition confirmQuery : string := nl +:+ "❓ Apply these changes? (Y/n): ".

(** The test that [confirmChanges] makes on the answer. *)
Definition confirms (answer : string) : bool :=
  let normalized := trim (toLowerCase answer) in
  negb (String.eqb normalized "n") && negb (String.eqb normalized "no").

Definition confirmChanges : M bool :=
  answer ← promptUser confirmQuery;
  mret (confirms answer).

(** ** Main flow *)

(** The statements of [applyBootstrapChanges] on the .env file. *)
Definition updateEnv (options : BootstrapOptions) : M unit :=
  env ← readEnvFile;
  let env := <[ENV_TITLE := name options]> env in
  let env := <[ENV_DESCRIPTION := description options]> env in
  writeEnvFile env.

Definition applyBootstrapChanges (options : BootstrapOptions) : M unit :=
  _ ← console_log (nl +:+ "🚀 Applying changes..." +:+ nl);
  _ ← console_log "  ✓ Updating package.json...";
  _ ← updatePackageJson (name options) (description options);
  _ ← console_log "  ✓ Updating README.md...";
  _ ← updateReadme (name options);
  _ ← console_log "  ✓ Updating .env...";
  _ ← updateEnv options;
  _ ← console_log "  ✓ Updating .cursor/worktrees.json...";
  _ ← updateWorktreesJson (packageManager options);
  _ ← console_log "  ✓ Updating .github/workflows/deploy.yml...";
  _ ← updateDeployYml (packageManager options);
  console_log (nl +:+ "✅ Bootstrap complete!" +:+ nl).

Definition cancelled : string := nl +:+ "❌ Cancelled.".

Definition main : M unit :=
  args ← argv;
  match parseArgs args with
  | OutOfFuel => unfinished
  | ProcessExit code stderr => _ ← console_error stderr; process_exit code
  | Parsed cliArgs =>
      try_finally
        (try_catch
           (currentPackageJson ← getCurrentPackageJsonValues;
            options ← collectOptions cliArgs;
            confirmed ←
              (if interactive options then
                 _ ← showSummary options currentPackageJson;
                 confirmChanges
               else mret true);
            if negb confirmed then console_log cancelled
            else applyBootstrapChanges options)
           (fun error =>
              _ ← console_error
                    (nl +:+ "❌ Error during bootstrap: " +:+ error);
              process_exit 1))
        (emit EvClose)
  end.

(** How the process ends. *)
Inductive ending := Exited (code : Z) | Hangs | Cut.

(** [main().catch(...)] and the end of the process: the exit code is 0
    when nothing is left to run. *)
Definition run (w : world) : ending * world :=
  match main w with
  | (Return _, w') => (Exited 0, w')
  | (Throw e, w') => (Exited 1, record (EvError ("Fatal error: " +:+ e)) w')
  | (Exit c, w') => (Exited c, w')
  | (Waiting, w') => (Hangs, w')
  | (Unfinished, w') => (Cut, w')
  end.

(** The line that [validatePackageManager] prints before it exits. *)
Definition invalidPackageManager (pm : string) : string :=
  "Invalid package manager: " +:+ pm
  +:+ ". Must be one of: npm, yarn, pnpm".

(** ** Notions that the properties are stated with *)

(** An event that touches no file of the project: no file is tested, read
    or written, and the only commands are the two that read the manifest. *)
Definition quiet (e : event) : Prop :=
  match e with
  | EvWrite _ _ | EvRead _ | EvExists _ => False
  | EvExec command =>
      command = "npm pkg get name" ∨ command = "npm pkg get description"
  | _ => True
  end.

(** From [w] to [w'] the arguments, the commands, the files and the
    directories are the same, and the events [evs] have been added. *)
Definition extends (w w' : world) (evs : list event) : Prop :=
  process_argv w' = process_argv w ∧ shell w' = shell w
  ∧ files w' = files w ∧ dirs w' = dirs w ∧ trace w' = trace w ++ evs.

(** Every code unit of [s] satisfies [p]. *)
Fixpoint allUnits (p : ascii -> bool) (s : string) : bool :=
  match s with
  | "" => true
  | String c r => p c && allUnits p r
  end.

(** The array [lines] of [writeEnvFile] after its two calls of
    [updateEnvVarInPlace]. *)
Definition updatedLines (originalContent : string)
    (env : gmap string string) : list string :=
  (updateEnvVarInPlace
     (updateEnvVarInPlace (split LF originalContent) ENV_TITLE
        (envValue env ENV_TITLE)).2
     ENV_DESCRIPTION (envValue env ENV_DESCRIPTION)).2.

(** A line that assigns one of the two keys of the tool. *)
Definition toolLine (line : string) : bool :=
  isEnvVarLine line ENV_TITLE || isEnvVarLine line ENV_DESCRIPTION.

(** Some line of [lines] assigns [key]. *)
Definition assigned (lines : list string) (key : string) : bool :=
  existsb (fun l => isEnvVarLine l key) lines.

(** The lines for the keys that no line of [lines] assigns, title first. *)
Definition missingLines (lines : list string) (env : gmap string string)
  : list string :=
  (if assigned lines ENV_TITLE then []
   else [envLine ENV_TITLE (envValue env ENV_TITLE)])
  ++ (if assigned lines ENV_DESCRIPTION then []
      else [envLine ENV_DESCRIPTION (envValue env ENV_DESCRIPTION)]).

(** [s] ends with one line feed and not with two. *)
Definition endsWithOneNewline (s : string) : bool :=
  endsWith s nl && negb (endsWith s (nl +:+ nl)).

(** [k] line feeds. *)
Fixpoint newlines (k : nat) : string :=
  match k with
  | O => ""
  | S k => nl +:+ newlines k
  end.

(** The number of line feeds that [s] ends with: the first code unit
    counts when it is a line feed and all the others count. *)
Fixpoint trailingNewlines (s : string) : nat :=
  match s with
  | "" => 0
  | String c r =>
      if Ascii.eqb c LF && (trailingNewlines r =? String.length r)%nat
      then S (trailingNewlines r)
      else trailingNewlines r
  end.

(** The index that the loop of [updateEnvVarInPlace] stops at: the first
    line of [lines] that assigns [key]. *)
Definition firstAssigning (lines : list string) (key : string)
  : option nat :=
  fst <$> list_find (fun l => isEnvVarLine l key = true) lines.

(** The two values that [applyBootstrapChanges] puts in the map for the
    name demo and the description desc. *)
Definition sample_env : gmap string string :=
  <[ENV_DESCRIPTION := "desc"]> (<[ENV_TITLE := "demo"]> ∅).

(** The text of the lines [before], each with its line feed, and then
    [indent]: what stands in a document before the text of a line that
    comes after the lines [before] and starts with [indent]. *)
Fixpoint textBefore (before : list string) (indent : string) : string :=
  match before with
  | [] => indent
  | l :: rest => l +:+ nl +:+ textBefore rest indent
  end.

(** What stands in a document after a line that the lines [after] follow. *)
Definition textAfter (after : list string) : string :=
  match after with
  | [] => ""
  | _ => nl +:+ join nl after
  end.

(** The code units of an indentation: the space and the tabulation. *)
Definition isIndent (c : ascii) : bool :=
  match c with
  | "009" | " " => true
  | _ => false
  end%char.

(** The last code unit of [s] is white space. *)
Fixpoint endsWithSpace (s : string) : bool :=
  match s with
  | "" => false
  | String c "" => isWhiteSpace c
  | String _ r => endsWithSpace r
  end.

(** A document with the step: the lines [before], the line of the name of
    the step after [indent], the line [runLine], the lines [after]. *)
Definition workflow (before : list string) (indent runLine : string)
    (after : list string) : string :=
  join nl (before ++ [indent +:+ stepName; runLine] ++ after).

(** The tokens that the loop of [parseArgs] compares [args[i]] with. *)
Definition FLAGS : list string :=
  ["--name"; "--description"; "--packageManager"; "--interactive";
   "--no-interactive"].

(** The loop of [parseArgs] over the array [args], started at index 0 with
    the object [options] in place of the empty one. *)
Definition parseFrom (options : PartialOptions) (args : list string)
  : parsed PartialOptions :=
  parseLoop (S (length args)) args 0 options.

(** The options after the three answers of [promptForUserInput]: an answer
    that trims to nothing, and a package manager that is none of the
    three, leave the field as it was. *)
Definition answered (options : BootstrapOptions)
    (nameAnswer descAnswer pmAnswer : string) : BootstrapOptions :=
  {| name := or_else (trim nameAnswer) (name options);
     description := or_else (trim descAnswer) (description options);
     packageManager :=
       default (packageManager options) (as_PackageManager (trim pmAnswer));
     interactive := interactive options |}.

(** [env[parsed.key] = parsed.value] under [if (parsed)]: what the callback
    of [readEnvFile] does with one line.  The map holds the properties
    that the object has of its own; an object does not store the key
    __proto__, and the statements about the value of a key leave that key
    aside. *)
Definition assignEnvLine (env : gmap string string) (line : string)
  : gmap string string :=
  match parseEnvLine line with
  | Some (key, value) => <[key := value]> env
  | None => env
  end.

(** The object that [readEnvFile] returns, from what it read. *)
Definition readEnvFile_map (content : string) : gmap string string :=
  foldl assignEnvLine ∅ (split LF content).

(** The value that [line] gives to [key] when [readEnvFile] comes to it. *)
Definition valueFor (key line : string) : option string :=
  match parseEnvLine line with
  | Some (k, v) => if String.eqb k key then Some v else None
  | None => None
  end.

(** A key as the files have them: not empty, no number sign at its start,
    no white space and no equals sign in it. *)
Definition plainKey (key : string) : bool :=
  truthy key && negb (startsWith key "#")
  && allUnits (fun c => negb (isWhiteSpace c) && negb (Ascii.eqb c "=")) key.

(** Where a line of a file that has been written stands, for the key [K]:
    it is empty, or it is a line of the tool, or it is a line of the lines
    [lines] that comes after one of them that assigns [K]. *)
Definition afterAssignment (lines : list string) (env : gmap string string)
    (K l : string) : Prop :=
  l = ""
  ∨ (∃ K', (K' = ENV_TITLE ∨ K' = ENV_DESCRIPTION)
           ∧ l = envLine K' (envValue env K'))
  ∨ ∃ (i j : nat) l0,
      lines !! i = Some l0 ∧ isEnvVarLine l0 K = true ∧ (i < j)%nat
      ∧ lines !! j = Some l.

(** What a list of events wrote, ran and asked, in order. *)
Definition writes (evs : list event) : list (string * string) :=
  omap (fun e => match e with EvWrite p c => Some (p, c) | _ => None end) evs.

Definition commands (evs : list event) : list string :=
  omap (fun e => match e with EvExec c => Some c | _ => None end) evs.

Definition questions (evs : list event) : list string :=
  omap (fun e => match e with EvQuestion q => Some q | _ => None end) evs.

(** The files [fs] after the writes [ws], in order. *)
Definition written (fs : gmap string string) (ws : list (string * string))
  : gmap string string :=
  foldl (fun fs pc => <[pc.1 := pc.2]> fs) fs ws.

(** From [w] to [w'] the run wrote [ws] and ran [cs], in that order, asked
    nothing and read no line; the files of [w'] are those of [w] after the
    writes, which have all succeeded. *)
Definition effects (w w' : world) (ws : list (string * string))
    (cs : list string) : Prop :=
  process_argv w' = process_argv w ∧ shell w' = shell w
  ∧ input w' = input w ∧ files w' = written (files w) ws
  ∧ dirs w' = dirs w
  ∧ ∃ evs, trace w' = trace w ++ evs
           ∧ writes evs = ws ∧ commands evs = cs ∧ questions evs = []
           ∧ EvClose ∉ evs.

(** The two commands of [updatePackageJson]. *)
Definition setCommands (options : BootstrapOptions) : list string :=
  ["npm pkg set name=" +:+ quote +:+ name options +:+ quote;
   "npm pkg set description=" +:+ quote +:+ description options +:+ quote].

(** The two commands of [getCurrentPackageJsonValues]. *)
Definition getCommands : list string :=
  ["npm pkg get name"; "npm pkg get description"].

(** The text that [updateWorktreesJson] writes. *)
Definition worktreesJson (pm : PackageManager) : string :=
  "{" +:+ nl +:+ "  " +:+ quote +:+ "setup-worktree" +:+ quote +:+ ": ["
  +:+ nl +:+ "    " +:+ quote +:+ getWorktreeInstallCommand pm +:+ quote
  +:+ nl +:+ "  ]" +:+ nl +:+ "}" +:+ nl.

(** The text that [applyBootstrapChanges] writes to the .env file, from
    what the file held. *)
Definition envContent (options : BootstrapOptions) (original : string)
  : string :=
  writeEnvFile_content original
    (<[ENV_DESCRIPTION := description options]>
       (<[ENV_TITLE := name options]> ∅)).

(** The four writes of [applyBootstrapChanges], in order, from what the
    files held. *)
Definition patches (options : BootstrapOptions) (fs : gmap string string)
  : list (string * string) :=
  [(readmePath,
    updateReadme_content (name options) (default "" (fs !! readmePath)));
   (envPath, envContent options (default "" (fs !! envPath)));
   (worktreesPath, worktreesJson (packageManager options));
   (deployPath,
    updateDeployYml_content (packageManager options)
      (default "" (fs !! deployPath)))].

(** How the process ends once [main] has called [applyBootstrapChanges]:
    with code 0 after the prompter is released when the call returns, with
    code 1 after the line of the error when it throws. *)
Definition finish (r : outcome unit * world) : ending * world :=
  match r with
  | (Return _, w') => (Exited 0, record EvClose w')
  | (Throw error, w') =>
      (Exited 1,
       record (EvError (nl +:+ "❌ Error during bootstrap: " +:+ error)) w')
  | (Exit code, w') => (Exited code, w')
  | (Waiting, w') => (Hangs, w')
  | (Unfinished, w') => (Cut, w')
  end.

(** A project to run the script in. *)
Definition sample_shell (command : string) : option string :=
  if String.eqb command "npm pkg get name"
  then Some (quote +:+ "vite-react-ts-template" +:+ quote +:+ nl)
  else if String.eqb command "npm pkg get description"
  then Some (quote +:+ "A starter template." +:+ quote +:+ nl)
  else Some "".

Definition sample_workflow : string :=
  "jobs:" +:+ nl +:+ "  build:" +:+ nl +:+ "    steps:" +:+ nl
  +:+ "      - name: Install dependencies" +:+ nl
  +:+ "        run: npm ci" +:+ nl
  +:+ "      - name: Build" +:+ nl
  +:+ "        run: npm run build" +:+ nl.

Definition sample_files : gmap string string :=
  <[readmePath := "# vite-react-ts-template" +:+ nl]>
    (<[deployPath := sample_workflow]> ∅).

Definition sample_dirs : gset string :=
  {[".cursor"; ".github"; ".github/workflows"]}.

Definition sample_world (args lines : list string) : world :=
  {| process_argv := "node" :: "scripts/bootstrap.ts" :: args;
     shell := sample_shell; files := sample_files; dirs := sample_dirs;
     input := lines; trace := [] |}.

(** The project without one of its files, and with a manifest that cannot
    be updated. *)
Definition sample_world_without (path : string) (args : list string) : world :=
  {| process_argv := "node" :: "scripts/bootstrap.ts" :: args;
     shell := sample_shell; files := delete path sample_files;
     dirs := sample_dirs; input := []; trace := [] |}.



Definition sample_world_without_directory (dir : string)
    (args : list string) : world :=
  {| process_argv := "node" :: "scripts/bootstrap.ts" :: args;
     shell := sample_shell; files := sample_files;
     dirs := sample_dirs ∖ {[dir]}; input := []; trace := [] |}.

(** * Properties *)

(** ** Facts about the string primitives *)

Lemma sapp_nil_r (s : string) : s +:+ "" = s.
Proof. induction s as [|c s IH]; simpl; [done | by rewrite IH]. Qed.

Lemma sapp_assoc (a b c : string) : (a +:+ b) +:+ c = a +:+ (b +:+ c).
Proof. induction a as [|x a IH]; simpl; [done | by rewrite IH]. Qed.

Lemma sapp_cons (c : ascii) (a b : string) : String c a +:+ b = String c (a +:+ b).
Proof. done. Qed.

Lemma truthy_true (s : string) : truthy s = true ↔ s ≠ "".
Proof. by destruct s. Qed.

Lemma truthy_false (s : string) : truthy s = false ↔ s = "".
Proof. by destruct s. Qed.

Lemma or_else_empty (v : string) : or_else v "" = v.
Proof. by destruct v. Qed.

(** ** The argument parser *)

Lemma collectLoop_spec (rest : list string) (i : Z) (acc : list string) :
  ∃ parts rest',
    rest = parts ++ rest'
    ∧ Forall (fun a => startsWith a "--" = false) parts
    ∧ (∀ a, head rest' = Some a → startsWith a "--" = true)
    ∧ collectLoop rest i acc = (acc ++ parts, i + Z.of_nat (length parts)).
Proof.
  revert i acc. induction rest as [|a rest IH]; intros i acc.
  - exists [], []. simpl. rewrite app_nil_r, Z.add_0_r.
    split_and!; [done | constructor | by intros ? [=] | done].
  - simpl. destruct (startsWith a "--") eqn:Ha.
    + exists [], (a :: rest). simpl. rewrite app_nil_r, Z.add_0_r.
      split_and!; [done | constructor | by intros ? [= <-] | done].
    + destruct (IH (i + 1) (acc ++ [a])) as (parts & rest' & -> & Hp & Hr & ->).
      exists (a :: parts), rest'.
      split_and!; [done | by constructor | done |].
      rewrite <- app_assoc. simpl. f_equal. lia.
Qed.

(** What [collectFlagValue] returns: the tokens from [start] up to the next
    one that starts with two dashes, joined by single spaces, and the index
    of the last of them. *)
Lemma collectFlagValue_spec (args : list string) (start : nat) :
  ∃ parts rest,
    drop start args = parts ++ rest
    ∧ Forall (fun a => startsWith a "--" = false) parts
    ∧ (∀ a, head rest = Some a → startsWith a "--" = true)
    ∧ collectFlagValue args (Z.of_nat start)
      = {| value := join " " parts;
           nextIndex := Z.of_nat start + Z.of_nat (length parts) - 1 |}.
Proof.
  unfold collectFlagValue. rewrite Nat2Z.id.
  destruct (collectLoop_spec (drop start args) (Z.of_nat start) [])
    as (parts & rest & Hd & Hp & Hr & ->).
  exists parts, rest. by repeat split.
Qed.

(** C3. For the tokens --name a b c --description x the parser gives the
    name a b c and the description x: [collectFlagValue] joins, with single
    spaces, the tokens up to and without the next one that starts with two
    dashes, and the loop goes on at that token, so that the flag that
    follows is recognised. *)
Theorem parseArgs_name_then_description (node script : string) :
  let args := ["--name"; "a"; "b"; "c"; "--description"; "x"] in
  parseArgs (node :: script :: args)
  = Parsed {| cli_name := Some "a b c"; cli_description := Some "x";
              cli_packageManager := None; cli_interactive := None |}
  ∧ collectFlagValue args 1 = {| value := "a b c"; nextIndex := 3 |}
  ∧ at_index args (nextIndex (collectFlagValue args 1) + 1)
    = Some "--description"
  ∧ ∀ (tokens : list string) (start : nat),
      ∃ parts rest,
        drop start tokens = parts ++ rest
        ∧ Forall (fun a => startsWith a "--" = false) parts
        ∧ (∀ a, head rest = Some a → startsWith a "--" = true)
        ∧ collectFlagValue tokens (Z.of_nat start)
          = {| value := join " " parts;
               nextIndex := Z.of_nat start + Z.of_nat (length parts) - 1 |}.
Proof.
  repeat split; try reflexivity. apply collectFlagValue_spec.
Qed.

Lemma at_index_of_nat (args : list string) (n : nat) :
  at_index args (Z.of_nat n) = args !! n.
Proof.
  unfold at_index. destruct (Z.ltb_spec (Z.of_nat n) 0); [lia |].
  by rewrite Nat2Z.id.
Qed.

Lemma at_index_succ (args : list string) (n : nat) :
  at_index args (Z.of_nat n + 1) = args !! S n.
Proof. by rewrite <- at_index_of_nat, Nat2Z.inj_succ. Qed.

Lemma as_PackageManager_Some (pm : string) (m : PackageManager) :
  as_PackageManager pm = Some m → pm = pm_text m.
Proof.
  unfold as_PackageManager, PACKAGE_MANAGERS. intros H.
  apply head_Some_elem_of in H. apply list_elem_of_filter in H as [H _].
  by symmetry.
Qed.

Lemma as_PackageManager_None (pm : string) :
  as_PackageManager pm = None ↔ pm ∉ ["npm"; "yarn"; "pnpm"].
Proof.
  unfold as_PackageManager, PACKAGE_MANAGERS. split.
  - intros H Hin. rewrite head_None in H.
    assert (Hm : ∀ m, m ∈ filter (fun m => pm_text m = pm) [npm; yarn; pnpm]
                      → False) by (intros m; rewrite H; set_solver).
    repeat (apply elem_of_cons in Hin as [-> | Hin]);
      [apply (Hm npm) | apply (Hm yarn) | apply (Hm pnpm) | set_solver];
      apply list_elem_of_filter; set_solver.
  - intros H. apply head_None.
    destruct (filter _ _) as [|m l] eqn:Hf; [done |].
    assert (Hm : m ∈ filter (fun m => pm_text m = pm) [npm; yarn; pnpm])
      by (rewrite Hf; set_solver).
    apply list_elem_of_filter in Hm as [<- _]. destruct m; set_solver.
Qed.

Lemma validatePackageManager_None (pm : string) :
  as_PackageManager pm = None →
  validatePackageManager pm = ProcessExit 1 (invalidPackageManager pm).
Proof. unfold validatePackageManager. by intros ->. Qed.

Lemma collectFlagValue_bounds (args : list string) (start : nat) :
  ∃ k : nat,
    nextIndex (collectFlagValue args (Z.of_nat start))
    = Z.of_nat start + Z.of_nat k - 1
    ∧ (start + k ≤ max start (length args))%nat
    ∧ ∀ j a, (start ≤ j < start + k)%nat → args !! j = Some a →
             startsWith a "--" = false.
Proof.
  destruct (collectFlagValue_spec args start)
    as (parts & rest & Hd & Hp & _ & ->).
  exists (length parts). split_and!; [done | |].
  - assert (Hl := f_equal length Hd).
    rewrite length_drop, length_app in Hl. lia.
  - intros j a Hj Ha.
    assert (Hj' : parts !! (j - start)%nat = Some a).
    { rewrite <- (lookup_app_l parts rest) by lia.
      rewrite <- Hd, lookup_drop. by replace (start + (j - start))%nat with j by lia. }
    by eapply (Forall_lookup_1 _ _ _ _ Hp).
Qed.

(** A step of the loop either leaves the process on an invalid package
    manager, or ends on an index from [i] on and inside the array. *)
Lemma parseStep_cases (args : list string) (n : nat) (arg : string)
    (o : PartialOptions) :
  args !! n = Some arg →
  (∃ bad, args !! S n = Some bad ∧ bad ≠ "" ∧ arg = "--packageManager"
          ∧ as_PackageManager bad = None
          ∧ parseStep args (Z.of_nat n) arg o
            = ProcessExit 1 (invalidPackageManager bad))
  ∨ (∃ (n' : nat) o',
        parseStep args (Z.of_nat n) arg o = Parsed (Z.of_nat n', o')
        ∧ (n ≤ n' < length args)%nat
        ∧ ∀ j a, (n < j ≤ n')%nat → args !! j = Some a →
                 a ≠ "--packageManager").
Proof.
  intros Harg. assert (Hn := lookup_lt_Some _ _ _ Harg).
  unfold parseStep.
  assert (Hcollect : ∃ (n' : nat),
      nextIndex (collectFlagValue args (Z.of_nat n + 1)) = Z.of_nat n'
      ∧ (n ≤ n' < length args)%nat
      ∧ ∀ j a, (n < j ≤ n')%nat → args !! j = Some a →
               a ≠ "--packageManager").
  { replace (Z.of_nat n + 1) with (Z.of_nat (S n)) by lia.
    destruct (collectFlagValue_bounds args (S n)) as (k & Hk & Hle & Hflag).
    exists (n + k)%nat. split_and!.
    - rewrite Hk. lia.
    - lia.
    - lia.
    - intros j a Hj Ha ->. by specialize (Hflag j _ ltac:(lia) Ha). }
  destruct (String.eqb_spec arg "--name") as [-> | _].
  { right. destruct Hcollect as (n' & Hk & ? & ?). rewrite Hk.
    by eexists n', _. }
  destruct (String.eqb_spec arg "--description") as [-> | _].
  { right. destruct Hcollect as (n' & Hk & ? & ?). rewrite Hk.
    by eexists n', _. }
  clear Hcollect.
  assert (Hstay : ∀ o' : PartialOptions, ∃ (n' : nat) (o'' : PartialOptions),
    @Parsed (Z * PartialOptions) (Z.of_nat n, o') = Parsed (Z.of_nat n', o'')
    ∧ (n ≤ n' < length args)%nat
    ∧ ∀ j a, (n < j ≤ n')%nat → args !! j = Some a → a ≠ "--packageManager").
  { intros o'. exists n, o'. split_and!; [done | lia | lia | intros; lia]. }
  rewrite at_index_succ.
  destruct (String.eqb_spec arg "--packageManager") as [-> | _]; simpl.
  - destruct (args !! S n) as [next|] eqn:Hnext; simpl.
    + destruct (truthy next) eqn:Ht.
      * destruct (as_PackageManager next) as [m|] eqn:Hm.
        -- right. unfold validatePackageManager. rewrite Hm.
           exists (S n), (set_packageManager o m).
           apply lookup_lt_Some in Hnext as Hlt.
           split_and!; [f_equal; f_equal; lia | lia | lia |].
           intros j a Hj Ha ->. assert (j = S n) as -> by lia.
           apply as_PackageManager_Some in Hm. rewrite Hnext in Ha.
           injection Ha as ->. by destruct m.
        -- left. exists next. rewrite validatePackageManager_None by done.
           split_and!; try done. by apply truthy_true.
      * right. apply Hstay.
    + right. apply Hstay.
  - destruct (String.eqb_spec arg "--interactive") as [-> | _].
    + destruct (bool_decide (args !! S n = Some "false")
                || bool_decide (args !! S n = Some "0")) eqn:Hb.
      * right. exists (S n), (set_interactive o false).
        assert (Hlt : (S n < length args)%nat).
        { apply orb_true_iff in Hb as [Hb | Hb]; apply bool_decide_eq_true in Hb;
            by apply lookup_lt_Some in Hb. }
        split_and!; [f_equal; f_equal; lia | lia | lia |].
        intros j a Hj Ha ->. assert (j = S n) as -> by lia.
        rewrite Ha in Hb. by vm_compute in Hb.
      * right. apply Hstay.
    + destruct (String.eqb arg "--no-interactive"); right; apply Hstay.
Qed.

Lemma parseLoop_fuel (fuel : nat) : ∀ (args : list string) (n : nat)
    (o : PartialOptions),
  (length args - n < fuel)%nat →
  parseLoop fuel args (Z.of_nat n) o ≠ OutOfFuel
  ∧ ∀ fuel', (length args - n < fuel')%nat →
      parseLoop fuel' args (Z.of_nat n) o = parseLoop fuel args (Z.of_nat n) o.
Proof.
  induction fuel as [|fuel IH]; intros args n o Hf; [lia |].
  simpl. rewrite at_index_of_nat.
  destruct (args !! n) as [arg|] eqn:Harg.
  - destruct (parseStep_cases args n arg o Harg)
      as [(bad & _ & _ & _ & _ & Hs) | (n' & o' & Hs & Hn' & _)]; rewrite Hs.
    + split; [done |]. intros [|fuel'] Hf'; [lia |]. simpl.
      by rewrite at_index_of_nat, Harg, Hs.
    + replace (Z.of_nat n' + 1) with (Z.of_nat (S n')) by lia.
      destruct (IH args (S n') o' ltac:(lia)) as [Hne Heq].
      split; [done |]. intros [|fuel'] Hf'.
      { apply lookup_lt_Some in Harg. lia. }
      simpl. rewrite at_index_of_nat, Harg, Hs.
      replace (Z.of_nat n' + 1) with (Z.of_nat (S n')) by lia.
      apply Heq. lia.
  - split; [done |]. intros [|fuel'] Hf'.
    + apply lookup_ge_None in Harg. lia.
    + simpl. by rewrite at_index_of_nat, Harg.
Qed.

(** The parser always comes to an end. *)
Lemma parseArgs_total (process_argv : list string) :
  parseArgs process_argv ≠ OutOfFuel.
Proof.
  unfold parseArgs. apply (parseLoop_fuel _ _ 0%nat). lia.
Qed.

Lemma parseStep_invalid (args : list string) (n : nat) (v : string)
    (o : PartialOptions) :
  args !! S n = Some v → v ≠ "" → as_PackageManager v = None →
  parseStep args (Z.of_nat n) "--packageManager" o
  = ProcessExit 1 (invalidPackageManager v).
Proof.
  intros Hv Hne Hbad. unfold parseStep. simpl.
  rewrite at_index_succ, Hv. simpl.
  apply truthy_true in Hne as ->.
  by rewrite validatePackageManager_None.
Qed.

(** From an index at or before an invalid package manager flag, the loop
    leaves the process; with no such flag in between, on that value. *)
Lemma parseLoop_invalid (fuel : nat) : ∀ (args : list string) (n j : nat)
    (o : PartialOptions) (v : string),
  args !! j = Some "--packageManager" → args !! S j = Some v →
  v ≠ "" → as_PackageManager v = None →
  (n ≤ j)%nat → (length args - n < fuel)%nat →
  ∃ bad,
    as_PackageManager bad = None ∧ bad ≠ "" ∧ bad ∈ args
    ∧ parseLoop fuel args (Z.of_nat n) o
      = ProcessExit 1 (invalidPackageManager bad)
    ∧ ((∀ k, (n ≤ k < j)%nat → args !! k ≠ Some "--packageManager") →
       bad = v).
Proof.
  induction fuel as [|fuel IH]; intros args n j o v Hj Hv Hne Hbad Hn Hf;
    [lia |].
  assert (Hlt := lookup_lt_Some _ _ _ Hj).
  destruct (lookup_lt_is_Some_2 args n ltac:(lia)) as [arg Harg].
  simpl. rewrite at_index_of_nat, Harg.
  destruct (decide (n = j)) as [-> | Hnj].
  - rewrite Hj in Harg. injection Harg as <-.
    rewrite (parseStep_invalid _ _ v) by done.
    exists v. split_and!; try done. by eapply list_elem_of_lookup_2.
  - destruct (parseStep_cases args n arg o Harg)
      as [(bad & Hb & Hbne & -> & Hbbad & Hs) | (n' & o' & Hs & Hn' & Hnot)];
      rewrite Hs.
    + exists bad. split_and!; try done; [by eapply list_elem_of_lookup_2 |].
      intros Hno. by destruct (Hno n ltac:(lia)).
    + assert (Hn'j : (n' < j)%nat).
      { destruct (decide (n' < j)%nat); [done |].
        by destruct (Hnot j _ ltac:(lia) Hj). }
      replace (Z.of_nat n' + 1) with (Z.of_nat (S n')) by lia.
      destruct (IH args (S n') j o' v Hj Hv Hne Hbad ltac:(lia) ltac:(lia))
        as (bad & ? & ? & ? & ? & Hlast).
      exists bad. split_and!; try done.
      intros Hno. apply Hlast. intros k Hk. apply Hno. lia.
Qed.

Lemma collectLoop_trailing (rest : list string) (flag : string) (i : Z)
    (acc : list string) :
  startsWith flag "--" = true →
  collectLoop (rest ++ [flag]) i acc = collectLoop rest i acc.
Proof.
  intros Hflag. revert i acc.
  induction rest as [|a rest IH]; intros i acc; simpl.
  - by rewrite Hflag.
  - destruct (startsWith a "--"); [done | apply IH].
Qed.

Lemma collectFlagValue_trailing (pre : list string) (flag : string) (n : nat) :
  startsWith flag "--" = true → (n ≤ length pre)%nat →
  collectFlagValue (pre ++ [flag]) (Z.of_nat n)
  = collectFlagValue pre (Z.of_nat n).
Proof.
  intros Hflag Hn. unfold collectFlagValue.
  rewrite Nat2Z.id, drop_app_le by done.
  by rewrite collectLoop_trailing.
Qed.

(** Before a last token --packageManager, a step of the loop does not see
    that token, unless it is itself --packageManager on the token before. *)
Lemma parseStep_trailing (pre : list string) (n : nat) (arg : string)
    (o : PartialOptions) :
  pre !! n = Some arg →
  (arg = "--packageManager" → (S n < length pre)%nat) →
  parseStep (pre ++ ["--packageManager"]) (Z.of_nat n) arg o
  = parseStep pre (Z.of_nat n) arg o.
Proof.
  intros Harg Hpm. assert (Hn := lookup_lt_Some _ _ _ Harg).
  unfold parseStep.
  replace (Z.of_nat n + 1) with (Z.of_nat (S n)) by lia.
  rewrite collectFlagValue_trailing by (done || lia).
  rewrite !at_index_of_nat.
  destruct (String.eqb arg "--name"); [done |].
  destruct (String.eqb arg "--description"); [done |].
  destruct (decide (S n < length pre)%nat) as [Hlt | Hge].
  { by rewrite lookup_app_l by done. }
  assert (S n = length pre) as Hlen by lia.
  rewrite (lookup_ge_None_2 pre (S n)) by lia.
  replace ((pre ++ ["--packageManager"]) !! S n)
    with (Some "--packageManager").
  2:{ rewrite lookup_app_r by lia. by rewrite Hlen, Nat.sub_diag. }
  destruct (String.eqb_spec arg "--packageManager") as [-> | _];
    [by specialize (Hpm eq_refl) |].
  done.
Qed.

Lemma parseStep_last (args : list string) (n : nat) (o : PartialOptions) :
  args !! S n = None →
  parseStep args (Z.of_nat n) "--packageManager" o = Parsed (Z.of_nat n, o).
Proof.
  intros Hnone. unfold parseStep. simpl. by rewrite at_index_succ, Hnone.
Qed.

Lemma parseLoop_trailing (fuel : nat) : ∀ (pre : list string) (n : nat)
    (o : PartialOptions),
  last pre ≠ Some "--packageManager" →
  (n ≤ length pre)%nat → (length pre - n < fuel)%nat →
  parseLoop (S fuel) (pre ++ ["--packageManager"]) (Z.of_nat n) o
  = parseLoop fuel pre (Z.of_nat n) o.
Proof.
  induction fuel as [|fuel IH]; intros pre n o Hlast Hn Hf; [lia |].
  cbn [parseLoop]. rewrite !at_index_of_nat.
  destruct (pre !! n) as [arg|] eqn:Harg.
  - assert (Hlt := lookup_lt_Some _ _ _ Harg).
    rewrite lookup_app_l by done. rewrite Harg.
    rewrite parseStep_trailing; [| done |].
    2:{ intros ->. destruct (decide (S n < length pre)%nat); [done |].
        destruct Hlast. rewrite last_lookup.
        by replace (pred (length pre)) with n by lia. }
    destruct (parseStep_cases pre n arg o Harg)
      as [(bad & _ & _ & _ & _ & Hs) | (n' & o' & Hs & Hn' & _)]; rewrite Hs;
      [done |].
    replace (Z.of_nat n' + 1) with (Z.of_nat (S n')) by lia.
    rewrite <- IH by (done || lia). cbn [parseLoop].
    by rewrite !at_index_of_nat.
  - apply lookup_ge_None in Harg. assert (n = length pre) as -> by lia.
    assert (Hl : (pre ++ ["--packageManager"]) !! length pre
                 = Some "--packageManager")
      by (rewrite lookup_app_r, Nat.sub_diag; done).
    assert (Hl' : (pre ++ ["--packageManager"]) !! S (length pre) = None)
      by (apply lookup_ge_None_2; rewrite length_app; simpl; lia).
    by rewrite Hl, parseStep_last, at_index_succ, Hl'.
Qed.

Lemma parseStep_keeps_packageManager (args : list string) (i i' : Z)
    (arg : string) (o o' : PartialOptions) :
  arg ≠ "--packageManager" →
  parseStep args i arg o = Parsed (i', o') →
  cli_packageManager o' = cli_packageManager o.
Proof.
  intros Harg. unfold parseStep.
  destruct (String.eqb arg "--name").
  { intros [= _ <-]. by destruct (truthy _). }
  destruct (String.eqb arg "--description").
  { intros [= _ <-]. by destruct (truthy _). }
  destruct (String.eqb_spec arg "--packageManager") as [-> | _]; [done |].
  simpl. destruct (String.eqb arg "--interactive").
  { destruct (_ || _); by intros [= _ <-]. }
  destruct (String.eqb arg "--no-interactive"); by intros [= _ <-].
Qed.

(** Without a token --packageManager the parser ends with the package
    manager as it was. *)
Lemma parseLoop_no_packageManager (fuel : nat) : ∀ (args : list string)
    (n : nat) (o : PartialOptions),
  "--packageManager" ∉ args → (length args - n < fuel)%nat →
  ∃ o', parseLoop fuel args (Z.of_nat n) o = Parsed o'
        ∧ cli_packageManager o' = cli_packageManager o.
Proof.
  induction fuel as [|fuel IH]; intros args n o Hno Hf; [lia |].
  simpl. rewrite at_index_of_nat.
  destruct (args !! n) as [arg|] eqn:Harg; [| by exists o].
  assert (Hne : arg ≠ "--packageManager").
  { intros ->. apply Hno. by eapply list_elem_of_lookup_2. }
  destruct (parseStep_cases args n arg o Harg)
    as [(bad & _ & _ & ? & _) | (n' & o' & Hs & Hn' & _)]; [done |].
  rewrite Hs. replace (Z.of_nat n' + 1) with (Z.of_nat (S n')) by lia.
  destruct (IH args (S n') o' Hno ltac:(lia)) as (o'' & -> & Hpm).
  exists o''. split; [done |]. rewrite Hpm.
  by eapply parseStep_keeps_packageManager.
Qed.

Lemma parseArgs_unfold (node script : string) (args : list string) :
  parseArgs (node :: script :: args)
  = parseLoop (S (length args)) args 0 no_options.
Proof. done. Qed.

Lemma run_ProcessExit (w : world) (code : Z) (stderr : string) :
  parseArgs (process_argv w) = ProcessExit code stderr →
  run w = (Exited code, record (EvError stderr) w).
Proof.
  intros H. unfold run, main, argv, mbind, M_bind. by rewrite H.
Qed.

(** C4, as the script has it. For every string that is not empty and is
    none of npm, yarn and pnpm, an argument list that holds
    --packageManager followed by that string makes the parser print the
    line on an invalid package manager and leave the process with code 1:
    the run does nothing else, it reads and writes no file.  The value
    that the line names is the string itself when no --packageManager
    comes before. *)
Theorem invalid_packageManager_exits (w : world) (node script : string)
    (pre post : list string) (v : string) :
  process_argv w = node :: script :: pre ++ "--packageManager" :: v :: post →
  v ≠ "" → v ∉ ["npm"; "yarn"; "pnpm"] →
  ∃ bad,
    bad ∈ process_argv w ∧ (bad ∉ ["npm"; "yarn"; "pnpm"])
    ∧ ("--packageManager" ∉ pre → bad = v)
    ∧ parseArgs (process_argv w) = ProcessExit 1 (invalidPackageManager bad)
    ∧ run w = (Exited 1, record (EvError (invalidPackageManager bad)) w).
Proof.
  intros Hargv Hne Hbad. apply as_PackageManager_None in Hbad.
  set (args := pre ++ "--packageManager" :: v :: post).
  destruct (parseLoop_invalid (S (length args)) args 0 (length pre)
              no_options v) as (bad & Hb & _ & Hin & Hp & Hv); try done.
  - unfold args. by rewrite lookup_app_r, Nat.sub_diag.
  - unfold args. rewrite lookup_app_r by lia.
    by replace (S (length pre) - length pre)%nat with 1%nat by lia.
  - lia.
  - lia.
  - assert (Hparse : parseArgs (process_argv w)
                     = ProcessExit 1 (invalidPackageManager bad))
      by (by rewrite Hargv, parseArgs_unfold).
    exists bad. split_and!.
    + rewrite Hargv. do 2 (apply elem_of_cons; right). done.
    + by apply as_PackageManager_None.
    + intros Hno. apply Hv. intros k Hk Hl. apply Hno.
      apply (list_elem_of_lookup_2 _ k). unfold args in Hl.
      by rewrite lookup_app_l in Hl by lia.
    + done.
    + by apply run_ProcessExit.
Qed.

(** C10, as the script has it. When --packageManager is the last token
    and the token before it is not --packageManager, the parser gives what
    it gives without that last token: the flag sets nothing, prints nothing
    and does not end the process.  When no other token is --packageManager
    the parser ends with no package manager, and the resolved one is the
    default, npm. *)
Theorem parseArgs_trailing_packageManager (node script : string)
    (pre : list string) :
  last pre ≠ Some "--packageManager" →
  parseArgs (node :: script :: pre ++ ["--packageManager"])
  = parseArgs (node :: script :: pre)
  ∧ ("--packageManager" ∉ pre →
     ∃ cliArgs,
       parseArgs (node :: script :: pre ++ ["--packageManager"])
       = Parsed cliArgs
       ∧ cli_packageManager cliArgs = None
       ∧ ∀ packageJsonValues,
           packageManager (mergeOptions cliArgs packageJsonValues) = npm).
Proof.
  intros Hlast.
  assert (Heq : parseArgs (node :: script :: pre ++ ["--packageManager"])
                = parseArgs (node :: script :: pre)).
  { rewrite !parseArgs_unfold, length_app. simpl length.
    replace (length pre + 1)%nat with (S (length pre)) by lia.
    apply (parseLoop_trailing _ _ 0%nat); [done | lia | lia]. }
  split; [done |]. intros Hno. rewrite Heq, parseArgs_unfold.
  destruct (parseLoop_no_packageManager (S (length pre)) pre 0 no_options
              Hno ltac:(lia)) as (o' & Ho' & Hpm).
  exists o'. split_and!; [done | done |].
  intros pkg. unfold mergeOptions. simpl. by rewrite Hpm.
Qed.

(** C4, as it is written, fails on the empty string: it is none of npm,
    yarn and pnpm, the parser ignores the flag and the run goes on to write
    the files. *)
Lemma empty_packageManager_not_rejected :
  let w := sample_world ["--packageManager"; ""] [""; ""; ""; ""] in
  ("" ∉ ["npm"; "yarn"; "pnpm"])
  ∧ parseArgs (process_argv w) = Parsed no_options
  ∧ (run w).1 = Exited 0
  ∧ files (run w).2 !! envPath
    = Some ("VITE_TITLE=vite-react-ts-template" +:+ nl
            +:+ "VITE_DESCRIPTION=A starter template." +:+ nl).
Proof.
  split_and!; [| by vm_compute ..].
  intros H. repeat (apply elem_of_cons in H as [H | H]; [discriminate |]).
  by apply elem_of_nil in H.
Qed.

Lemma invalid_packageManager_exits_witness :
  let w := sample_world ["--name"; "demo"; "--packageManager"; "bun"] [] in
  ∃ bad,
    bad ∈ process_argv w ∧ (bad ∉ ["npm"; "yarn"; "pnpm"])
    ∧ ("--packageManager" ∉ ["--name"; "demo"] → bad = "bun")
    ∧ parseArgs (process_argv w) = ProcessExit 1 (invalidPackageManager bad)
    ∧ run w = (Exited 1, record (EvError (invalidPackageManager bad)) w).
Proof.
  apply (invalid_packageManager_exits _ "node" "scripts/bootstrap.ts"
           ["--name"; "demo"] [] "bun").
  - reflexivity.
  - discriminate.
  - intros H. repeat (apply elem_of_cons in H as [H | H]; [discriminate |]).
    by apply elem_of_nil in H.
Defined.

(** C10, as it is written, fails when the token before the last one is
    --packageManager too: the last token is then its value, and the parser
    prints an error and leaves the process. *)
Lemma trailing_packageManager_rejected :
  let args := ["--packageManager"; "--packageManager"] in
  last args = Some "--packageManager"
  ∧ parseArgs ("node" :: "scripts/bootstrap.ts" :: args)
    = ProcessExit 1 (invalidPackageManager "--packageManager").
Proof. by vm_compute. Qed.

Lemma parseArgs_trailing_packageManager_witness :
  let pre := ["--name"; "demo"; "app"] in
  parseArgs ("node" :: "scripts/bootstrap.ts" :: pre ++ ["--packageManager"])
  = parseArgs ("node" :: "scripts/bootstrap.ts" :: pre)
  ∧ ("--packageManager" ∉ pre →
     ∃ cliArgs,
       parseArgs
         ("node" :: "scripts/bootstrap.ts" :: pre ++ ["--packageManager"])
       = Parsed cliArgs
       ∧ cli_packageManager cliArgs = None
       ∧ ∀ packageJsonValues,
           packageManager (mergeOptions cliArgs packageJsonValues) = npm).
Proof.
  apply (parseArgs_trailing_packageManager "node" "scripts/bootstrap.ts"
           ["--name"; "demo"; "app"]).
  simpl. discriminate.
Defined.

(** ** More facts about the string primitives *)

Lemma startsWith_app (p r : string) : startsWith (p +:+ r) p = true.
Proof.
  induction p as [|c p IH]; simpl; [by destruct r |].
  by rewrite Ascii.eqb_refl.
Qed.

Lemma startsWith_inv (s p : string) :
  startsWith s p = true → ∃ r, s = p +:+ r.
Proof.
  revert s. induction p as [|c p IH]; intros s H; [by exists s |].
  destruct s as [|d s]; [done |]. simpl in H.
  apply andb_true_iff in H as [Hc Hs]. apply Ascii.eqb_eq in Hc as ->.
  destruct (IH s Hs) as [r ->]. by exists r.
Qed.

(** Two prefixes of one string: one is a prefix of the other. *)
Lemma startsWith_comparable (s p q : string) :
  startsWith s p = true → startsWith s q = true →
  startsWith p q = true ∨ startsWith q p = true.
Proof.
  revert p q. induction s as [|c s IH]; intros [|a p] [|b q]; simpl;
    try (by auto).
  intros [Ha Hp]%andb_true_iff [Hb Hq]%andb_true_iff.
  apply Ascii.eqb_eq in Ha as ->. apply Ascii.eqb_eq in Hb as ->.
  rewrite Ascii.eqb_refl. simpl. by apply IH.
Qed.

Lemma trimStart_keep (c : ascii) (r : string) :
  isWhiteSpace c = false → trimStart (String c r) = String c r.
Proof. intros H. simpl. by rewrite H. Qed.

Lemma trimEnd_keep (c : ascii) (r : string) :
  isWhiteSpace c = false → trimEnd (String c r) = String c (trimEnd r).
Proof. intros H. simpl. rewrite H. by destruct (trimEnd r). Qed.

Lemma trimEnd_app_keep (p r : string) :
  allUnits (fun c => negb (isWhiteSpace c)) p = true →
  trimEnd (p +:+ r) = p +:+ trimEnd r.
Proof.
  induction p as [|c p IH]; [done |]. simpl.
  intros [Hc Hp]%andb_true_iff. apply negb_true_iff in Hc.
  rewrite <- IH by done. rewrite Hc. by destruct (trimEnd (p +:+ r)).
Qed.

(** A text that starts with a code unit that is not white space and holds
    no white space keeps its place at the start when what follows is
    trimmed. *)
Lemma trim_app_keep (c : ascii) (p r : string) :
  allUnits (fun c => negb (isWhiteSpace c)) (String c p) = true →
  trim (String c p +:+ r) = String c p +:+ trimEnd r.
Proof.
  intros H. unfold trim.
  assert (Hc : isWhiteSpace c = false).
  { simpl in H. apply andb_true_iff in H as [H _]. by apply negb_true_iff. }
  rewrite sapp_cons, trimStart_keep by done.
  by rewrite <- sapp_cons, trimEnd_app_keep.
Qed.

Lemma eqb_nl_app (a b : string) :
  b ≠ "" → String.eqb (a +:+ b) nl = String.eqb b nl && String.eqb a "".
Proof.
  intros Hb. destruct a as [|c a]; simpl; [by rewrite andb_true_r |].
  rewrite andb_false_r. destruct (Ascii.eqb c LF); [| done].
  destruct a; [by destruct b | done].
Qed.

Lemma endsWith_nl_app (a b : string) :
  b ≠ "" → endsWith (a +:+ b) nl = endsWith b nl.
Proof.
  intros Hb. induction a as [|c a IH]; [done |].
  rewrite sapp_cons. cbn [endsWith]. rewrite IH.
  replace (String.eqb (String c (a +:+ b)) nl) with false; [done |].
  symmetry. simpl. destruct (Ascii.eqb c LF); [| done].
  destruct a; [by destruct b | done].
Qed.

Lemma endsWith_nl_snoc (s : string) : endsWith (s +:+ nl) nl = true.
Proof. by rewrite endsWith_nl_app. Qed.

Lemma endsWith_nl2_snoc (s : string) :
  endsWith (s +:+ nl) (nl +:+ nl) = endsWith s nl.
Proof.
  induction s as [|c s IH]; [done |].
  rewrite sapp_cons. cbn [endsWith]. rewrite IH. f_equal.
  simpl. destruct (Ascii.eqb c LF); [| done].
  destruct s as [|d s]; [done |]. simpl. destruct (Ascii.eqb d LF); [| done].
  by destruct s.
Qed.

Lemma join_cons (sep x : string) (ls : list string) :
  ls ≠ [] → join sep (x :: ls) = x +:+ sep +:+ join sep ls.
Proof. by destruct ls. Qed.

Lemma join_app (sep : string) (l1 l2 : list string) :
  l1 ≠ [] → l2 ≠ [] →
  join sep (l1 ++ l2) = join sep l1 +:+ sep +:+ join sep l2.
Proof.
  intros H1 H2. induction l1 as [|x l1 IH]; [done |].
  destruct l1 as [|y l1].
  - simpl app. by rewrite join_cons.
  - rewrite <- app_comm_cons, join_cons by done.
    rewrite IH by done. rewrite (join_cons sep x (y :: l1)) by done.
    by rewrite !sapp_assoc.
Qed.

Lemma join_empty (sep : string) (ls : list string) :
  join sep ls = "" → Forall (fun l => l = "") ls.
Proof.
  induction ls as [|x ls IH]; [constructor |].
  destruct ls as [|y ls]; simpl.
  - intros ->. by repeat constructor.
  - intros H. destruct x; [| done]. destruct sep; [| done].
    constructor; [done |]. by apply IH.
Qed.

Lemma join_nonempty (sep x : string) (ls : list string) :
  x ∈ ls → x ≠ "" → join sep ls ≠ "".
Proof.
  intros Hin Hx Hj. apply join_empty in Hj.
  by apply (Forall_forall _ _) with (x := x) in Hj.
Qed.

(** ** The .env patcher *)

Lemma trim_envLine_title (v : string) :
  trim (envLine ENV_TITLE v) = "VITE_TITLE=" +:+ trimEnd v.
Proof.
  unfold envLine. rewrite or_else_empty.
  change (ENV_TITLE +:+ "=" +:+ v) with ("VITE_TITLE=" +:+ v).
  by apply trim_app_keep.
Qed.

Lemma trim_envLine_description (v : string) :
  trim (envLine ENV_DESCRIPTION v) = "VITE_DESCRIPTION=" +:+ trimEnd v.
Proof.
  unfold envLine. rewrite or_else_empty.
  change (ENV_DESCRIPTION +:+ "=" +:+ v) with ("VITE_DESCRIPTION=" +:+ v).
  by apply trim_app_keep.
Qed.

(** No line assigns both keys. *)
Lemma isEnvVarLine_title_description (l : string) :
  isEnvVarLine l ENV_TITLE = true → isEnvVarLine l ENV_DESCRIPTION = false.
Proof.
  unfold isEnvVarLine. intros Ht.
  destruct (startsWith (trim l) (ENV_DESCRIPTION +:+ "=")) eqn:Hd; [| done].
  by destruct (startsWith_comparable _ _ _ Ht Hd).
Qed.

Lemma isEnvVarLine_envLine_title (v key : string) :
  isEnvVarLine (envLine ENV_TITLE v) key
  = startsWith ("VITE_TITLE=" +:+ trimEnd v) (key +:+ "=").
Proof. unfold isEnvVarLine. by rewrite trim_envLine_title. Qed.

Lemma isEnvVarLine_envLine_description (v key : string) :
  isEnvVarLine (envLine ENV_DESCRIPTION v) key
  = startsWith ("VITE_DESCRIPTION=" +:+ trimEnd v) (key +:+ "=").
Proof. unfold isEnvVarLine. by rewrite trim_envLine_description. Qed.

(** A line that assigns a key does not trim to nothing. *)
Lemma isEnvVarLine_not_blank (l key : string) :
  isEnvVarLine l key = true → trim l ≠ "".
Proof.
  unfold isEnvVarLine. intros H Ht. rewrite Ht in H.
  by destruct key.
Qed.

Lemma assigned_true (lines : list string) (key : string) :
  assigned lines key = true
  ↔ ∃ i l, lines !! i = Some l ∧ isEnvVarLine l key = true.
Proof.
  unfold assigned. rewrite existsb_exists. split.
  - intros (l & Hin & Hl). apply list_elem_of_In, list_elem_of_lookup in Hin.
    destruct Hin as [i Hi]. by exists i, l.
  - intros (i & l & Hi & Hl). exists l. split; [| done].
    apply list_elem_of_In. by eapply list_elem_of_lookup_2.
Qed.

Lemma assigned_false (lines : list string) (key : string) :
  assigned lines key = false
  ↔ ∀ i l, lines !! i = Some l → isEnvVarLine l key = false.
Proof.
  split.
  - intros H i l Hi. destruct (isEnvVarLine l key) eqn:Hl; [| done].
    assert (assigned lines key = true) by (apply assigned_true; eauto).
    congruence.
  - intros H. destruct (assigned lines key) eqn:Ha; [| done].
    apply assigned_true in Ha as (i & l & Hi & Hl).
    rewrite (H i l Hi) in Hl. done.
Qed.

(** What one call of [updateEnvVarInPlace] does to the array. *)
Lemma updateEnvVarInPlace_spec (lines : list string) (key v : string) :
  let r := updateEnvVarInPlace lines key v in
  r.1 = assigned lines key
  ∧ length r.2 = length lines
  ∧ (∀ i l, lines !! i = Some l → isEnvVarLine l key = false →
            r.2 !! i = Some l)
  ∧ (∀ i l', r.2 !! i = Some l' →
             lines !! i = Some l'
             ∨ l' = envLine key v
               ∧ ∃ l, lines !! i = Some l ∧ isEnvVarLine l key = true)
  ∧ (∀ i l, lines !! i = Some l → isEnvVarLine l key = true →
            (∀ j l', (j < i)%nat → lines !! j = Some l' →
                     isEnvVarLine l' key = false) →
            r.2 !! i = Some (envLine key v)).
Proof.
  unfold updateEnvVarInPlace.
  destruct (list_find _ lines) as [[k x]|] eqn:Hfind; simpl.
  - apply list_find_Some in Hfind as (Hk & Hx & Hfirst).
    assert (Hlt := lookup_lt_Some _ _ _ Hk).
    split_and!.
    + symmetry. apply assigned_true. eauto.
    + apply length_insert.
    + intros i l Hi Hl. rewrite list_lookup_insert_ne; [done |].
      intros <-. congruence.
    + intros i l' Hi. destruct (decide (k = i)) as [<- | Hne].
      * rewrite list_lookup_insert_eq in Hi by done. injection Hi as <-.
        right. eauto.
      * rewrite list_lookup_insert_ne in Hi by done. by left.
    + intros i l Hi Hl Hbefore.
      assert (k = i) as <-.
      { destruct (Nat.lt_trichotomy k i) as [Hlt' | [-> | Hgt]]; [| done |].
        - rewrite (Hbefore k x Hlt' Hk) in Hx. done.
        - destruct (Hfirst i l Hi Hgt). done. }
      by apply list_lookup_insert_eq.
  - apply list_find_None in Hfind.
    split_and!.
    + symmetry. apply assigned_false. intros i l Hi.
      apply (Forall_lookup_1 _ _ _ _ Hfind) in Hi.
      by destruct (isEnvVarLine l key).
    + done.
    + done.
    + intros; by left.
    + intros i l Hi Hl _. apply (Forall_lookup_1 _ _ _ _ Hfind) in Hi. done.
Qed.

(** One turn of the loop of [removeTrailingEmptyLines]: the last line is
    popped when it trims to nothing, and the loop ends when it does not. *)
Lemma removeTrailingEmptyLines_snoc (lines : list string) (l : string) :
  removeTrailingEmptyLines (lines ++ [l])
  = if String.eqb (trim l) "" then removeTrailingEmptyLines lines
    else lines ++ [l].
Proof.
  induction lines as [|x lines IH]; simpl.
  - by destruct (String.eqb (trim l) "").
  - rewrite IH. destruct (String.eqb (trim l) ""); [done |].
    by destruct lines.
Qed.

(** After the loop the last line, if there is one, does not trim to
    nothing. *)
Lemma removeTrailingEmptyLines_last (lines : list string) :
  ∀ l, last (removeTrailingEmptyLines lines) = Some l → trim l ≠ "".
Proof.
  induction lines as [|x lines IH]; intros l; [done |]. simpl.
  destruct (removeTrailingEmptyLines lines) as [|y rest].
  - destruct (String.eqb_spec (trim x) ""); [done |]. by intros [= <-].
  - intros H. by apply IH.
Qed.

Lemma removeTrailingEmptyLines_take (lines : list string) :
  ∃ n, removeTrailingEmptyLines lines = take n lines
       ∧ (n ≤ length lines)%nat
       ∧ ∀ j l, lines !! j = Some l → trim l ≠ "" → (j < n)%nat.
Proof.
  induction lines as [|x lines (n & Hn & Hle & Hlast)].
  - exists 0%nat. split_and!; [done | done | by intros ? ? [=]].
  - simpl. rewrite Hn. destruct (take n lines) as [|y rest] eqn:Ht.
    + assert (Hnone : ∀ j l, lines !! j = Some l → trim l ≠ "" → False).
      { intros j l Hj Hl. specialize (Hlast j l Hj Hl).
        assert (Hlen := f_equal length Ht). rewrite length_take in Hlen.
        apply lookup_lt_Some in Hj. simpl in Hlen. lia. }
      destruct (String.eqb_spec (trim x) "") as [Hx | Hx].
      * exists 0%nat. split_and!; [done | simpl; lia |].
        intros [|j] l Hj Hl; simpl in Hj; [congruence | by destruct (Hnone j l)].
      * exists 1%nat. split_and!; [done | simpl; lia |].
        intros [|j] l Hj Hl; simpl in Hj; [lia | by destruct (Hnone j l)].
    + exists (S n). split_and!; [by rewrite <- Ht | simpl; lia |].
      intros [|j] l Hj Hl; simpl in Hj; [lia |].
      specialize (Hlast j l Hj Hl). lia.
Qed.

Lemma updatedLines_spec (content : string) (env : gmap string string) :
  let lines := split LF content in
  let out := updatedLines content env in
  length out = length lines
  ∧ (∀ i l, lines !! i = Some l → toolLine l = false → out !! i = Some l)
  ∧ (∀ i l, lines !! i = Some l → trim l ≠ "" →
            ∃ l', out !! i = Some l' ∧ trim l' ≠ "")
  ∧ (∀ i l', out !! i = Some l' →
             lines !! i = Some l'
             ∨ ∃ l, lines !! i = Some l ∧ toolLine l = true
                    ∧ (l' = envLine ENV_TITLE (envValue env ENV_TITLE)
                       ∨ l' = envLine ENV_DESCRIPTION
                                (envValue env ENV_DESCRIPTION)))
  ∧ (updateEnvVarInPlace lines ENV_TITLE (envValue env ENV_TITLE)).1
    = assigned lines ENV_TITLE
  ∧ (updateEnvVarInPlace
       (updateEnvVarInPlace lines ENV_TITLE (envValue env ENV_TITLE)).2
       ENV_DESCRIPTION (envValue env ENV_DESCRIPTION)).1
    = assigned lines ENV_DESCRIPTION.
Proof.
  intros lines out. unfold out, updatedLines. fold lines.
  destruct (updateEnvVarInPlace_spec lines ENV_TITLE (envValue env ENV_TITLE))
    as (Hf1 & Hlen1 & Hkeep1 & Hfrom1 & _).
  set (lines1 := (updateEnvVarInPlace lines ENV_TITLE _).2) in *.
  destruct (updateEnvVarInPlace_spec lines1 ENV_DESCRIPTION
              (envValue env ENV_DESCRIPTION))
    as (Hf2 & Hlen2 & Hkeep2 & Hfrom2 & _).
  set (lines2 := (updateEnvVarInPlace lines1 ENV_DESCRIPTION _).2) in *.
  assert (Hsame : ∀ i l l1, lines !! i = Some l → lines1 !! i = Some l1 →
                            isEnvVarLine l1 ENV_DESCRIPTION
                            = isEnvVarLine l ENV_DESCRIPTION).
  { intros i l l1 Hi H1. destruct (Hfrom1 i l1 H1) as [H | (-> & l0 & H0 & Ht)].
    - congruence.
    - rewrite Hi in H0. injection H0 as <-.
      rewrite (isEnvVarLine_title_description l Ht).
      by rewrite isEnvVarLine_envLine_title. }
  split_and!.
  - congruence.
  - intros i l Hi Htool. apply orb_false_iff in Htool as [Ht Hd].
    apply Hkeep2; [by apply Hkeep1 |]. done.
  - intros i l Hi Hl.
    destruct (lookup_lt_is_Some_2 lines2 i) as [l2 H2].
    { rewrite Hlen2, Hlen1. by eapply lookup_lt_Some. }
    exists l2. split; [done |].
    destruct (Hfrom2 i l2 H2) as [H | (-> & _)].
    + destruct (Hfrom1 i l2 H) as [H' | (-> & _)]; [congruence |].
      rewrite trim_envLine_title. done.
    + rewrite trim_envLine_description. done.
  - intros i l2 H2. destruct (Hfrom2 i l2 H2) as [H | (-> & l1 & H1 & Hd)].
    + destruct (Hfrom1 i l2 H) as [H' | (-> & l & Hl & Ht)]; [by left |].
      right. exists l. unfold toolLine. rewrite Ht. auto.
    + right. destruct (lookup_lt_is_Some_2 lines i) as [l Hl].
      { rewrite <- Hlen1. by eapply lookup_lt_Some. }
      exists l. unfold toolLine. rewrite <- (Hsame i l l1 Hl H1), Hd.
      rewrite orb_true_r. auto.
  - done.
  - rewrite Hf2. destruct (assigned lines ENV_DESCRIPTION) eqn:Ha.
    + apply assigned_true in Ha as (i & l & Hi & Hl). apply assigned_true.
      destruct (lookup_lt_is_Some_2 lines1 i) as [l1 H1].
      { rewrite Hlen1. by eapply lookup_lt_Some. }
      exists i, l1. split; [done |]. by rewrite (Hsame i l l1 Hi H1).
    + apply assigned_false. intros i l1 H1.
      destruct (lookup_lt_is_Some_2 lines i) as [l Hl].
      { rewrite <- Hlen1. by eapply lookup_lt_Some. }
      rewrite (Hsame i l l1 Hl H1).
      by apply (proj1 (assigned_false _ _) Ha i l).
Qed.

(** [writeEnvFile_lines], by the keys that the file assigns. *)
Lemma writeEnvFile_lines_eq (content : string) (env : gmap string string) :
  let lines := split LF content in
  let kept := removeTrailingEmptyLines (updatedLines content env) in
  writeEnvFile_lines content env
  = if assigned lines ENV_TITLE && assigned lines ENV_DESCRIPTION
    then updatedLines content env
    else kept ++ (if bool_decide (0 < length kept)%nat then [""] else [])
              ++ missingLines lines env.
Proof.
  intros lines kept.
  destruct (updatedLines_spec content env) as (_ & _ & _ & _ & Hf1 & Hf2).
  fold lines in Hf1, Hf2.
  unfold writeEnvFile_lines, missingLines, kept, updatedLines. fold lines.
  destruct (updateEnvVarInPlace lines ENV_TITLE _) as [f1 lines1].
  simpl in Hf1, Hf2 |- *.
  destruct (updateEnvVarInPlace lines1 ENV_DESCRIPTION _) as [f2 lines2].
  simpl in Hf2 |- *. subst f1 f2.
  destruct (assigned lines ENV_TITLE), (assigned lines ENV_DESCRIPTION);
    simpl; try done;
    unfold addMissingEnvVars; simpl;
    destruct (bool_decide _); simpl; by rewrite <- ?app_assoc.
Qed.

Lemma trim_empty : trim "" = "".
Proof. done. Qed.

Lemma envLine_not_empty_title (v : string) : envLine ENV_TITLE v ≠ "".
Proof. done. Qed.

Lemma envLine_not_empty_description (v : string) :
  envLine ENV_DESCRIPTION v ≠ "".
Proof. done. Qed.

Lemma endsWith_envLine_title (v : string) :
  endsWith (envLine ENV_TITLE v) nl = endsWith v nl.
Proof.
  unfold envLine. rewrite or_else_empty. destruct v as [|c v]; [done |].
  change (ENV_TITLE +:+ "=" +:+ String c v)
    with ("VITE_TITLE=" +:+ String c v).
  by rewrite endsWith_nl_app.
Qed.

Lemma endsWith_envLine_description (v : string) :
  endsWith (envLine ENV_DESCRIPTION v) nl = endsWith v nl.
Proof.
  unfold envLine. rewrite or_else_empty. destruct v as [|c v]; [done |].
  change (ENV_DESCRIPTION +:+ "=" +:+ String c v)
    with ("VITE_DESCRIPTION=" +:+ String c v).
  by rewrite endsWith_nl_app.
Qed.

Lemma endsWith_join_snoc (front : list string) (x : string) :
  x ≠ "" → endsWith (join nl (front ++ [x])) nl = endsWith x nl.
Proof.
  intros Hx. destruct front as [|y front]; [done |].
  rewrite join_app by done. rewrite <- sapp_assoc.
  by rewrite endsWith_nl_app.
Qed.

(** The array that is written holds a line that is not empty. *)
Lemma writeEnvFile_lines_not_empty (content : string)
    (env : gmap string string) :
  join nl (writeEnvFile_lines content env) ≠ "".
Proof.
  destruct (updatedLines_spec content env) as (_ & _ & Hblank & _).
  rewrite writeEnvFile_lines_eq.
  destruct (assigned (split LF content) ENV_TITLE) eqn:Ht; simpl.
  - destruct (assigned (split LF content) ENV_DESCRIPTION) eqn:Hd; simpl.
    + apply assigned_true in Ht as (i & l & Hi & Hl).
      destruct (Hblank i l Hi (isEnvVarLine_not_blank _ _ Hl))
        as (l' & Hi' & Hl').
      apply (join_nonempty _ l'); [by eapply list_elem_of_lookup_2 |].
      by intros ->.
    + apply (join_nonempty _
               (envLine ENV_DESCRIPTION (envValue env ENV_DESCRIPTION)));
        [| done].
      unfold missingLines. rewrite Ht, Hd. set_solver.
  - apply (join_nonempty _ (envLine ENV_TITLE (envValue env ENV_TITLE)));
      [| done].
    unfold missingLines. rewrite Ht. set_solver.
Qed.

(** C9, as it is written, fails on a file that assigns both keys and ends
    with an empty line: what is written ends with two line feeds. *)
Lemma writeEnvFile_two_final_newlines :
  let content :=
    "VITE_TITLE=a" +:+ nl +:+ "VITE_DESCRIPTION=b" +:+ nl +:+ nl in
  writeEnvFile_content content sample_env
  = "VITE_TITLE=demo" +:+ nl +:+ "VITE_DESCRIPTION=desc" +:+ nl +:+ nl
  ∧ endsWithOneNewline (writeEnvFile_content content sample_env) = false.
Proof. by vm_compute. Qed.

(** C8. With no .env file, the patcher run for the name demo and the
    description desc creates the file with the line of the title, then the
    line of the description, then one line feed, and nothing before the
    first key. *)
Theorem updateEnv_creates_file (w : world) (options : BootstrapOptions) :
  files w !! envPath = None →
  name options = "demo" → description options = "desc" →
  let content :=
    "VITE_TITLE=demo" +:+ nl +:+ "VITE_DESCRIPTION=desc" +:+ nl in
  ∃ w',
    updateEnv options w = (Return (), w')
    ∧ files w' = <[envPath := content]> (files w)
    ∧ split LF content = ["VITE_TITLE=demo"; "VITE_DESCRIPTION=desc"; ""]
    ∧ writeEnvFile_lines "" (<[ENV_DESCRIPTION := "desc"]>
                               (<[ENV_TITLE := "demo"]> ∅))
      = ["VITE_TITLE=demo"; "VITE_DESCRIPTION=desc"].
Proof.
  intros Hnone Hname Hdesc content.
  unfold updateEnv, readEnvFile, writeEnvFile, mbind, M_bind, existsSync.
  simpl. rewrite Hnone. simpl. rewrite Hnone. simpl.
  rewrite Hname, Hdesc.
  eexists. split_and!; [reflexivity | reflexivity | reflexivity | by vm_compute].
Qed.

Lemma updateEnv_creates_file_witness :
  let w := sample_world [] [] in
  let options := {| name := "demo"; description := "desc";
                    packageManager := npm; interactive := false |} in
  files w !! envPath = None
  ∧ ∃ w',
      updateEnv options w = (Return (), w')
      ∧ files w'
        = <[envPath := "VITE_TITLE=demo" +:+ nl +:+ "VITE_DESCRIPTION=desc"
                        +:+ nl]> (files w).
Proof.
  split; [reflexivity |].
  destruct (updateEnv_creates_file (sample_world [] [])
              {| name := "demo"; description := "desc";
                 packageManager := npm; interactive := false |}
              eq_refl eq_refl eq_refl) as (w' & Hrun & Hfiles & _).
  exists w'. split; [exact Hrun | exact Hfiles].
Defined.

(** The update of the title does not change which lines assign the
    description. *)
Lemma updateTitle_same_description (lines : list string) (v : string)
    (i : nat) (l l1 : string) :
  lines !! i = Some l →
  (updateEnvVarInPlace lines ENV_TITLE v).2 !! i = Some l1 →
  isEnvVarLine l1 ENV_DESCRIPTION = isEnvVarLine l ENV_DESCRIPTION.
Proof.
  intros Hi H1.
  destruct (updateEnvVarInPlace_spec lines ENV_TITLE v)
    as (_ & _ & _ & Hfrom & _).
  destruct (Hfrom i l1 H1) as [H | (-> & l0 & H0 & Ht)]; [congruence |].
  rewrite Hi in H0. injection H0 as <-.
  rewrite (isEnvVarLine_title_description l Ht).
  by rewrite isEnvVarLine_envLine_title.
Qed.

(** The first line that assigns a key is replaced where it stands. *)
Lemma updatedLines_replaced (content : string) (env : gmap string string)
    (key : string) (i : nat) (l : string) :
  key = ENV_TITLE ∨ key = ENV_DESCRIPTION →
  split LF content !! i = Some l → isEnvVarLine l key = true →
  (∀ j l', (j < i)%nat → split LF content !! j = Some l' →
           isEnvVarLine l' key = false) →
  updatedLines content env !! i = Some (envLine key (envValue env key)).
Proof.
  intros Hkey Hi Hl Hfirst. unfold updatedLines.
  set (lines := split LF content) in *.
  destruct (updateEnvVarInPlace_spec lines ENV_TITLE (envValue env ENV_TITLE))
    as (_ & Hlen1 & Hkeep1 & _ & Hrep1).
  set (lines1 := (updateEnvVarInPlace lines ENV_TITLE _).2) in *.
  destruct (updateEnvVarInPlace_spec lines1 ENV_DESCRIPTION
              (envValue env ENV_DESCRIPTION))
    as (_ & _ & Hkeep2 & _ & Hrep2).
  destruct Hkey as [-> | ->].
  - apply Hkeep2; [by apply (Hrep1 i l) |].
    by rewrite isEnvVarLine_envLine_title.
  - destruct (lookup_lt_is_Some_2 lines1 i) as [l1 H1].
    { rewrite Hlen1. by eapply lookup_lt_Some. }
    apply (Hrep2 i l1 H1).
    + by rewrite (updateTitle_same_description lines
                    (envValue env ENV_TITLE) i l l1).
    + intros j l1' Hj H1'.
      destruct (lookup_lt_is_Some_2 lines j) as [l' Hl'].
      { rewrite <- Hlen1. by eapply lookup_lt_Some. }
      rewrite (updateTitle_same_description lines
                 (envValue env ENV_TITLE) j l' l1' Hl' H1').
      by eapply Hfirst.
Qed.

(** C1, as it is written, fails on the empty lines at the end of a file
    that lacks the keys: of the three after the line A=1 one is left, and
    the line of the title stands where the second was. *)
Lemma writeEnvFile_drops_trailing_blank_lines :
  let content := "A=1" +:+ nl +:+ nl +:+ nl +:+ nl in
  let written := writeEnvFile_content content sample_env in
  split LF content = ["A=1"; ""; ""; ""; ""]
  ∧ toolLine "" = false
  ∧ written = "A=1" +:+ nl +:+ nl +:+ "VITE_TITLE=demo" +:+ nl
              +:+ "VITE_DESCRIPTION=desc" +:+ nl
  ∧ split LF written !! 2%nat = Some "VITE_TITLE=demo"
  ∧ split LF written !! 2%nat ≠ split LF content !! 2%nat.
Proof. by vm_compute. Qed.

(** ** README.md *)

Lemma split_not_nil (sep : ascii) (s : string) : split sep s ≠ [].
Proof.
  induction s as [|c s IH]; simpl; [done |].
  destruct (Ascii.eqb c sep); [done |]. by destruct (split sep s).
Qed.

Lemma join_split (s : string) : join nl (split LF s) = s.
Proof.
  induction s as [|c s IH]; [done |]. simpl.
  destruct (Ascii.eqb_spec c LF) as [-> | Hc].
  - rewrite join_cons by apply split_not_nil. by rewrite IH.
  - destruct (split LF s) as [|h t] eqn:Hs; [by destruct (split_not_nil LF s) |].
    rewrite <- IH. by destruct t.
Qed.

Lemma startsWith_nil (s : string) : startsWith s "" = true.
Proof. by destruct s. Qed.

(** A text without a line feed is one line. *)
Lemma split_one_line (h : string) :
  includes h nl = false → split LF h = [h].
Proof.
  induction h as [|c h IH]; [done |]. cbn [includes startsWith nl].
  rewrite startsWith_nil, andb_true_r. intros [Hc Hh]%orb_false_iff.
  simpl. rewrite Ascii.eqb_sym, Hc. by rewrite IH.
Qed.

Lemma split_first_line (h r : string) :
  includes h nl = false → split LF (h +:+ nl +:+ r) = h :: split LF r.
Proof.
  induction h as [|c h IH]; [done |]. cbn [includes startsWith nl].
  rewrite startsWith_nil, andb_true_r. intros [Hc Hh]%orb_false_iff.
  rewrite sapp_cons. cbn [split]. rewrite Ascii.eqb_sym, Hc.
  by rewrite IH.
Qed.

Lemma includes_app_r (a b x : string) :
  includes b x = true → includes (a +:+ b) x = true.
Proof.
  intros H. induction a as [|c a IH]; [done |].
  rewrite sapp_cons. cbn [includes]. rewrite IH. apply orb_true_r.
Qed.

Lemma includes_startsWith (s x : string) :
  startsWith s x = true → includes s x = true.
Proof. intros H. destruct s; cbn [includes]; by rewrite H. Qed.

(** After [updateReadmeTitle] the text is the heading, alone or followed
    by a line feed. *)
Lemma updateReadmeTitle_shape (content name : string) :
  updateReadmeTitle content name = "# " +:+ name
  ∨ ∃ r, updateReadmeTitle content name = "# " +:+ name +:+ nl +:+ r.
Proof.
  unfold updateReadmeTitle.
  destruct (split LF content) as [|h t] eqn:Hs;
    [by destruct (split_not_nil LF content) |].
  simpl (default _ _).
  destruct (startsWith h "#"); simpl insert.
  - destruct t as [|y t]; [by left |]. right.
    exists (join nl (y :: t)). by rewrite join_cons.
  - right. destruct t as [|y t].
    + by exists h.
    + exists (h +:+ nl +:+ join nl (y :: t)). rewrite join_cons by done.
      simpl. do 2 f_equal. by rewrite sapp_assoc.
Qed.

(** On such a text, with a name of one line, [updateReadmeTitle] changes
    nothing. *)
Lemma updateReadmeTitle_fixed (s name : string) :
  includes name nl = false →
  s = "# " +:+ name ∨ (∃ r, s = "# " +:+ name +:+ nl +:+ r) →
  updateReadmeTitle s name = s.
Proof.
  intros Hname Hs.
  assert (Hhead : includes ("# " +:+ name) nl = false) by (by simpl).
  unfold updateReadmeTitle. destruct Hs as [-> | [r ->]].
  - rewrite split_one_line by done. by simpl.
  - rewrite <- sapp_assoc. rewrite split_first_line by done.
    simpl. rewrite join_split.
    destruct (split LF r) eqn:Hr; [by destruct (split_not_nil LF r) | done].
Qed.

Lemma appendResourcesSection_includes (s : string) :
  includes (appendResourcesSection s) "## Resources" = true.
Proof.
  unfold appendResourcesSection.
  destruct (includes s "## Resources") eqn:Hs; [done |].
  by do 2 apply includes_app_r.
Qed.

Lemma appendResourcesSection_fixed (s : string) :
  includes s "## Resources" = true → appendResourcesSection s = s.
Proof. unfold appendResourcesSection. by intros ->. Qed.

Lemma appendResourcesSection_shape (s name : string) :
  s = "# " +:+ name ∨ (∃ r, s = "# " +:+ name +:+ nl +:+ r) →
  appendResourcesSection s = "# " +:+ name
  ∨ ∃ r, appendResourcesSection s = "# " +:+ name +:+ nl +:+ r.
Proof.
  intros Hs. unfold appendResourcesSection.
  destruct (includes s "## Resources"); [done |]. right.
  assert (Hsep : ∃ x, (if endsWith s nl then nl else nl +:+ nl) = nl +:+ x)
    by (destruct (endsWith s nl); [by exists "" | by exists nl]).
  destruct Hsep as [x ->]. destruct Hs as [-> | [r ->]].
  - exists (x +:+ RESOURCES_SECTION). by rewrite !sapp_assoc.
  - exists (r +:+ nl +:+ x +:+ RESOURCES_SECTION). by rewrite !sapp_assoc.
Qed.

(** C2, as the script has it. For a name without a line feed, the two steps
    of the README patcher applied a second time change nothing: the title
    stays, and the section, present after the first time, is not added
    again. *)
Theorem updateReadme_idempotent (content name : string) :
  includes name nl = false →
  let once := updateReadme_content name content in
  updateReadme_content name once = once
  ∧ updateReadmeTitle once name = once
  ∧ appendResourcesSection once = once
  ∧ includes once "## Resources" = true.
Proof.
  intros Hname once.
  assert (Hinc : includes once "## Resources" = true)
    by apply appendResourcesSection_includes.
  assert (Htitle : updateReadmeTitle once name = once).
  { apply updateReadmeTitle_fixed; [done |].
    apply appendResourcesSection_shape, updateReadmeTitle_shape. }
  assert (Happend : appendResourcesSection once = once)
    by (by apply appendResourcesSection_fixed).
  split_and!; try done.
  unfold updateReadme_content at 1. by rewrite Htitle.
Qed.

(** C2, as it is written, fails for a name of two lines: the second time
    adds the second line of the name once more. *)
Lemma updateReadme_not_idempotent :
  let name := "a" +:+ nl +:+ "b" in
  let once := updateReadme_content name "# t" in
  let twice := updateReadme_content name once in
  once = "# a" +:+ nl +:+ "b" +:+ nl +:+ nl +:+ RESOURCES_SECTION
  ∧ twice = "# a" +:+ nl +:+ "b" +:+ nl +:+ "b" +:+ nl +:+ nl
            +:+ RESOURCES_SECTION
  ∧ twice ≠ once.
Proof. by vm_compute. Qed.

Lemma updateReadme_idempotent_witness :
  let content := "vite-react-ts-template" +:+ nl +:+ nl +:+ "A template." in
  let once := updateReadme_content "demo" content in
  includes "demo" nl = false
  ∧ once = "# demo" +:+ nl +:+ "vite-react-ts-template" +:+ nl +:+ nl
           +:+ "A template." +:+ nl +:+ nl +:+ RESOURCES_SECTION
  ∧ updateReadme_content "demo" once = once.
Proof.
  split_and!; [reflexivity | reflexivity |].
  apply (updateReadme_idempotent
           ("vite-react-ts-template" +:+ nl +:+ nl +:+ "A template.") "demo").
  reflexivity.
Defined.

(** ** deploy.yml *)

Lemma span_spec (p : ascii → bool) (s a b : string) :
  span p s = (a, b) →
  s = a +:+ b ∧ allUnits p a = true
  ∧ match b with "" => True | String c _ => p c = false end.
Proof.
  revert a b. induction s as [|c s IH]; intros a b; simpl.
  - by intros [= <- <-].
  - destruct (p c) eqn:Hc.
    + destruct (span p s) as [a' b'] eqn:Hs. intros [= <- <-].
      destruct (IH a' b' eq_refl) as (-> & Ha & Hb).
      simpl. by rewrite Hc.
    + intros [= <- <-]. by rewrite Hc.
Qed.

(** [span] takes a prefix whose code units all pass, when what follows
    starts with one that does not. *)
Lemma span_all (p : ascii → bool) (a b : string) :
  allUnits p a = true →
  match b with "" => True | String c _ => p c = false end →
  span p (a +:+ b) = (a, b).
Proof.
  intros Ha Hb. induction a as [|c a IH]; simpl.
  - destruct b as [|c b]; [done |]. simpl. by rewrite Hb.
  - simpl in Ha. apply andb_true_iff in Ha as [Hc Ha].
    by rewrite Hc, IH.
Qed.

(** [span] stops inside [a] when a code unit of [a] does not pass. *)
Lemma span_stop (p : ascii → bool) (a b x : string) (c : ascii) (y : string) :
  span p a = (x, String c y) → span p (a +:+ b) = (x, String c y +:+ b).
Proof.
  revert x. induction a as [|d a IH]; intros x; simpl; [done |].
  destruct (p d) eqn:Hd.
  - destruct (span p a) as [x' y'] eqn:Hs. intros [= <- ->].
    by rewrite (IH x' eq_refl).
  - by intros [= <- <- <-].
Qed.

Lemma stripPrefix_app (p t : string) : stripPrefix p (p +:+ t) = Some t.
Proof.
  induction p as [|c p IH]; simpl; [by destruct t |].
  by rewrite Ascii.eqb_refl.
Qed.

Lemma stripPrefix_None (p s : string) :
  startsWith s p = false → stripPrefix p s = None.
Proof.
  revert s. induction p as [|c p IH]; intros s; [by destruct s |].
  destruct s as [|d s]; [done |]. simpl.
  destruct (Ascii.eqb c d); [apply IH | done].
Qed.

(** A prefix without a line feed does not reach over a line feed. *)
Lemma startsWith_over_nl (x a b : string) :
  includes x nl = false →
  startsWith (a +:+ String LF b) x = startsWith a x.
Proof.
  revert a. induction x as [|c x IH]; intros a Hx.
  - by rewrite !startsWith_nil.
  - cbn [includes startsWith nl] in Hx.
    rewrite startsWith_nil, andb_true_r in Hx.
    apply orb_false_iff in Hx as [Hc Hx].
    destruct a as [|d a].
    + simpl. by rewrite Ascii.eqb_sym, Hc.
    + rewrite sapp_cons. simpl. by rewrite IH.
Qed.

(** A suffix of a concatenation is a suffix of the second text, or a
    suffix of the first one, not empty, followed by the second. *)
Lemma sapp_suffix (a b p v : string) :
  a +:+ b = p +:+ v →
  (∃ p', b = p' +:+ v) ∨ (∃ v1, v1 ≠ "" ∧ v = v1 +:+ b ∧ a = p +:+ v1).
Proof.
  revert p. induction a as [|c a IH]; intros p H.
  - left. by exists p.
  - destruct p as [|d p].
    + right. exists (String c a). by simpl in *.
    + simpl in H. injection H as <- H.
      destruct (IH p H) as [? | (v1 & ? & ? & ->)]; [by left |].
      right. by exists v1.
Qed.

Lemma includes_suffix (p v x : string) :
  startsWith v x = true → includes (p +:+ v) x = true.
Proof. intros H. by apply includes_app_r, includes_startsWith. Qed.

(** No suffix of the text before the step, followed by the step, starts
    with the name of the step. *)
Lemma textBefore_clean (before : list string) (indent rest : string) :
  Forall (fun l => includes l stepName = false) before →
  allUnits isWhiteSpace indent = true →
  ∀ p v, textBefore before indent = p +:+ v → v ≠ "" →
         startsWith (v +:+ rest) stepName = false.
Proof.
  intros Hbefore Hindent. induction Hbefore as [|l before Hl _ IH]; simpl.
  - intros p v Hv Hne. destruct v as [|c v]; [done |].
    assert (Hc : isWhiteSpace c = true).
    { clear Hne. revert p Hv. induction indent as [|d indent IHi];
        intros [|e p] Hv; try done; simpl in *.
      - injection Hv as -> ->. by apply andb_true_iff in Hindent as [? _].
      - injection Hv as -> Hv. apply andb_true_iff in Hindent as [_ ?].
        by eapply IHi. }
    simpl. destruct c as [[] [] [] [] [] [] [] []]; done.
  - intros p v Hv Hne.
    destruct (sapp_suffix _ _ _ _ Hv) as [[p' Hp'] | (v1 & Hv1 & -> & ->)].
    + destruct (sapp_suffix nl _ p' v Hp') as [[p'' Hp''] | (v2 & Hv2 & -> & Hnl)].
      * by eapply IH.
      * destruct p' as [|e p']; simpl in Hnl.
        -- subst v2. done.
        -- injection Hnl as _ Hnl. by destruct p', v2.
    + rewrite !sapp_assoc, sapp_cons. rewrite startsWith_over_nl by done.
      destruct (startsWith v1 stepName) eqn:Hs; [| done].
      by rewrite (includes_suffix p v1 stepName Hs) in Hl.
Qed.

Lemma endsWithSpace_app (a b : string) :
  b ≠ "" → endsWithSpace (a +:+ b) = endsWithSpace b.
Proof.
  intros Hb. induction a as [|c a IH]; [done |].
  rewrite sapp_cons. cbn [endsWithSpace]. rewrite IH.
  destruct (a +:+ b) eqn:Hab; [| done]. by destruct a, b.
Qed.

Lemma endsWithSpace_all (s : string) :
  s ≠ "" → allUnits isWhiteSpace s = true → endsWithSpace s = true.
Proof.
  induction s as [|c s IH]; [done |]. intros _ [Hc Hs]%andb_true_iff.
  destruct s as [|d s]; [done |]. by apply IH.
Qed.

Lemma textBefore_endsWithSpace (before : list string) (indent : string) :
  before ≠ [] ∨ indent ≠ "" → allUnits isWhiteSpace indent = true →
  endsWithSpace (textBefore before indent) = true.
Proof.
  intros Hne Hindent. induction before as [|l before IH]; simpl.
  - destruct Hne as [? | ?]; [done |]. by apply endsWithSpace_all.
  - rewrite endsWithSpace_app by done. cbn [endsWithSpace].
    destruct (textBefore before indent) eqn:Ht; [done |].
    apply IH.
    destruct before; [right | by left]. simpl in Ht. by rewrite Ht.
Qed.

Lemma workflow_text (before : list string) (indent runLine : string)
    (after : list string) :
  workflow before indent runLine after
  = textBefore before indent +:+ stepName +:+ nl +:+ runLine
    +:+ textAfter after.
Proof.
  unfold workflow. induction before as [|l before IH].
  - simpl app. rewrite join_cons by done. cbn [textBefore].
    rewrite !sapp_assoc. do 3 f_equal.
    destruct after; [by rewrite sapp_nil_r | by rewrite join_cons].
  - rewrite <- app_comm_cons, join_cons by (by destruct before).
    rewrite IH. cbn [textBefore]. by rewrite !sapp_assoc.
Qed.

Section install_step.

(** The run line of the step is [indent2], then the instruction with the
    command [old]; [R] follows the line. *)
Variables (indent2 old R : string).
Hypothesis indent2_space : allUnits isWhiteSpace indent2 = true.
Hypothesis old_line : allUnits notLineTerminator old = true.
Hypothesis old_not_empty : old ≠ "".
Hypothesis R_next_line :
  match R with "" => True | String c _ => c = LF end.

Let step : string :=
  stepName +:+ nl +:+ (indent2 +:+ "run: " +:+ old) +:+ R.

Let group1 (u : string) : string :=
  u +:+ stepName +:+ (nl +:+ indent2) +:+ "run: ".

(** The pattern matches at white space that the step follows. *)
Lemma installPattern_at_space (u : string) :
  u ≠ "" → allUnits isWhiteSpace u = true →
  installPattern_at (u +:+ step) = Some (group1 u, old, R).
Proof using indent2_space old_line old_not_empty R_next_line.
  intros Hu Hspace. unfold installPattern_at, step.
  rewrite (span_all isWhiteSpace u) by done.
  apply truthy_true in Hu as ->. simpl negb. cbv iota.
  rewrite stripPrefix_app.
  rewrite !sapp_assoc.
  change (nl +:+ indent2 +:+ "run: " +:+ old +:+ R)
    with ((nl +:+ indent2) +:+ "run: " +:+ old +:+ R).
  rewrite (span_all isWhiteSpace (nl +:+ indent2)) by done.
  simpl (truthy (nl +:+ indent2)). simpl negb. cbv iota.
  rewrite (stripPrefix_app "run: ").
  rewrite (span_all notLineTerminator old).
  - by apply truthy_true in old_not_empty as ->.
  - done.
  - destruct R; [done |]. by subst.
Qed.

(** It does not match at a text with a code unit that is not white
    space, when no suffix of the text followed by the step starts with
    the name of the step. *)
Lemma installPattern_at_other (u : string) :
  (∀ p v, u = p +:+ v → v ≠ "" →
          startsWith (v +:+ step) stepName = false) →
  allUnits isWhiteSpace u = false →
  installPattern_at (u +:+ step) = None.
Proof.
  intros Hclean Hu. unfold installPattern_at.
  destruct (span isWhiteSpace u) as [x y] eqn:Hspan.
  destruct (span_spec _ _ _ _ Hspan) as (-> & Hx & Hy).
  destruct y as [|c y].
  { rewrite sapp_nil_r in Hu. congruence. }
  rewrite (span_stop _ _ _ _ _ _ Hspan).
  destruct (truthy x); [| done]. simpl negb. cbv iota.
  by rewrite stripPrefix_None by (by eapply Hclean).
Qed.

(** The leftmost match in a text that ends with white space, followed
    by the step, is the match with the step. *)
Lemma installPattern_exec_step (before : string) :
  endsWithSpace before = true →
  (∀ p v, before = p +:+ v → v ≠ "" →
          startsWith (v +:+ step) stepName = false) →
  ∃ p u, before = p +:+ u
         ∧ installPattern_exec (before +:+ step)
           = Some (p, group1 u, old, R).
Proof using indent2_space old_line old_not_empty R_next_line.
  induction before as [|c before IH]; [done |]. intros Hends Hclean.
  destruct (allUnits isWhiteSpace (String c before)) eqn:Hall.
  - exists "", (String c before). split; [done |].
    rewrite sapp_cons. cbn [installPattern_exec]. rewrite <- sapp_cons.
    by rewrite installPattern_at_space.
  - assert (Hbefore : before ≠ "").
    { intros ->. simpl in Hends, Hall. rewrite andb_true_r in Hall.
      congruence. }
    destruct IH as (p & u & -> & Hexec).
    + by destruct before.
    + intros p v -> Hv. by apply (Hclean (String c p)).
    + exists (String c p), u. split; [done |].
      rewrite sapp_cons. cbn [installPattern_exec]. rewrite <- sapp_cons.
      rewrite installPattern_at_other by done.
      by rewrite Hexec.
Qed.

End install_step.

(** In a document where no line before the step holds the name of the
    step, and the step does not stand at the very start, the command of the
    run line, whatever it is, becomes the install command of the package
    manager, and nothing else changes. *)
Lemma updateDeployYml_content_step (pm : PackageManager)
    (before after : list string) (indent indent2 old : string) :
  allUnits isWhiteSpace indent = true →
  allUnits isWhiteSpace indent2 = true →
  allUnits notLineTerminator old = true → old ≠ "" →
  Forall (fun l => includes l stepName = false) before →
  before ≠ [] ∨ indent ≠ "" →
  updateDeployYml_content pm
    (workflow before indent (indent2 +:+ "run: " +:+ old) after)
  = workflow before indent
      (indent2 +:+ "run: " +:+ getGithubActionsInstallCommand pm) after.
Proof.
  intros Hindent Hindent2 Hold Hne Hbefore Hstart.
  rewrite !workflow_text. unfold updateDeployYml_content.
  assert (HR : match textAfter after with
               | "" => True
               | String c _ => c = LF
               end) by (by destruct after).
  destruct (installPattern_exec_step indent2 old (textAfter after)
              Hindent2 Hold Hne HR (textBefore before indent))
    as (p & u & Hpu & Hexec).
  - by apply textBefore_endsWithSpace.
  - by apply textBefore_clean.
  - rewrite !sapp_assoc in Hexec. rewrite !sapp_assoc, Hexec, Hpu.
    by rewrite !sapp_assoc.
Qed.

Lemma allUnits_indent_space (s : string) :
  allUnits isIndent s = true → allUnits isWhiteSpace s = true.
Proof.
  induction s as [|c s IH]; [done |]. simpl.
  intros [Hc Hs]%andb_true_iff. rewrite IH by done.
  by destruct c as [[] [] [] [] [] [] [] []].
Qed.

Lemma includes_indent_nl (s b : string) :
  allUnits isIndent s = true → includes (s +:+ b) nl = includes b nl.
Proof.
  induction s as [|c s IH]; [done |]. simpl.
  intros [Hc Hs]%andb_true_iff. rewrite IH by done.
  rewrite startsWith_nil. by destruct c as [[] [] [] [] [] [] [] []].
Qed.

Lemma includes_space_stepName (s b : string) :
  allUnits isWhiteSpace s = true →
  includes (s +:+ b) stepName = includes b stepName.
Proof.
  induction s as [|c s IH]; [done |]. simpl.
  intros [Hc Hs]%andb_true_iff. rewrite IH by done.
  by destruct c as [[] [] [] [] [] [] [] []].
Qed.

Lemma startsWith_length (v x : string) :
  startsWith v x = true → (String.length x ≤ String.length v)%nat.
Proof.
  revert v. induction x as [|c x IH]; intros v; [simpl; lia |].
  destruct v as [|d v]; [done |]. simpl.
  intros [_ H]%andb_true_iff. apply IH in H. lia.
Qed.

Lemma length_sapp (a b : string) :
  String.length (a +:+ b) = (String.length a + String.length b)%nat.
Proof. induction a as [|c a IH]; simpl; [done | by rewrite IH]. Qed.

Lemma textBefore_join (lines : list string) (indent : string) :
  lines ≠ [] → textBefore lines indent = join nl lines +:+ nl +:+ indent.
Proof.
  intros Hne. induction lines as [|l lines IH]; [done |].
  destruct lines as [|l' lines]; [done |].
  rewrite join_cons by done. cbn [textBefore] in *.
  rewrite IH by done. by rewrite !sapp_assoc.
Qed.

(** No suffix of lines without the name of the step starts with it. *)
Lemma join_clean (lines : list string) (p v : string) :
  Forall (fun l => includes l stepName = false) lines →
  join nl lines = p +:+ v → startsWith v stepName = false.
Proof.
  intros Hlines Hv. destruct lines as [|l lines].
  { destruct p, v; done. }
  rewrite <- (startsWith_over_nl stepName v "") by done.
  rewrite <- (sapp_nil_r (v +:+ String LF "")).
  apply (textBefore_clean (l :: lines) "" "" Hlines eq_refl p).
  - rewrite textBefore_join by done. rewrite Hv.
    by rewrite sapp_nil_r, sapp_assoc.
  - by destruct v.
Qed.

(** Where no suffix but the text itself starts with the name of the step,
    the pattern has no match. *)
Lemma installPattern_exec_none (s : string) :
  (∀ p v, s = p +:+ v → p ≠ "" → startsWith v stepName = false) →
  installPattern_exec s = None.
Proof.
  assert (Hat : ∀ t, (∀ p v, t = p +:+ v → p ≠ "" →
                             startsWith v stepName = false) →
                     installPattern_at t = None).
  { intros t Ht. unfold installPattern_at.
    destruct (span isWhiteSpace t) as [ws1 r1] eqn:Hspan.
    destruct (span_spec _ _ _ _ Hspan) as (-> & _ & _).
    destruct ws1 as [|c ws1]; [done |]. simpl negb. cbv iota.
    by rewrite stripPrefix_None by (by apply (Ht (String c ws1))). }
  induction s as [|c s IH]; intros Hs.
  - cbn [installPattern_exec]. by rewrite (Hat "" Hs).
  - cbn [installPattern_exec]. rewrite (Hat _ Hs).
    rewrite IH; [done |]. intros p v -> Hp. by apply (Hs (String c p)).
Qed.

(** In the run line, after its indentation the first match of the second
    pattern is the instruction itself. *)
Lemma replaceRunPattern_indent (indent2 old replacement : string) :
  allUnits isIndent indent2 = true →
  allUnits notLineTerminator old = true → old ≠ "" →
  replaceRunPattern (indent2 +:+ "run: " +:+ old) replacement
  = indent2 +:+ replacement.
Proof.
  intros Hindent Hold Hne. induction indent2 as [|c indent2 IH].
  - change ("" +:+ "run: " +:+ old) with ("run: " +:+ old).
    destruct old as [|d old]; [done |].
    assert (Hat : runPattern_at ("run: " +:+ String d old)
                  = Some (String d old, "")).
    { unfold runPattern_at. rewrite stripPrefix_app.
      rewrite <- (sapp_nil_r (String d old)) at 1.
      by rewrite span_all. }
    change ("run: " +:+ String d old)
      with (String "r" ("un: " +:+ String d old)) in *.
    cbn [replaceRunPattern]. rewrite Hat. by rewrite sapp_nil_r.
  - simpl in Hindent. apply andb_true_iff in Hindent as [Hc Hindent].
    rewrite !(sapp_cons c indent2). cbn [replaceRunPattern].
    rewrite IH by done.
    replace (runPattern_at (String c (indent2 +:+ "run: " +:+ old)))
      with (@None (string * string)); [done |].
    unfold runPattern_at. simpl.
    by destruct c as [[] [] [] [] [] [] [] []].
Qed.

(** A step at the very start of a document, with no later line that holds
    its name: the pattern has no match, and the loop over the lines writes
    the command on the run line. *)
Lemma updateDeployYml_content_first (pm : PackageManager)
    (after : list string) (indent2 old : string) :
  allUnits isIndent indent2 = true →
  allUnits notLineTerminator old = true → old ≠ "" →
  includes old nl = false → includes old stepName = false →
  Forall (fun l => includes l stepName = false) after →
  updateDeployYml_content pm
    (workflow [] "" (indent2 +:+ "run: " +:+ old) after)
  = workflow [] ""
      (indent2 +:+ "run: " +:+ getGithubActionsInstallCommand pm) after.
Proof.
  intros Hindent Hold Hne Hnl Hstep Hafter.
  set (runLine := indent2 +:+ "run: " +:+ old).
  assert (HrunStep : includes runLine stepName = false).
  { unfold runLine. rewrite includes_space_stepName
      by (by apply allUnits_indent_space).
    change ("run: " +:+ old) with (String "r" (String "u" (String "n"
      (String ":" (String " " old))))).
    cbn [includes]. rewrite Hstep. by destruct old. }
  assert (HrunNl : includes runLine nl = false).
  { unfold runLine. rewrite includes_indent_nl by done.
    change ("run: " +:+ old) with (String "r" (String "u" (String "n"
      (String ":" (String " " old))))).
    cbn [includes]. rewrite Hnl. by destruct old. }
  assert (Htext : workflow [] "" runLine after
                  = stepName +:+ nl +:+ join nl (runLine :: after)).
  { unfold workflow. simpl app. by rewrite join_cons. }
  unfold updateDeployYml_content. rewrite Htext.
  rewrite installPattern_exec_none.
  - rewrite split_first_line by done.
    assert (Hsplit : split LF (join nl (runLine :: after))
                     = runLine :: match after with
                                  | [] => []
                                  | _ => split LF (join nl after)
                                  end).
    { destruct after as [|l after]; [by apply split_one_line |].
      rewrite join_cons by done. by rewrite split_first_line. }
    rewrite Hsplit. cbn [fallbackLoop].
    replace (includes stepName "Install dependencies") with true
      by (by vm_compute).
    replace (includes runLine "run:") with true.
    2:{ symmetry. unfold runLine. apply includes_app_r.
        by apply includes_startsWith. }
    cbn [andb]. unfold runLine at 1.
    rewrite replaceRunPattern_indent by done.
    unfold workflow. simpl app.
    rewrite !join_cons by done. do 2 f_equal.
    destruct after as [|l after]; [done |].
    rewrite !join_cons by apply split_not_nil.
    by rewrite join_split.
  - intros p v Hv Hp.
    destruct (sapp_suffix _ _ _ _ Hv) as [[p' Hp'] | (v1 & Hv1 & -> & Hs)].
    + destruct (sapp_suffix nl _ p' v Hp') as [[p'' Hp''] | (v2 & Hv2 & -> & Hn)].
      * apply (join_clean (runLine :: after) p'' v); [by constructor | done].
      * destruct p' as [|e p']; simpl in Hn.
        -- by subst v2.
        -- injection Hn as _ Hn. by destruct p', v2.
    + change (nl +:+ join nl (runLine :: after))
        with (String LF (join nl (runLine :: after))).
      rewrite startsWith_over_nl by done.
      destruct (startsWith v1 stepName) eqn:Hsw; [| done].
      apply startsWith_length in Hsw.
      assert (Hlen := f_equal String.length Hs).
      rewrite length_sapp in Hlen.
      assert (String.length p ≠ 0%nat) by (by destruct p). lia.
Qed.

(** The step on the first line of a document: the pattern, which asks for
    white space before the name, has no match, and the loop over the lines
    rewrites the run line. *)
Example updateDeployYml_first_line :
  updateDeployYml_content yarn
    ("- name: Install dependencies" +:+ nl +:+ "  run: npm ci" +:+ nl
     +:+ "- name: Build" +:+ nl +:+ "  run: npm run build")
  = "- name: Install dependencies" +:+ nl
    +:+ "  run: yarn install --frozen-lockfile" +:+ nl
    +:+ "- name: Build" +:+ nl +:+ "  run: npm run build".
Proof. reflexivity. Qed.

(** ** The main flow *)

Lemma bind_run {A B : Type} (m : M A) (k : A → M B) (w : world) :
  (m ≫= k) w
  = match m w with
    | (Return a, w') => k a w'
    | (Throw e, w') => (Throw e, w')
    | (Exit c, w') => (Exit c, w')
    | (Waiting, w') => (Waiting, w')
    | (Unfinished, w') => (Unfinished, w')
    end.
Proof. done. Qed.

Lemma extends_refl (w : world) : extends w w [].
Proof. unfold extends. by rewrite app_nil_r. Qed.

Lemma extends_trans (w1 w2 w3 : world) (evs1 evs2 : list event) :
  extends w1 w2 evs1 → extends w2 w3 evs2 → extends w1 w3 (evs1 ++ evs2).
Proof.
  intros (? & ? & ? & ? & Ht1) (? & ? & ? & ? & Ht2). unfold extends.
  rewrite Ht2, Ht1, app_assoc. split_and!; congruence.
Qed.

Lemma extends_record (w : world) (e : event) : extends w (record e w) [e].
Proof. done. Qed.

(** Every event of a list that is written out is quiet. *)
Ltac quiet_events :=
  repeat first [apply Forall_nil_2 | apply Forall_cons_2; [simpl; auto |]].

(** Reading the manifest always returns, and touches no file. *)
Lemma getCurrentPackageJsonValues_quiet (w : world) :
  ∃ pkg w' evs,
    getCurrentPackageJsonValues w = (Return pkg, w')
    ∧ extends w w' evs ∧ Forall quiet evs ∧ input w' = input w.
Proof.
  unfold getCurrentPackageJsonValues, try_catch.
  rewrite bind_run. unfold execSync at 1. simpl.
  destruct (shell w "npm pkg get name") as [n|] eqn:Hn.
  - rewrite bind_run. unfold execSync at 1. simpl.
    destruct (shell w "npm pkg get description") as [d|] eqn:Hd.
    + eexists _, _, [_; _]. split; [reflexivity |].
      split_and!;
        [unfold extends; simpl; by rewrite <- app_assoc | quiet_events | done].
    + eexists _, _, [_; _; _]. split; [reflexivity |].
      split_and!;
        [unfold extends; simpl; by rewrite <- !app_assoc | quiet_events | done].
  - eexists _, _, [_; _]. split; [reflexivity |].
    split_and!;
      [unfold extends; simpl; by rewrite <- app_assoc | quiet_events | done].
Qed.

Lemma promptUser_answer (query : string) (w : world) (line : string)
    (rest : list string) :
  input w = line :: rest →
  ∃ w', promptUser query w = (Return line, w')
        ∧ extends w w' [EvQuestion query] ∧ input w' = rest.
Proof.
  intros Hin. unfold promptUser. simpl. rewrite Hin.
  eexists. split; [reflexivity |]. split; [done |]. simpl. by rewrite Hin.
Qed.

Lemma console_log_run (text : string) (w : world) :
  console_log text w = (Return (), record (EvLog text) w).
Proof. done. Qed.

(** The three questions, answered, return options with the same
    interactive flag and touch no file. *)
Lemma promptForUserInput_quiet (options : BootstrapOptions) (w : world)
    (a1 a2 a3 : string) (rest : list string) :
  input w = a1 :: a2 :: a3 :: rest →
  ∃ options' w' evs,
    promptForUserInput options w = (Return options', w')
    ∧ interactive options' = interactive options
    ∧ extends w w' evs ∧ Forall quiet evs ∧ input w' = rest.
Proof.
  intros Hin. unfold promptForUserInput.
  rewrite bind_run, console_log_run.
  set (w1 := record _ w).
  destruct (promptUser_answer
              ("Project name [" +:+ name options +:+ "]: ") w1 a1
              (a2 :: a3 :: rest) Hin) as (w2 & Hrun2 & Hext2 & Hin2).
  rewrite bind_run, Hrun2.
  set (options1 := if truthy (trim a1) then _ else options).
  destruct (promptUser_answer
              ("Project description [" +:+ description options1 +:+ "]: ")
              w2 a2 (a3 :: rest) Hin2) as (w3 & Hrun3 & Hext3 & Hin3).
  rewrite bind_run, Hrun3.
  set (options2 := if truthy (trim a2) then _ else options1).
  rewrite bind_run, console_log_run.
  set (w4 := record _ w3).
  destruct (promptUser_answer
              ("Package manager [" +:+ pm_text (packageManager options2)
               +:+ "]: ") w4 a3 rest Hin3) as (w5 & Hrun5 & Hext5 & Hin5).
  rewrite bind_run, Hrun5.
  assert (Hint : interactive options2 = interactive options).
  { unfold options2, options1. by destruct (truthy (trim a2)), (truthy (trim a1)). }
  assert (Hext : extends w w5
            ([EvLog (nl +:+ "📦 Bootstrap Configuration" +:+ nl)]
             ++ [EvQuestion ("Project name [" +:+ name options +:+ "]: ")]
             ++ [EvQuestion
                   ("Project description [" +:+ description options1 +:+ "]: ")]
             ++ [EvLog (nl +:+ "Package manager options: "
                        +:+ join ", " (pm_text <$> PACKAGE_MANAGERS))]
             ++ [EvQuestion
                   ("Package manager [" +:+ pm_text (packageManager options2)
                    +:+ "]: ")])).
  { eapply extends_trans; [apply extends_record |].
    eapply extends_trans; [apply Hext2 |].
    eapply extends_trans; [apply Hext3 |].
    eapply extends_trans; [apply extends_record |]. apply Hext5. }
  destruct (truthy (trim a3)); [destruct (as_PackageManager (trim a3)) |].
  - eexists _, _, _. split; [reflexivity |].
    split_and!; [done | apply Hext | quiet_events | done].
  - rewrite bind_run. unfold console_warn, emit.
    eexists _, _, _. split; [reflexivity |].
    split_and!; [done | | | done].
    + eapply extends_trans; [apply Hext | apply extends_record].
    + quiet_events.
  - eexists _, _, _. split; [reflexivity |].
    split_and!; [done | apply Hext | quiet_events | done].
Qed.

Lemma extends_then_record (w w1 : world) (evs : list event) (e : event) :
  extends w w1 evs → extends w (record e w1) (evs ++ [e]).
Proof. intros H. eapply extends_trans; [apply H | apply extends_record]. Qed.

Lemma mergeOptions_interactive (cliArgs : PartialOptions)
    (pkg : string * string) :
  interactive (mergeOptions cliArgs pkg)
  = default true (cli_interactive cliArgs).
Proof. unfold mergeOptions. simpl. by destruct (cli_interactive cliArgs). Qed.

(** Resolving the options: the questions are asked when no flag says to
    skip them and the merged flag is true; no file is touched. *)
Lemma collectOptions_quiet (cliArgs : PartialOptions) (w : world)
    (prompts rest : list string) :
  input w = prompts ++ rest →
  length prompts
  = (if negb (shouldSkipInteractive cliArgs (process_argv w))
        && default true (cli_interactive cliArgs)
     then 3 else 0)%nat →
  ∃ options w' evs,
    collectOptions cliArgs w = (Return options, w')
    ∧ interactive options = default true (cli_interactive cliArgs)
    ∧ extends w w' evs ∧ Forall quiet evs ∧ input w' = rest.
Proof.
  intros Hin Hlen. unfold collectOptions.
  destruct (getCurrentPackageJsonValues_quiet w)
    as (pkg & w1 & evs1 & Hrun1 & Hext1 & Hq1 & Hin1).
  rewrite bind_run, Hrun1. rewrite bind_run. unfold argv at 1.
  pose proof Hext1 as (Hargv & _).
  rewrite Hargv, mergeOptions_interactive.
  destruct (negb (shouldSkipInteractive cliArgs (process_argv w))
            && default true (cli_interactive cliArgs)) eqn:Hask.
  - destruct prompts as [|a1 [|a2 [|a3 [|? ?]]]]; try done.
    assert (Hin1' : input w1 = a1 :: a2 :: a3 :: rest) by (by rewrite Hin1, Hin).
    destruct (promptForUserInput_quiet (mergeOptions cliArgs pkg) w1
                a1 a2 a3 rest Hin1')
      as (options' & w2 & evs2 & Hrun2 & Hint & Hext2 & Hq2 & Hin2).
    exists options', w2, (evs1 ++ evs2).
    split_and!;
      [done | by rewrite Hint, mergeOptions_interactive
       | by eapply extends_trans | by apply Forall_app | done].
  - destruct prompts; [| done]. exists (mergeOptions cliArgs pkg), w1, evs1.
    split_and!;
      [done | apply mergeOptions_interactive | done | done
       | by rewrite Hin1, Hin].
Qed.

(** The summary is fourteen lines on the console and nothing else. *)
Lemma showSummary_quiet (options : BootstrapOptions) (pkg : string * string)
    (w : world) :
  ∃ w' evs,
    showSummary options pkg w = (Return (), w')
    ∧ extends w w' evs ∧ Forall quiet evs ∧ input w' = input w.
Proof.
  unfold showSummary. repeat (rewrite bind_run, console_log_run).
  rewrite console_log_run.
  eexists _, _. split; [reflexivity |]. split_and!.
  - repeat (apply extends_then_record). apply extends_refl.
  - simpl. quiet_events.
  - done.
Qed.

(** The run of a process whose confirmation is declined: it ends with
    code 0 after the question, the line Cancelled and the release of the
    prompter; until the question it touches no file. *)
Lemma run_declined (w : world) (cliArgs : PartialOptions)
    (prompts : list string) (answer : string) (rest : list string) :
  parseArgs (process_argv w) = Parsed cliArgs →
  cli_interactive cliArgs ≠ Some false →
  input w = prompts ++ answer :: rest →
  length prompts
  = (if shouldSkipInteractive cliArgs (process_argv w) then 0 else 3)%nat →
  confirms answer = false →
  ∃ w' evs,
    run w = (Exited 0, w')
    ∧ extends w w'
        (evs ++ [EvQuestion confirmQuery; EvLog cancelled; EvClose])
    ∧ Forall quiet evs ∧ input w' = rest.
Proof.
  intros Hparse Hint Hin Hlen Hno.
  assert (Hdef : default true (cli_interactive cliArgs) = true).
  { destruct (cli_interactive cliArgs) as [[]|]; done. }
  unfold run, main. rewrite bind_run. unfold argv at 1. rewrite Hparse.
  unfold try_finally, try_catch.
  destruct (getCurrentPackageJsonValues_quiet w)
    as (pkg & w1 & evs1 & Hrun1 & Hext1 & Hq1 & Hin1).
  rewrite bind_run, Hrun1.
  destruct (collectOptions_quiet cliArgs w1 prompts (answer :: rest))
    as (options & w2 & evs2 & Hrun2 & Hint2 & Hext2 & Hq2 & Hin2).
  { by rewrite Hin1. }
  { destruct Hext1 as (-> & _). rewrite Hdef, andb_true_r, Hlen.
    by destruct (shouldSkipInteractive _ _). }
  rewrite bind_run, Hrun2. rewrite Hint2, Hdef in *.
  rewrite bind_run, bind_run.
  destruct (showSummary_quiet options pkg w2)
    as (w3 & evs3 & Hrun3 & Hext3 & Hq3 & Hin3).
  rewrite Hrun3. unfold confirmChanges. rewrite bind_run.
  destruct (promptUser_answer confirmQuery w3 answer rest)
    as (w4 & Hrun4 & Hext4 & Hin4).
  { by rewrite Hin3. }
  rewrite Hrun4. unfold mret at 1, M_ret at 1. rewrite Hno.
  cbn [negb]. rewrite console_log_run.
  rewrite bind_run. unfold emit at 1. unfold mret, M_ret.
  eexists _, (evs1 ++ evs2 ++ evs3). split; [reflexivity |]. split_and!.
  - rewrite <- !app_assoc.
    eapply extends_trans; [apply Hext1 |].
    eapply extends_trans; [apply Hext2 |].
    eapply extends_trans; [apply Hext3 |].
    apply (extends_trans w3 w4 _ [EvQuestion confirmQuery]
             [EvLog cancelled; EvClose] Hext4).
    apply (extends_trans w4 (record (EvLog cancelled) w4) _
             [EvLog cancelled] [EvClose]); apply extends_record.
  - by repeat apply Forall_app_2.
  - done.
Qed.

(** The same run when the answer to the confirmation accepts: the changes
    are applied to the options that were collected. *)
Lemma run_accepted (w : world) (cliArgs : PartialOptions)
    (prompts : list string) (answer : string) (rest : list string) :
  parseArgs (process_argv w) = Parsed cliArgs →
  cli_interactive cliArgs ≠ Some false →
  input w = prompts ++ answer :: rest →
  length prompts
  = (if shouldSkipInteractive cliArgs (process_argv w) then 0 else 3)%nat →
  confirms answer = true →
  ∃ options w0 evs,
    run w = finish (applyBootstrapChanges options w0)
    ∧ interactive options = true
    ∧ extends w w0 (evs ++ [EvQuestion confirmQuery])
    ∧ Forall quiet evs ∧ input w0 = rest.
Proof.
  intros Hparse Hint Hin Hlen Hyes.
  assert (Hdef : default true (cli_interactive cliArgs) = true).
  { destruct (cli_interactive cliArgs) as [[]|]; done. }
  unfold run, main. rewrite bind_run. unfold argv at 1. rewrite Hparse.
  unfold try_finally, try_catch.
  destruct (getCurrentPackageJsonValues_quiet w)
    as (pkg & w1 & evs1 & Hrun1 & Hext1 & Hq1 & Hin1).
  rewrite bind_run, Hrun1.
  destruct (collectOptions_quiet cliArgs w1 prompts (answer :: rest))
    as (options & w2 & evs2 & Hrun2 & Hint2 & Hext2 & Hq2 & Hin2).
  { by rewrite Hin1. }
  { destruct Hext1 as (-> & _). rewrite Hdef, andb_true_r, Hlen.
    by destruct (shouldSkipInteractive _ _). }
  rewrite bind_run, Hrun2. rewrite Hdef in Hint2. rewrite Hint2.
  rewrite bind_run, bind_run.
  destruct (showSummary_quiet options pkg w2)
    as (w3 & evs3 & Hrun3 & Hext3 & Hq3 & Hin3).
  rewrite Hrun3. unfold confirmChanges. rewrite bind_run.
  destruct (promptUser_answer confirmQuery w3 answer rest)
    as (w4 & Hrun4 & Hext4 & Hin4).
  { by rewrite Hin3. }
  rewrite Hrun4. unfold mret at 1, M_ret at 1. rewrite Hyes.
  cbn [negb].
  exists options, w4, (evs1 ++ evs2 ++ evs3). split_and!.
  - unfold finish.
    by destruct (applyBootstrapChanges options w4) as [[[]| | | |] w'].
  - done.
  - rewrite <- !app_assoc.
    eapply extends_trans; [apply Hext1 |].
    eapply extends_trans; [apply Hext2 |].
    eapply extends_trans; [apply Hext3 |]. apply Hext4.
  - by repeat apply Forall_app_2.
  - done.
Qed.

(** ** The confirmation *)

Lemma isWhiteSpace_lowerUnit (c : ascii) :
  isWhiteSpace (lowerUnit c) = isWhiteSpace c.
Proof. by destruct c as [[] [] [] [] [] [] [] []]. Qed.

Lemma trimStart_toLowerCase (s : string) :
  trimStart (toLowerCase s) = toLowerCase (trimStart s).
Proof.
  induction s as [|c s IH]; [done |]. simpl.
  rewrite isWhiteSpace_lowerUnit. by destruct (isWhiteSpace c).
Qed.

Lemma trimEnd_toLowerCase (s : string) :
  trimEnd (toLowerCase s) = toLowerCase (trimEnd s).
Proof.
  induction s as [|c s IH]; [done |]. simpl.
  rewrite IH, isWhiteSpace_lowerUnit.
  destruct (trimEnd s); simpl; [by destruct (isWhiteSpace c) | done].
Qed.

(** Trimming and lowering can be done in either order. *)
Lemma trim_toLowerCase (s : string) :
  trim (toLowerCase s) = toLowerCase (trim s).
Proof. unfold trim. by rewrite trimStart_toLowerCase, trimEnd_toLowerCase. Qed.

Lemma confirms_false (answer : string) :
  confirms answer = false
  ↔ toLowerCase (trim answer) = "n" ∨ toLowerCase (trim answer) = "no".
Proof.
  unfold confirms. rewrite trim_toLowerCase.
  set (normalized := toLowerCase (trim answer)).
  destruct (String.eqb_spec normalized "n") as [Hn | Hn]; simpl;
    [by split; auto |].
  destruct (String.eqb_spec normalized "no") as [Hno | Hno]; simpl;
    [by split; auto |].
  split; [done | by intros [? | ?]].
Qed.

Lemma confirms_true (answer : string) :
  confirms answer = true
  ↔ toLowerCase (trim answer) ≠ "n" ∧ toLowerCase (trim answer) ≠ "no".
Proof.
  destruct (confirms answer) eqn:Hc.
  - split; [intros _ | done]. split; intros H.
    + assert (confirms answer = false) by (apply confirms_false; auto).
      congruence.
    + assert (confirms answer = false) by (apply confirms_false; auto).
      congruence.
  - apply confirms_false in Hc. split; [done |]. by intros [? ?]; destruct Hc.
Qed.

(** C5. [confirmChanges] asks its question and returns false for the
    answers whose trimmed and lowered form is n or no, and true for every
    other answer, the empty one too.  In a run that is interactive (no
    flag sets interactive to false), when the answer declines, the process
    ends with code 0: what it did is quiet events (it touched no file and
    ran no command that writes), then the question, the line Cancelled and
    the release of the prompter; the files are as they were.  When the
    answer accepts, the run goes on with [applyBootstrapChanges] right
    after the question and ends as that call ends. *)
Theorem confirmation_declined :
  (∀ answer,
     confirms answer = false
     ↔ toLowerCase (trim answer) = "n" ∨ toLowerCase (trim answer) = "no")
  ∧ confirms "" = true
  ∧ (∀ (w : world) (answer : string) (rest : list string),
       input w = answer :: rest →
       ∃ accepted,
         confirmChanges w
         = (Return accepted, consume (record (EvQuestion confirmQuery) w))
         ∧ (accepted = false
            ↔ toLowerCase (trim answer) = "n"
              ∨ toLowerCase (trim answer) = "no")
         ∧ (accepted = true
            ↔ toLowerCase (trim answer) ≠ "n"
              ∧ toLowerCase (trim answer) ≠ "no"))
  ∧ (∀ (w : world) (cliArgs : PartialOptions) (prompts : list string)
       (answer : string) (rest : list string),
       parseArgs (process_argv w) = Parsed cliArgs →
       cli_interactive cliArgs ≠ Some false →
       input w = prompts ++ answer :: rest →
       length prompts
       = (if shouldSkipInteractive cliArgs (process_argv w)
          then 0 else 3)%nat →
       toLowerCase (trim answer) = "n" ∨ toLowerCase (trim answer) = "no" →
       ∃ w' evs,
         run w = (Exited 0, w')
         ∧ files w' = files w
         ∧ trace w'
           = trace w ++ evs
             ++ [EvQuestion confirmQuery; EvLog cancelled; EvClose]
         ∧ Forall quiet evs)
  ∧ (∀ (w : world) (cliArgs : PartialOptions) (prompts : list string)
       (answer : string) (rest : list string),
       parseArgs (process_argv w) = Parsed cliArgs →
       cli_interactive cliArgs ≠ Some false →
       input w = prompts ++ answer :: rest →
       length prompts
       = (if shouldSkipInteractive cliArgs (process_argv w)
          then 0 else 3)%nat →
       toLowerCase (trim answer) ≠ "n" → toLowerCase (trim answer) ≠ "no" →
       ∃ options w0 evs,
         run w = finish (applyBootstrapChanges options w0)
         ∧ interactive options = true
         ∧ files w0 = files w
         ∧ trace w0 = trace w ++ evs ++ [EvQuestion confirmQuery]
         ∧ Forall quiet evs ∧ input w0 = rest).
Proof.
  split_and!; [apply confirms_false | done | | |].
  - intros w answer rest Hin. exists (confirms answer). split_and!.
    + unfold confirmChanges. rewrite bind_run. unfold promptUser.
      cbn [input record]. by rewrite Hin.
    + apply confirms_false.
    + apply confirms_true.
  - intros w cliArgs prompts answer rest Hparse Hint Hin Hlen Hno.
    apply confirms_false in Hno.
    destruct (run_declined w cliArgs prompts answer rest Hparse Hint Hin Hlen
                Hno)
      as (w' & evs & Hrun & (_ & _ & Hfiles & _ & Htrace) & Hq & _).
    by exists w', evs.
  - intros w cliArgs prompts answer rest Hparse Hint Hin Hlen Hn Hno.
    assert (Hyes : confirms answer = true) by (by apply confirms_true).
    destruct (run_accepted w cliArgs prompts answer rest Hparse Hint Hin Hlen
                Hyes)
      as (options & w0 & evs & Hrun & Hi & (_ & _ & Hfiles & _ & Htrace) & Hq
          & Hrest).
    exists options, w0, evs. by split_and!.
Qed.

Lemma confirmation_declined_witness :
  let w := sample_world [] ["app"; ""; "pnpm"; " No "; "later"] in
  let w2 := sample_world [] ["app"; ""; "pnpm"; ""; "later"] in
  parseArgs (process_argv w) = Parsed no_options
  ∧ toLowerCase (trim " No ") = "no"
  ∧ (∃ w' evs,
       run w = (Exited 0, w')
       ∧ files w' = files w
       ∧ trace w'
         = trace w ++ evs
           ++ [EvQuestion confirmQuery; EvLog cancelled; EvClose]
       ∧ Forall quiet evs)
  ∧ (∃ options w0 evs,
       run w2 = finish (applyBootstrapChanges options w0)
       ∧ interactive options = true
       ∧ files w0 = files w2
       ∧ trace w0 = trace w2 ++ evs ++ [EvQuestion confirmQuery]
       ∧ Forall quiet evs ∧ input w0 = ["later"])
  ∧ (run w2).1 = Exited 0
  ∧ is_Some (files (run w2).2 !! worktreesPath).
Proof.
  destruct confirmation_declined as (_ & _ & _ & Hdeclined & Haccepted).
  split_and!; [reflexivity | reflexivity | | | |].
  - apply (Hdeclined (sample_world [] ["app"; ""; "pnpm"; " No "; "later"])
             no_options ["app"; ""; "pnpm"] " No " ["later"]).
    + reflexivity.
    + discriminate.
    + reflexivity.
    + reflexivity.
    + right. reflexivity.
  - apply (Haccepted (sample_world [] ["app"; ""; "pnpm"; ""; "later"])
             no_options ["app"; ""; "pnpm"] "" ["later"]).
    + reflexivity.
    + discriminate.
    + reflexivity.
    + reflexivity.
    + discriminate.
    + discriminate.
  - vm_compute. reflexivity.
  - vm_compute. by eexists.
Defined.

(** With the token --interactive=false alone, the parser sets nothing,
    the questions on the options are skipped, and the run still asks for
    the confirmation: an answer that declines ends it with no patcher
    run. *)
Lemma run_interactive_equals_false (w : world) (node script answer : string)
    (rest : list string) :
  process_argv w = [node; script; "--interactive=false"] →
  input w = answer :: rest → confirms answer = false →
  parseArgs (process_argv w) = Parsed no_options
  ∧ shouldSkipInteractive no_options (process_argv w) = true
  ∧ ∃ w' evs,
      run w = (Exited 0, w')
      ∧ files w' = files w
      ∧ trace w'
        = trace w ++ evs ++ [EvQuestion confirmQuery; EvLog cancelled; EvClose]
      ∧ Forall quiet evs.
Proof.
  intros Hargv Hin Hno.
  assert (Hparse : parseArgs (process_argv w) = Parsed no_options)
    by (by rewrite Hargv).
  assert (Hskip : shouldSkipInteractive no_options (process_argv w) = true).
  { unfold shouldSkipInteractive. rewrite Hargv.
    rewrite (bool_decide_eq_true_2 ("--interactive=false" ∈ _)); [| set_solver].
    by rewrite orb_true_r. }
  split_and!; [done | done |].
  destruct (run_declined w no_options [] answer rest)
    as (w' & evs & Hrun & (_ & _ & Hfiles & _ & Htrace) & Hq & _); try done.
  - by rewrite Hskip.
  - by exists w', evs.
Qed.

(** C7 fails on the script. With the token --interactive=false the run
    shows the summary and asks for the confirmation; the answer n ends it
    with code 0 and every file as it was.  With --no-interactive and the
    same input no question is asked and the files are written. *)
Theorem interactive_equals_false_asks :
  let asked := run (sample_world ["--interactive=false"] ["n"]) in
  let unattended := run (sample_world ["--no-interactive"] ["n"]) in
  asked.1 = Exited 0
  ∧ EvQuestion confirmQuery ∈ trace asked.2
  ∧ EvLog cancelled ∈ trace asked.2
  ∧ files asked.2 = sample_files
  ∧ Forall (fun e => ∀ path content, e ≠ EvWrite path content) (trace asked.2)
  ∧ unattended.1 = Exited 0
  ∧ Forall (fun e => ∀ query, e ≠ EvQuestion query) (trace unattended.2)
  ∧ files unattended.2 !! envPath
    = Some ("VITE_TITLE=vite-react-ts-template" +:+ nl
            +:+ "VITE_DESCRIPTION=A starter template." +:+ nl)
  ∧ is_Some (files unattended.2 !! worktreesPath).
Proof.
  split_and!.
  - vm_compute. reflexivity.
  - vm_compute. do 18 apply list_elem_of_further. apply list_elem_of_here.
  - vm_compute. do 19 apply list_elem_of_further. apply list_elem_of_here.
  - vm_compute. reflexivity.
  - vm_compute. repeat (constructor; [done |]). constructor.
  - vm_compute. reflexivity.
  - vm_compute. repeat (constructor; [done |]). constructor.
  - vm_compute. reflexivity.
  - vm_compute. by eexists.
Qed.

(** ** More on the argument parser *)

Lemma at_index_shift (pre rest : list string) (n : nat) :
  at_index (pre ++ rest) (Z.of_nat (length pre) + Z.of_nat n)
  = at_index rest (Z.of_nat n).
Proof.
  rewrite <- Nat2Z.inj_add, !at_index_of_nat.
  by rewrite lookup_app_r, Nat.add_comm, Nat.add_sub by lia.
Qed.

Lemma collectLoop_shift (rest : list string) (d : Z) :
  ∀ (i : Z) (acc : list string),
    collectLoop rest (d + i) acc
    = ((collectLoop rest i acc).1, d + (collectLoop rest i acc).2).
Proof.
  induction rest as [|a rest IH]; intros i acc; simpl; [done |].
  destruct (startsWith a "--"); [done |].
  rewrite <- IH. f_equal. lia.
Qed.

Lemma collectFlagValue_shift (pre rest : list string) (n : nat) :
  collectFlagValue (pre ++ rest) (Z.of_nat (length pre) + Z.of_nat n)
  = {| value := value (collectFlagValue rest (Z.of_nat n));
       nextIndex :=
         Z.of_nat (length pre) + nextIndex (collectFlagValue rest (Z.of_nat n)) |}.
Proof.
  unfold collectFlagValue.
  rewrite <- Nat2Z.inj_add, !Nat2Z.id, drop_app_add', Nat2Z.inj_add by done.
  rewrite collectLoop_shift.
  destruct (collectLoop (drop n rest) (Z.of_nat n) []) as [parts i]. simpl.
  f_equal. lia.
Qed.

(** A step of the loop looks at the tokens from its index on only. *)
Lemma parseStep_shift (pre rest : list string) (n : nat) (arg : string)
    (o : PartialOptions) :
  parseStep (pre ++ rest) (Z.of_nat (length pre) + Z.of_nat n) arg o
  = match parseStep rest (Z.of_nat n) arg o with
    | Parsed (i', o') => Parsed (Z.of_nat (length pre) + i', o')
    | ProcessExit code stderr => ProcessExit code stderr
    | OutOfFuel => OutOfFuel
    end.
Proof.
  unfold parseStep.
  replace (Z.of_nat (length pre) + Z.of_nat n + 1)
    with (Z.of_nat (length pre) + Z.of_nat (S n)) by lia.
  replace (Z.of_nat n + 1) with (Z.of_nat (S n)) by lia.
  rewrite collectFlagValue_shift, at_index_shift. simpl.
  destruct (String.eqb arg "--name"); [done |].
  destruct (String.eqb arg "--description"); [done |].
  destruct (String.eqb arg "--packageManager"
            && truthy (default "" (at_index rest (Z.of_nat (S n))))).
  { by destruct (validatePackageManager _). }
  destruct (String.eqb arg "--interactive").
  { by destruct (_ || _). }
  by destruct (String.eqb arg "--no-interactive").
Qed.

Lemma parseLoop_shift (pre rest : list string) (fuel : nat) :
  ∀ (n : nat) (o : PartialOptions),
    parseLoop fuel (pre ++ rest) (Z.of_nat (length pre) + Z.of_nat n) o
    = parseLoop fuel rest (Z.of_nat n) o.
Proof.
  induction fuel as [|fuel IH]; intros n o; [done |].
  cbn [parseLoop]. rewrite at_index_shift, at_index_of_nat.
  destruct (rest !! n) as [arg|] eqn:Harg; [| done].
  rewrite parseStep_shift.
  destruct (parseStep_cases rest n arg o Harg)
    as [(bad & _ & _ & _ & _ & Hs) | (n' & o' & Hs & _)]; rewrite Hs; [done |].
  replace (Z.of_nat (length pre) + Z.of_nat n' + 1)
    with (Z.of_nat (length pre) + Z.of_nat (S n')) by lia.
  replace (Z.of_nat n' + 1) with (Z.of_nat (S n')) by lia.
  apply IH.
Qed.

(** When the step at index 0 ends on the last token of [arg :: pre], the
    loop goes on as the loop over the tokens after them. *)
Lemma parseFrom_step (pre rest : list string) (arg : string)
    (o o' : PartialOptions) :
  parseStep (arg :: pre ++ rest) 0 arg o = Parsed (Z.of_nat (length pre), o') →
  parseFrom o (arg :: pre ++ rest) = parseFrom o' rest.
Proof.
  intros Hs. unfold parseFrom.
  set (result := parseLoop (S (length rest)) rest 0 o').
  cbn [parseLoop]. change (at_index (arg :: pre ++ rest) 0) with (Some arg).
  cbv beta iota. rewrite Hs.
  replace (Z.of_nat (length pre) + 1)
    with (Z.of_nat (length (arg :: pre)) + Z.of_nat 0) by (simpl; lia).
  rewrite (parseLoop_shift (arg :: pre) rest).
  apply (parseLoop_fuel (S (length rest)) rest 0 o'); simpl;
    rewrite ?length_app; lia.
Qed.

Lemma collectLoop_words (words rest : list string) :
  Forall (fun a => startsWith a "--" = false) words →
  (∀ a, head rest = Some a → startsWith a "--" = true) →
  ∀ (i : Z) (acc : list string),
    collectLoop (words ++ rest) i acc
    = (acc ++ words, i + Z.of_nat (length words)).
Proof.
  intros Hwords Hrest. induction Hwords as [|a words Ha _ IH]; intros i acc.
  - rewrite app_nil_r, Z.add_0_r. destruct rest as [|a rest]; [done |].
    simpl. by rewrite (Hrest a).
  - simpl. rewrite Ha, IH, <- app_assoc. f_equal. lia.
Qed.

Lemma collectFlagValue_words (flag : string) (words rest : list string) :
  Forall (fun a => startsWith a "--" = false) words →
  (∀ a, head rest = Some a → startsWith a "--" = true) →
  collectFlagValue (flag :: words ++ rest) (0 + 1)
  = {| value := join " " words; nextIndex := Z.of_nat (length words) |}.
Proof.
  intros Hwords Hrest. unfold collectFlagValue.
  change (drop (Z.to_nat (0 + 1)) (flag :: words ++ rest)) with (words ++ rest).
  rewrite (collectLoop_words words rest Hwords Hrest). simpl. f_equal. lia.
Qed.

Lemma parseFrom_name (o : PartialOptions) (words rest : list string) :
  Forall (fun a => startsWith a "--" = false) words →
  (∀ a, head rest = Some a → startsWith a "--" = true) →
  parseFrom o ("--name" :: words ++ rest)
  = parseFrom
      (if truthy (join " " words) then set_name o (join " " words) else o)
      rest.
Proof.
  intros Hwords Hrest. apply parseFrom_step. unfold parseStep.
  by rewrite (collectFlagValue_words _ words rest Hwords Hrest).
Qed.

Lemma parseFrom_description (o : PartialOptions) (words rest : list string) :
  Forall (fun a => startsWith a "--" = false) words →
  (∀ a, head rest = Some a → startsWith a "--" = true) →
  parseFrom o ("--description" :: words ++ rest)
  = parseFrom
      (if truthy (join " " words) then set_description o (join " " words)
       else o)
      rest.
Proof.
  intros Hwords Hrest. apply parseFrom_step. unfold parseStep.
  by rewrite (collectFlagValue_words _ words rest Hwords Hrest).
Qed.

Lemma parseFrom_nil (o : PartialOptions) : parseFrom o [] = Parsed o.
Proof. done. Qed.

Lemma parseFrom_unknown (o : PartialOptions) (a : string) (rest : list string) :
  a ∉ FLAGS → parseFrom o (a :: rest) = parseFrom o rest.
Proof.
  intros Ha. apply (parseFrom_step [] rest a). unfold parseStep, FLAGS in *.
  repeat match goal with
         | |- context [String.eqb a ?f] =>
             destruct (String.eqb_spec a f) as [-> | _]; [set_solver |]
         end.
  done.
Qed.

Lemma parseFrom_no_interactive (o : PartialOptions) (rest : list string) :
  parseFrom o ("--no-interactive" :: rest)
  = parseFrom (set_interactive o false) rest.
Proof. by apply (parseFrom_step [] rest). Qed.

Lemma parseFrom_interactive_off (o : PartialOptions) (next : string)
    (rest : list string) :
  next = "false" ∨ next = "0" →
  parseFrom o ("--interactive" :: next :: rest)
  = parseFrom (set_interactive o false) rest.
Proof. intros [-> | ->]; by apply (parseFrom_step [_] rest). Qed.

Lemma parseFrom_interactive_on (o : PartialOptions) (rest : list string) :
  head rest ≠ Some "false" → head rest ≠ Some "0" →
  parseFrom o ("--interactive" :: rest)
  = parseFrom (set_interactive o true) rest.
Proof.
  intros H1 H2. apply (parseFrom_step [] rest). unfold parseStep. simpl.
  assert (at_index ("--interactive" :: rest) (0 + 1) = head rest) as ->
    by by destruct rest.
  by rewrite !bool_decide_eq_false_2.
Qed.

Lemma parseFrom_packageManager (o : PartialOptions) (m : PackageManager)
    (rest : list string) :
  parseFrom o ("--packageManager" :: pm_text m :: rest)
  = parseFrom (set_packageManager o m) rest.
Proof. apply (parseFrom_step [_] rest). by destruct m. Qed.

Lemma parseLoop_exit (fuel : nat) : ∀ (args : list string) (n : nat)
    (o : PartialOptions) (code : Z) (stderr : string),
  parseLoop fuel args (Z.of_nat n) o = ProcessExit code stderr →
  code = 1
  ∧ ∃ j bad,
      args !! j = Some "--packageManager" ∧ args !! S j = Some bad
      ∧ bad ≠ "" ∧ as_PackageManager bad = None
      ∧ stderr = invalidPackageManager bad.
Proof.
  induction fuel as [|fuel IH]; intros args n o code stderr; [done |].
  cbn [parseLoop]. rewrite at_index_of_nat.
  destruct (args !! n) as [arg|] eqn:Harg; [| done].
  destruct (parseStep_cases args n arg o Harg)
    as [(bad & Hbad & Hne & -> & Hnone & Hs) | (n' & o' & Hs & _)]; rewrite Hs.
  - intros [= <- <-]. split; [done |]. by exists n, bad.
  - replace (Z.of_nat n' + 1) with (Z.of_nat (S n')) by lia. apply IH.
Qed.

(** X1. The loop of [parseArgs] comes to an end for every argument list:
    a step that does not leave the process ends on an index that is not
    below the one it started at and is inside the array, although the body
    assigns the loop variable; one test of the loop condition more than
    there are arguments is enough, and more tests change nothing. *)
Theorem parseArgs_terminates (process_argv : list string) :
  (∀ (args : list string) (n : nat) (arg : string) (o o' : PartialOptions)
     (i' : Z),
     args !! n = Some arg →
     parseStep args (Z.of_nat n) arg o = Parsed (i', o') →
     Z.of_nat n ≤ i' < Z.of_nat (length args))
  ∧ parseArgs process_argv ≠ OutOfFuel
  ∧ ∀ fuel, (length (drop 2 process_argv) < fuel)%nat →
      parseLoop fuel (drop 2 process_argv) 0 no_options
      = parseArgs process_argv.
Proof.
  split_and!.
  - intros args n arg o o' i' Harg Hs.
    destruct (parseStep_cases args n arg o Harg)
      as [(bad & _ & _ & _ & _ & Hs') | (n' & o'' & Hs' & Hn' & _)];
      rewrite Hs' in Hs; [done |].
    injection Hs as <- _. lia.
  - unfold parseArgs. apply (parseLoop_fuel _ _ 0%nat). lia.
  - intros fuel Hfuel. unfold parseArgs.
    apply (parseLoop_fuel (S (length (drop 2 process_argv))) _ 0%nat); lia.
Qed.

(** X2. The value of --name and of --description is made of all the tokens
    up to the next one that starts with two dashes, joined by single
    spaces; it is assigned when it is not empty, and the loop goes on with
    the tokens after the value as if it had started there. *)
Theorem parseArgs_value_of_flag (node script : string) (o : PartialOptions)
    (words rest : list string) :
  Forall (fun a => startsWith a "--" = false) words →
  (∀ a, head rest = Some a → startsWith a "--" = true) →
  let v := join " " words in
  parseFrom o ("--name" :: words ++ rest)
  = parseFrom (if truthy v then set_name o v else o) rest
  ∧ parseFrom o ("--description" :: words ++ rest)
    = parseFrom (if truthy v then set_description o v else o) rest
  ∧ parseArgs (node :: script :: "--name" :: words ++ rest)
    = parseFrom (if truthy v then set_name no_options v else no_options) rest
  ∧ parseArgs (node :: script :: "--description" :: words ++ rest)
    = parseFrom
        (if truthy v then set_description no_options v else no_options) rest.
Proof.
  intros Hwords Hrest v. split_and!.
  - by apply parseFrom_name.
  - by apply parseFrom_description.
  - by apply (parseFrom_name no_options).
  - by apply (parseFrom_description no_options).
Qed.

Lemma parseArgs_value_of_flag_witness :
  let words := ["my"; "app"] in
  let rest := ["--no-interactive"] in
  parseArgs ("node" :: "bootstrap.ts" :: "--name" :: words ++ rest)
  = parseFrom (set_name no_options "my app") rest
  ∧ parseFrom (set_name no_options "my app") rest
    = Parsed (set_interactive (set_name no_options "my app") false).
Proof.
  split; [| reflexivity].
  apply (parseArgs_value_of_flag "node" "bootstrap.ts" no_options
           ["my"; "app"] ["--no-interactive"]).
  - repeat constructor.
  - by intros a [= <-].
Defined.

(** X3. How the loop of [parseArgs] treats the other tokens: a token that
    is none of the five flags is skipped; --no-interactive, and
    --interactive before false or 0 (which it takes with it), turn the
    prompts off; --interactive before anything else turns them on and
    leaves the next token to the loop; --packageManager takes one of the
    three names with it.  The loop over no token returns the options. *)
Theorem parseArgs_switches (o : PartialOptions) (rest : list string) :
  parseFrom o [] = Parsed o
  ∧ (∀ a, a ∉ FLAGS → parseFrom o (a :: rest) = parseFrom o rest)
  ∧ parseFrom o ("--no-interactive" :: rest)
    = parseFrom (set_interactive o false) rest
  ∧ parseFrom o ("--interactive" :: "false" :: rest)
    = parseFrom (set_interactive o false) rest
  ∧ parseFrom o ("--interactive" :: "0" :: rest)
    = parseFrom (set_interactive o false) rest
  ∧ (head rest ≠ Some "false" → head rest ≠ Some "0" →
     parseFrom o ("--interactive" :: rest)
     = parseFrom (set_interactive o true) rest)
  ∧ (∀ m, parseFrom o ("--packageManager" :: pm_text m :: rest)
          = parseFrom (set_packageManager o m) rest)
  ∧ ∀ node script args,
      parseArgs (node :: script :: args) = parseFrom no_options args.
Proof.
  split_and!.
  - apply parseFrom_nil.
  - intros a. apply parseFrom_unknown.
  - apply parseFrom_no_interactive.
  - apply parseFrom_interactive_off. by left.
  - apply parseFrom_interactive_off. by right.
  - apply parseFrom_interactive_on.
  - intros m. apply parseFrom_packageManager.
  - done.
Qed.

(** X4. Tokens that are none of the five flags leave the options empty,
    whatever they are and however many: the parser reports no unknown
    argument. *)
Theorem parseArgs_ignores_unknown_tokens (node script : string)
    (args : list string) :
  Forall (fun a => a ∉ FLAGS) args →
  parseArgs (node :: script :: args) = Parsed no_options.
Proof.
  intros Hargs. change (parseFrom no_options args = Parsed no_options).
  induction Hargs as [|a args Ha _ IH]; [done |].
  by rewrite parseFrom_unknown.
Qed.

Lemma parseArgs_ignores_unknown_tokens_witness :
  parseArgs ["node"; "bootstrap.ts"; "--Name"; "demo"; "-h"; "--interactive=false"]
  = Parsed no_options.
Proof.
  apply (parseArgs_ignores_unknown_tokens "node" "bootstrap.ts").
  apply (bool_decide_unpack _). by vm_compute.
Defined.

(** X5. The parser leaves the process in one way only: with code 1, after
    the line on the error stream that names the token after some
    --packageManager, a token that is not empty and is none of the three
    names. *)
Theorem parseArgs_exit_cause (process_argv : list string) (code : Z)
    (stderr : string) :
  parseArgs process_argv = ProcessExit code stderr →
  code = 1
  ∧ ∃ j bad,
      drop 2 process_argv !! j = Some "--packageManager"
      ∧ drop 2 process_argv !! S j = Some bad
      ∧ bad ≠ "" ∧ (bad ∉ ["npm"; "yarn"; "pnpm"])
      ∧ stderr = invalidPackageManager bad.
Proof.
  unfold parseArgs. intros H.
  apply (parseLoop_exit _ _ 0%nat) in H
    as [-> (j & bad & Hj & Hbad & Hne & Hnone & ->)].
  split; [done |]. exists j, bad. split_and!; try done.
  by apply as_PackageManager_None.
Qed.

Lemma parseArgs_exit_cause_witness :
  let process_argv :=
    ["node"; "bootstrap.ts"; "--name"; "demo"; "--packageManager"; "bun"] in
  parseArgs process_argv = ProcessExit 1 (invalidPackageManager "bun")
  ∧ ∃ j bad,
      drop 2 process_argv !! j = Some "--packageManager"
      ∧ drop 2 process_argv !! S j = Some bad
      ∧ bad ≠ "" ∧ (bad ∉ ["npm"; "yarn"; "pnpm"])
      ∧ invalidPackageManager "bun" = invalidPackageManager bad.
Proof.
  split; [reflexivity |].
  apply (parseArgs_exit_cause
           ["node"; "bootstrap.ts"; "--name"; "demo"; "--packageManager";
            "bun"]
           1 (invalidPackageManager "bun")).
  reflexivity.
Defined.

(** X6. [validatePackageManager] returns a package manager exactly for its
    own text, letter for letter, with no trimming and no change of case;
    every other text ends the process with code 1 and the line that lists
    the three names. *)
Theorem validatePackageManager_exact (pm : string) :
  (∀ m, validatePackageManager pm = Parsed m ↔ pm = pm_text m)
  ∧ ((∀ m, pm ≠ pm_text m) →
     validatePackageManager pm
     = ProcessExit 1
         ("Invalid package manager: " +:+ pm
          +:+ ". Must be one of: npm, yarn, pnpm")).
Proof.
  split_and!.
  - intros m. unfold validatePackageManager. split.
    + destruct (as_PackageManager pm) as [m'|] eqn:Hm; [| done].
      intros [= ->]. by apply as_PackageManager_Some.
    + intros ->. by destruct m.
  - intros Hno. apply validatePackageManager_None.
    apply as_PackageManager_None. intros Hin.
    repeat (apply elem_of_cons in Hin as [-> | Hin]);
      [by apply (Hno npm) | by apply (Hno yarn) | by apply (Hno pnpm) |].
    by apply elem_of_nil in Hin.
Qed.

(** ** More on the options *)

Lemma or_else_not_empty (a b : string) : b ≠ "" → or_else a b ≠ "".
Proof. unfold or_else. by destruct a. Qed.

Lemma mergeOptions_not_empty (cliArgs : PartialOptions)
    (pkg : string * string) :
  name (mergeOptions cliArgs pkg) ≠ ""
  ∧ description (mergeOptions cliArgs pkg) ≠ "".
Proof. split; by apply or_else_not_empty. Qed.

Lemma as_PackageManager_empty : as_PackageManager "" = None.
Proof. done. Qed.

(** The three questions of [promptForUserInput], answered. *)
Lemma promptForUserInput_run (options : BootstrapOptions) (w : world)
    (a1 a2 a3 : string) (rest : list string) :
  input w = a1 :: a2 :: a3 :: rest →
  ∃ w',
    promptForUserInput options w = (Return (answered options a1 a2 a3), w')
    ∧ input w' = rest ∧ files w' = files w
    ∧ process_argv w' = process_argv w ∧ shell w' = shell w
    ∧ dirs w' = dirs w
    ∧ trace w'
      = trace w
        ++ [EvLog (nl +:+ "📦 Bootstrap Configuration" +:+ nl);
            EvQuestion ("Project name [" +:+ name options +:+ "]: ");
            EvQuestion
              ("Project description [" +:+ description options +:+ "]: ");
            EvLog (nl +:+ "Package manager options: npm, yarn, pnpm");
            EvQuestion
              ("Package manager [" +:+ pm_text (packageManager options)
               +:+ "]: ")]
        ++ (if truthy (trim a3)
               && bool_decide (as_PackageManager (trim a3) = None)
            then [EvWarn
                    ("Invalid package manager " +:+ quote +:+ trim a3
                     +:+ quote +:+ ", using "
                     +:+ pm_text (packageManager options))]
            else []).
Proof.
  intros Hin. destruct w as [argv0 shell0 files0 dirs0 input0 trace0].
  simpl in Hin. subst input0.
  unfold promptForUserInput, answered.
  rewrite bind_run, console_log_run.
  rewrite bind_run. unfold promptUser at 1. cbn [input record consume tail].
  rewrite bind_run. unfold promptUser at 1. cbn [input record consume tail].
  rewrite bind_run, console_log_run.
  rewrite bind_run. unfold promptUser at 1. cbn [input record consume tail].
  assert (Hname : ∀ o : BootstrapOptions,
    name (if truthy (trim a2) then with_description o (trim a2) else o)
    = name o) by (intros o; by destruct (truthy (trim a2))).
  assert (Hpm : ∀ (t : string) (o : BootstrapOptions) (v : string),
    packageManager (if truthy t then with_name o v else o) = packageManager o)
    by (intros t o v; by destruct (truthy t)).
  assert (Hpm' : ∀ (t : string) (o : BootstrapOptions) (v : string),
    packageManager (if truthy t then with_description o v else o)
    = packageManager o)
    by (intros t o v; by destruct (truthy t)).
  assert (Hdesc : ∀ (t : string) (o : BootstrapOptions) (v : string),
    description (if truthy t then with_name o v else o) = description o)
    by (intros t o v; by destruct (truthy t)).
  rewrite Hpm', Hpm, Hdesc.
  destruct (truthy (trim a3)) eqn:Ht3.
  - destruct (as_PackageManager (trim a3)) as [m|] eqn:Hm.
    + rewrite (bool_decide_eq_false_2 (Some m = None)) by done.
      eexists. split.
      { unfold mret, M_ret. f_equal. f_equal.
        unfold or_else. destruct options.
        by destruct (truthy (trim a1)), (truthy (trim a2)). }
      simpl. by rewrite <- !app_assoc.
    + rewrite bind_run. unfold console_warn, emit. cbn [record].
      rewrite ?Hpm', ?Hpm.
      rewrite (bool_decide_eq_true_2 (None = None)) by done.
      eexists. split.
      { unfold mret, M_ret. f_equal. f_equal.
        unfold or_else. destruct options.
        by destruct (truthy (trim a1)), (truthy (trim a2)). }
      simpl. by rewrite <- !app_assoc.
  - apply truthy_false in Ht3. rewrite Ht3, as_PackageManager_empty.
    eexists. split.
    { unfold mret, M_ret. f_equal. f_equal.
      unfold or_else. destruct options.
        by destruct (truthy (trim a1)), (truthy (trim a2)). }
    simpl. by rewrite <- !app_assoc.
Qed.

(** With fewer than three lines to read, [promptForUserInput] is left
    waiting for an answer. *)
Lemma promptForUserInput_waits (options : BootstrapOptions) (w : world) :
  (length (input w) < 3)%nat →
  (promptForUserInput options w).1 = Waiting
  ∧ files (promptForUserInput options w).2 = files w.
Proof.
  destruct w as [argv0 shell0 files0 dirs0 input0 trace0]. simpl.
  destruct input0 as [|a1 [|a2 [|a3 rest]]]; simpl; [done.. | lia].
Qed.

(** X7. [promptForUserInput] with three answers: each answer is trimmed; a
    name or a description that trims to nothing keeps the value shown in
    the question; a package manager that is none of the three names keeps
    the one shown too, after a warning and without ending the process.
    The interactive flag is never changed, and no file is touched. *)
Theorem promptForUserInput_answers (options : BootstrapOptions) (w : world)
    (a1 a2 a3 : string) (rest : list string) :
  input w = a1 :: a2 :: a3 :: rest →
  ∃ w',
    promptForUserInput options w = (Return (answered options a1 a2 a3), w')
    ∧ input w' = rest ∧ files w' = files w
    ∧ trace w'
      = trace w
        ++ [EvLog (nl +:+ "📦 Bootstrap Configuration" +:+ nl);
            EvQuestion ("Project name [" +:+ name options +:+ "]: ");
            EvQuestion
              ("Project description [" +:+ description options +:+ "]: ");
            EvLog (nl +:+ "Package manager options: npm, yarn, pnpm");
            EvQuestion
              ("Package manager [" +:+ pm_text (packageManager options)
               +:+ "]: ")]
        ++ (if truthy (trim a3)
               && bool_decide (as_PackageManager (trim a3) = None)
            then [EvWarn
                    ("Invalid package manager " +:+ quote +:+ trim a3
                     +:+ quote +:+ ", using "
                     +:+ pm_text (packageManager options))]
            else []).
Proof.
  intros Hin.
  destruct (promptForUserInput_run options w a1 a2 a3 rest Hin)
    as (w' & Hrun & ? & ? & _ & _ & _ & ?).
  by exists w'.
Qed.

Lemma promptForUserInput_answers_witness :
  let options := {| name := "template"; description := "A starter.";
                    packageManager := yarn; interactive := true |} in
  let w := sample_world [] [" demo "; "  "; "bun"; "y"] in
  answered options " demo " "  " "bun"
  = {| name := "demo"; description := "A starter.";
       packageManager := yarn; interactive := true |}
  ∧ ∃ w',
      promptForUserInput options w
      = (Return (answered options " demo " "  " "bun"), w')
      ∧ input w' = ["y"] ∧ files w' = files w
      ∧ trace w'
        = trace w
          ++ [EvLog (nl +:+ "📦 Bootstrap Configuration" +:+ nl);
              EvQuestion "Project name [template]: ";
              EvQuestion "Project description [A starter.]: ";
              EvLog (nl +:+ "Package manager options: npm, yarn, pnpm");
              EvQuestion "Package manager [yarn]: "]
          ++ [EvWarn
                ("Invalid package manager " +:+ quote +:+ "bun" +:+ quote
                 +:+ ", using yarn")].
Proof.
  split; [reflexivity |].
  apply (promptForUserInput_answers
           {| name := "template"; description := "A starter.";
              packageManager := yarn; interactive := true |}
           (sample_world [] [" demo "; "  "; "bun"; "y"])
           " demo " "  " "bun" ["y"]).
  reflexivity.
Defined.

(** X8. [collectOptions] never throws and never ends the process, and it
    touches no file.  When it returns, the name and the description are
    not empty, whatever the arguments, the manifest and the answers were,
    and the interactive flag is the one of the arguments (true without
    one).  It is left waiting only when it has to ask and fewer than three
    lines can be read. *)
Theorem collectOptions_result (cliArgs : PartialOptions) (w : world) :
  match (collectOptions cliArgs w).1 with
  | Return options =>
      name options ≠ "" ∧ description options ≠ ""
      ∧ interactive options = default true (cli_interactive cliArgs)
  | Waiting =>
      (length (input w) < 3)%nat
      ∧ shouldSkipInteractive cliArgs (process_argv w) = false
      ∧ cli_interactive cliArgs ≠ Some false
  | _ => False
  end
  ∧ files (collectOptions cliArgs w).2 = files w.
Proof.
  destruct (getCurrentPackageJsonValues_quiet w)
    as (pkg & w1 & evs & Hpkg & (Hargv & _ & Hfiles & _) & _ & Hin).
  assert (collectOptions cliArgs w
          = (if negb (shouldSkipInteractive cliArgs (process_argv w))
                && interactive (mergeOptions cliArgs pkg)
             then promptForUserInput (mergeOptions cliArgs pkg)
             else mret (mergeOptions cliArgs pkg)) w1) as ->.
  { unfold collectOptions. rewrite bind_run, Hpkg, bind_run. unfold argv.
    by rewrite Hargv. }
  destruct (mergeOptions_not_empty cliArgs pkg) as [Hname Hdesc].
  assert (Hint := mergeOptions_interactive cliArgs pkg).
  destruct (negb (shouldSkipInteractive cliArgs (process_argv w))
            && interactive (mergeOptions cliArgs pkg)) eqn:Hask.
  - apply andb_true_iff in Hask as [Hskip Hi].
    apply negb_true_iff in Hskip.
    destruct (decide (length (input w1) < 3)%nat) as [Hshort | Hlong].
    + destruct (promptForUserInput_waits (mergeOptions cliArgs pkg) w1 Hshort)
        as [-> ->].
      split; [| done]. split_and!; [by rewrite <- Hin | done |].
      intros Hoff. rewrite Hint, Hoff in Hi. done.
    + destruct (input w1) as [|a1 [|a2 [|a3 rest]]] eqn:Hin1;
        [simpl in Hlong; lia.. |].
      destruct (promptForUserInput_run (mergeOptions cliArgs pkg) w1
                  a1 a2 a3 rest Hin1) as (w' & -> & _ & Hfiles' & _).
      simpl. split; [| congruence].
      split_and!; [by apply or_else_not_empty.. | done].
  - simpl. by split.
Qed.

(** ** More on the manifest *)

Lemma trimStart_space_app (a b : string) :
  allUnits isWhiteSpace a = true → trimStart (a +:+ b) = trimStart b.
Proof.
  induction a as [|c a IH]; [done |]. simpl.
  intros [Hc Ha]%andb_true_iff. by rewrite Hc, IH.
Qed.

Lemma trimEnd_all_space (t : string) :
  allUnits isWhiteSpace t = true → trimEnd t = "".
Proof.
  induction t as [|c t IH]; [done |]. simpl.
  intros [Hc Ht]%andb_true_iff. by rewrite IH, Hc.
Qed.

Lemma trimEnd_app_space (a t : string) :
  allUnits isWhiteSpace t = true → trimEnd (a +:+ t) = trimEnd a.
Proof.
  intros Ht. induction a as [|c a IH]; simpl.
  - by apply trimEnd_all_space.
  - by rewrite IH.
Qed.

Lemma trimEnd_snoc_keep (a : string) (c : ascii) :
  isWhiteSpace c = false → trimEnd (a +:+ String c "") = a +:+ String c "".
Proof.
  intros Hc. induction a as [|x a IH]; simpl.
  - by rewrite Hc.
  - rewrite IH. by destruct a.
Qed.

Lemma endsWith_snoc (v : string) (c : ascii) :
  endsWith (v +:+ String c "") (String c "") = true.
Proof.
  induction v as [|x v IH]; simpl.
  - by rewrite Ascii.eqb_refl.
  - rewrite IH. apply orb_true_r.
Qed.

Lemma substring_init (v x : string) :
  String.substring 0 (String.length v) (v +:+ x) = v.
Proof.
  induction v as [|c v IH]; simpl.
  - by destruct x.
  - by rewrite IH.
Qed.

Lemma length_snoc (v : string) (c : ascii) :
  (String.length (v +:+ String c "") - 1)%nat = String.length v.
Proof. rewrite length_sapp. simpl. lia. Qed.

Lemma extractNpmPkgValue_unquote (lead v trail : string) :
  allUnits isWhiteSpace lead = true → allUnits isWhiteSpace trail = true →
  extractNpmPkgValue (lead +:+ quote +:+ v +:+ quote +:+ trail) = v.
Proof.
  intros Hlead Htrail.
  assert (Htrim : trim (lead +:+ quote +:+ v +:+ quote +:+ trail)
                  = quote +:+ v +:+ quote).
  { unfold trim. rewrite (trimStart_space_app lead) by done.
    change (quote +:+ v +:+ quote +:+ trail)
      with (String "034" (v +:+ quote +:+ trail)).
    rewrite trimStart_keep, trimEnd_keep by done.
    rewrite <- sapp_assoc, trimEnd_app_space by done.
    unfold quote. by rewrite trimEnd_snoc_keep. }
  unfold extractNpmPkgValue. rewrite Htrim, stripPrefix_app. cbn [default from_option id].
  unfold quote. rewrite endsWith_snoc, length_snoc.
  apply substring_init.
Qed.

(** X9. [extractNpmPkgValue] gives back what stands between the two double
    quotes of the output of npm, whatever it is (white space, double quotes
    and line feeds inside it too), and whatever white space stands before
    the first quote and after the last. *)
Theorem extractNpmPkgValue_quoted (lead v trail : string) :
  allUnits isWhiteSpace lead = true → allUnits isWhiteSpace trail = true →
  extractNpmPkgValue (lead +:+ quote +:+ v +:+ quote +:+ trail) = v
  ∧ extractNpmPkgValue (quote +:+ v +:+ quote +:+ nl) = v.
Proof.
  intros Hlead Htrail. split.
  - by apply extractNpmPkgValue_unquote.
  - by apply (extractNpmPkgValue_unquote "" v nl).
Qed.

Lemma extractNpmPkgValue_quoted_witness :
  extractNpmPkgValue
    (" " +:+ quote +:+ "my " +:+ quote +:+ "app" +:+ quote +:+ nl)
  = "my " +:+ quote +:+ "app".
Proof.
  apply (extractNpmPkgValue_quoted " " ("my " +:+ quote +:+ "app") nl);
    reflexivity.
Defined.

(** X10. [getCurrentPackageJsonValues] never throws and touches no file.
    It returns what the two commands print, less the quotes, only when
    both succeed; when either fails it logs one error and returns the name
    and the description of the template, both of them, also when the name
    had been read; the second command is not run when the first fails. *)
Theorem getCurrentPackageJsonValues_result (w : world) :
  ∃ w',
    getCurrentPackageJsonValues w
    = (Return
         match shell w "npm pkg get name",
               shell w "npm pkg get description" with
         | Some n, Some d => (extractNpmPkgValue n, extractNpmPkgValue d)
         | _, _ => (name DEFAULTS, description DEFAULTS)
         end,
       w')
    ∧ files w' = files w ∧ input w' = input w
    ∧ match shell w "npm pkg get name",
            shell w "npm pkg get description" with
      | Some _, Some _ =>
          trace w'
          = trace w
            ++ [EvExec "npm pkg get name"; EvExec "npm pkg get description"]
      | Some _, None =>
          ∃ error,
            trace w'
            = trace w
              ++ [EvExec "npm pkg get name"; EvExec "npm pkg get description";
                  EvError ("Error reading package.json: " +:+ error)]
      | None, _ =>
          ∃ error,
            trace w'
            = trace w
              ++ [EvExec "npm pkg get name";
                  EvError ("Error reading package.json: " +:+ error)]
      end.
Proof.
  unfold getCurrentPackageJsonValues, try_catch.
  rewrite bind_run. unfold execSync at 1. simpl.
  destruct (shell w "npm pkg get name") as [n|] eqn:Hn.
  - rewrite bind_run. unfold execSync at 1. simpl.
    destruct (shell w "npm pkg get description") as [d|] eqn:Hd.
    + eexists. split; [reflexivity |]. simpl. by rewrite <- app_assoc.
    + eexists. split; [reflexivity |]. simpl. split_and!; [done.. |].
      eexists. by rewrite <- !app_assoc.
  - eexists. split; [reflexivity |]. simpl. split_and!; [done.. |].
    eexists. by rewrite <- !app_assoc.
Qed.

(** ** Reading the .env file *)

Lemma split_first (sep : ascii) (h r : string) :
  allUnits (fun c => negb (Ascii.eqb c sep)) h = true →
  split sep (h +:+ String sep r) = h :: split sep r.
Proof.
  induction h as [|c h IH]; simpl.
  - by rewrite Ascii.eqb_refl.
  - intros [Hc Hh]%andb_true_iff. apply negb_true_iff in Hc.
    by rewrite Hc, IH.
Qed.

Lemma split_one (sep : ascii) (h : string) :
  allUnits (fun c => negb (Ascii.eqb c sep)) h = true → split sep h = [h].
Proof.
  induction h as [|c h IH]; simpl; [done |].
  intros [Hc Hh]%andb_true_iff. apply negb_true_iff in Hc.
  by rewrite Hc, IH.
Qed.

Lemma join_split_sep (sep : ascii) (s : string) :
  join (String sep "") (split sep s) = s.
Proof.
  induction s as [|c s IH]; [done |]. simpl.
  destruct (Ascii.eqb_spec c sep) as [-> | Hc].
  - rewrite join_cons by apply split_not_nil. by rewrite IH.
  - destruct (split sep s) as [|h t] eqn:Hs;
      [by destruct (split_not_nil sep s) |].
    rewrite <- IH. by destruct t.
Qed.

Lemma trimEnd_idempotent (s : string) : trimEnd (trimEnd s) = trimEnd s.
Proof.
  induction s as [|c s IH]; [done |]. simpl.
  destruct (trimEnd s) as [|x r] eqn:Hs.
  - destruct (isWhiteSpace c) eqn:Hc; [done |]. simpl. by rewrite Hc.
  - cbn [trimEnd] in *. by rewrite IH.
Qed.

Lemma trimStart_trimEnd (s : string) :
  trimStart (trimEnd s) = trimEnd (trimStart s).
Proof.
  induction s as [|c s IH]; [done |].
  cbn [trimStart]. destruct (isWhiteSpace c) eqn:Hc.
  - rewrite <- IH. cbn [trimEnd].
    destruct (trimEnd s) as [|x r]; [by rewrite Hc |].
    cbn [trimStart]. by rewrite Hc.
  - rewrite trimEnd_keep by done. by rewrite trimStart_keep.
Qed.

Lemma trim_trimEnd (s : string) : trim (trimEnd s) = trim s.
Proof.
  unfold trim. by rewrite trimStart_trimEnd, trimEnd_idempotent.
Qed.

Lemma trim_space_app (lead s : string) :
  allUnits isWhiteSpace lead = true → trim (lead +:+ s) = trim s.
Proof. intros H. unfold trim. by rewrite trimStart_space_app. Qed.

Lemma startsWith_unit (c x : ascii) (s : string) :
  startsWith (String c s) (String x "") = Ascii.eqb x c.
Proof. cbn [startsWith]. by rewrite startsWith_nil, andb_true_r. Qed.

Lemma plainKey_inv (key : string) :
  plainKey key = true →
  ∃ c p, key = String c p ∧ c ≠ "#"%char
         ∧ allUnits (fun c => negb (isWhiteSpace c)) key = true
         ∧ allUnits (fun c => negb (Ascii.eqb c "=")) key = true.
Proof.
  unfold plainKey. intros [[Ht Hs]%andb_true_iff Hu]%andb_true_iff.
  destruct key as [|c p]; [done |]. exists c, p. split_and!; [done | | |].
  - intros ->. by rewrite startsWith_unit in Hs.
  - clear Ht Hs. induction (String c p) as [|x s IH]; [done |].
    simpl in *. apply andb_true_iff in Hu as [[-> _]%andb_true_iff Hu].
    by rewrite IH.
  - clear Ht Hs. induction (String c p) as [|x s IH]; [done |].
    simpl in *. apply andb_true_iff in Hu as [[_ ->]%andb_true_iff Hu].
    by rewrite IH.
Qed.

(** What [parseEnvLine] returns depends on the trimmed line only. *)
Lemma parseEnvLine_trim (line line' : string) :
  trim line = trim line' → parseEnvLine line = parseEnvLine line'.
Proof. unfold parseEnvLine. by intros ->. Qed.

(** A line whose trimmed text is a key and an equals sign, and then [r]. *)
Lemma parseEnvLine_trimmed (line key r : string) :
  plainKey key = true → trim line = key +:+ "=" +:+ r →
  parseEnvLine line = Some (key, trim r).
Proof.
  intros (c & p & -> & Hc & Hws & Heq)%plainKey_inv Htrim.
  unfold parseEnvLine. rewrite Htrim.
  assert (startsWith (String c p +:+ "=" +:+ r) "#" = false) as ->.
  { rewrite sapp_cons, startsWith_unit. by apply Ascii.eqb_neq. }
  change (String c p +:+ "=" +:+ r) with (String c p +:+ String "=" r).
  rewrite split_first by done. cbn [truthy negb orb].
  rewrite (join_split_sep "="%char r). f_equal. f_equal.
  rewrite <- (sapp_nil_r (String c p)) at 1.
  by rewrite trim_app_keep, sapp_nil_r.
Qed.

Lemma parseEnvLine_assign (lead key v : string) :
  allUnits isWhiteSpace lead = true → plainKey key = true →
  parseEnvLine (lead +:+ key +:+ "=" +:+ v) = Some (key, trim v).
Proof.
  intros Hlead Hkey. rewrite <- trim_trimEnd.
  apply parseEnvLine_trimmed; [done |].
  rewrite trim_space_app by done.
  destruct (plainKey_inv key Hkey) as (c & p & -> & _ & Hws & _).
  rewrite trim_app_keep by done.
  change ("=" +:+ v) with (String "=" v). by rewrite trimEnd_keep.
Qed.

Lemma parseEnvLine_bare (lead key trail : string) :
  allUnits isWhiteSpace lead = true → allUnits isWhiteSpace trail = true →
  plainKey key = true →
  parseEnvLine (lead +:+ key +:+ trail) = Some (key, "").
Proof.
  intros Hlead Htrail Hkey.
  destruct (plainKey_inv key Hkey) as (c & p & -> & Hc & Hws & Heq).
  assert (Htrim : trim (lead +:+ String c p +:+ trail) = String c p).
  { rewrite trim_space_app, trim_app_keep by done.
    by rewrite trimEnd_all_space, sapp_nil_r. }
  unfold parseEnvLine. rewrite Htrim.
  assert (startsWith (String c p) "#" = false) as ->.
  { rewrite startsWith_unit. by apply Ascii.eqb_neq. }
  rewrite split_one by done. cbn [truthy negb orb join]. f_equal. f_equal.
  rewrite <- (sapp_nil_r (String c p)) at 1.
  by rewrite trim_app_keep, sapp_nil_r.
Qed.

Lemma parseEnvLine_skip (lead t : string) :
  allUnits isWhiteSpace lead = true →
  parseEnvLine lead = None
  ∧ parseEnvLine (lead +:+ "#" +:+ t) = None
  ∧ parseEnvLine (lead +:+ "=" +:+ t) = None.
Proof.
  intros Hlead. unfold parseEnvLine. split_and!.
  - unfold trim. rewrite <- (sapp_nil_r lead), trimStart_space_app by done.
    done.
  - rewrite trim_space_app by done.
    change ("#" +:+ t) with (String "#" "" +:+ t).
    rewrite trim_app_keep by done. by rewrite sapp_cons, startsWith_unit.
  - rewrite trim_space_app by done.
    change ("=" +:+ t) with (String "=" "" +:+ t).
    rewrite trim_app_keep by done. by rewrite sapp_cons, startsWith_unit.
Qed.

(** X11. [parseEnvLine] on the lines of a file.  A key, an equals sign and
    a text give the key and the trimmed text: the line is cut at the first
    equals sign only, so a value keeps its own equals signs, and white
    space around the line is dropped.  A key alone gives the key with the
    empty value.  A line of white space, a line whose first code unit
    after the white space is a number sign, and a line that starts with
    the equals sign give nothing. *)
Theorem parseEnvLine_lines (lead key v trail t : string) :
  allUnits isWhiteSpace lead = true → allUnits isWhiteSpace trail = true →
  plainKey key = true →
  parseEnvLine (lead +:+ key +:+ "=" +:+ v) = Some (key, trim v)
  ∧ parseEnvLine (lead +:+ key +:+ trail) = Some (key, "")
  ∧ parseEnvLine lead = None
  ∧ parseEnvLine (lead +:+ "#" +:+ t) = None
  ∧ parseEnvLine (lead +:+ "=" +:+ t) = None.
Proof.
  intros Hlead Htrail Hkey. split_and!.
  - by apply parseEnvLine_assign.
  - by apply parseEnvLine_bare.
  - by apply (parseEnvLine_skip lead t).
  - by apply (parseEnvLine_skip lead t).
  - by apply (parseEnvLine_skip lead t).
Qed.

Lemma parseEnvLine_lines_witness :
  parseEnvLine "  API_URL= https://example.org/?a=1&b=2 "
  = Some ("API_URL", "https://example.org/?a=1&b=2")
  ∧ parseEnvLine "  API_URL " = Some ("API_URL", "")
  ∧ parseEnvLine "  " = None
  ∧ parseEnvLine "  # API_URL=1" = None
  ∧ parseEnvLine "  =1" = None.
Proof.
  apply (parseEnvLine_lines "  " "API_URL" " https://example.org/?a=1&b=2 "
           " " " API_URL=1"); reflexivity.
Defined.

Lemma assignEnvLine_lookup (env : gmap string string) (line key : string) :
  assignEnvLine env line !! key
  = match valueFor key line with
    | Some v => Some v
    | None => env !! key
    end.
Proof.
  unfold assignEnvLine, valueFor.
  destruct (parseEnvLine line) as [[k v]|]; [| done].
  destruct (String.eqb_spec k key) as [-> | Hk].
  - by rewrite lookup_insert_eq.
  - by rewrite lookup_insert_ne.
Qed.

(** Two files whose lines give the same values to [key], line by line,
    read the same for [key]. *)
Lemma foldl_assign_same (key : string) (ls ls' : list string) :
  Forall2 (fun l l' => valueFor key l = valueFor key l') ls ls' →
  ∀ env env' : gmap string string,
    env !! key = env' !! key →
    foldl assignEnvLine env ls !! key = foldl assignEnvLine env' ls' !! key.
Proof.
  induction 1 as [|l l' ls ls' Hl _ IH]; intros env env' Henv; [done |].
  simpl. apply IH. by rewrite !assignEnvLine_lookup, Hl, Henv.
Qed.

Lemma foldl_assign_skip (key : string) (ls : list string) :
  Forall (fun l => valueFor key l = None) ls →
  ∀ env : gmap string string,
    foldl assignEnvLine env ls !! key = env !! key.
Proof.
  induction 1 as [|l ls Hl _ IH]; intros env; [done |].
  simpl. by rewrite IH, assignEnvLine_lookup, Hl.
Qed.

Lemma foldl_assign_settled (key x : string) (ls : list string) :
  Forall (fun l => valueFor key l = None ∨ valueFor key l = Some x) ls →
  ∀ env : gmap string string,
    env !! key = Some x → foldl assignEnvLine env ls !! key = Some x.
Proof.
  induction 1 as [|l ls Hl _ IH]; intros env Henv; [done |].
  simpl. apply IH. rewrite assignEnvLine_lookup.
  by destruct Hl as [-> | ->].
Qed.

(** The value of [key] is the one of a line after which every line gives
    [key] the same value or none. *)
Lemma foldl_assign_after (key x l : string) (A B : list string)
    (env : gmap string string) :
  valueFor key l = Some x →
  Forall (fun l' => valueFor key l' = None ∨ valueFor key l' = Some x) B →
  foldl assignEnvLine env (A ++ l :: B) !! key = Some x.
Proof.
  intros Hl HB. rewrite foldl_app. simpl.
  apply foldl_assign_settled; [done |].
  by rewrite assignEnvLine_lookup, Hl.
Qed.

Lemma valueFor_blank (key line : string) :
  trim line = "" → valueFor key line = None.
Proof. intros H. unfold valueFor, parseEnvLine. by rewrite H. Qed.

(** A line that assigns [K], as [isEnvVarLine] sees it, gives a value to
    [K] when [readEnvFile] parses it, and to no other key. *)
Lemma valueFor_assigning (K key line : string) :
  plainKey K = true → isEnvVarLine line K = true →
  (∃ v, valueFor K line = Some v) ∧ (key ≠ K → valueFor key line = None).
Proof.
  intros HK [r Hr]%startsWith_inv. rewrite sapp_assoc in Hr.
  unfold valueFor. rewrite (parseEnvLine_trimmed line K r HK Hr). split.
  - exists (trim r). by rewrite String.eqb_refl.
  - intros Hne. by destruct (String.eqb_spec K key) as [<- |].
Qed.

Lemma plainKey_title : plainKey ENV_TITLE = true.
Proof. done. Qed.

Lemma plainKey_description : plainKey ENV_DESCRIPTION = true.
Proof. done. Qed.

Lemma parseEnvLine_envLine (K v : string) :
  plainKey K = true → parseEnvLine (K +:+ "=" +:+ v) = Some (K, trim v).
Proof. intros HK. by apply (parseEnvLine_assign "" K v). Qed.

Lemma valueFor_envLine (K v : string) :
  plainKey K = true → valueFor K (envLine K v) = Some (trim v).
Proof.
  intros HK. unfold valueFor, envLine. rewrite or_else_empty.
  rewrite (parseEnvLine_envLine K v) by done. by rewrite String.eqb_refl.
Qed.

Lemma valueFor_envLine_other (K key v : string) :
  plainKey K = true → key ≠ K → valueFor key (envLine K v) = None.
Proof.
  intros HK Hne. unfold valueFor, envLine. rewrite or_else_empty.
  rewrite (parseEnvLine_envLine K v) by done.
  by destruct (String.eqb_spec K key) as [<- |].
Qed.

Lemma isEnvVarLine_envLine (K v : string) :
  K = ENV_TITLE ∨ K = ENV_DESCRIPTION → isEnvVarLine (envLine K v) K = true.
Proof.
  intros [-> | ->].
  - rewrite isEnvVarLine_envLine_title. apply startsWith_app.
  - rewrite isEnvVarLine_envLine_description. apply startsWith_app.
Qed.

(** A line assigns at most one of the two keys. *)
Lemma isEnvVarLine_other (K K' line : string) :
  K = ENV_TITLE ∨ K = ENV_DESCRIPTION →
  K' = ENV_TITLE ∨ K' = ENV_DESCRIPTION → K ≠ K' →
  isEnvVarLine line K' = true → isEnvVarLine line K = false.
Proof.
  intros [-> | ->] [-> | ->] Hne H; try done.
  - destruct (isEnvVarLine line ENV_TITLE) eqn:Ht; [| done].
    apply isEnvVarLine_title_description in Ht. congruence.
  - by apply isEnvVarLine_title_description.
Qed.

Lemma isEnvVarLine_blank (K line : string) :
  trim line = "" → isEnvVarLine line K = false.
Proof.
  intros H. destruct (isEnvVarLine line K) eqn:HK; [| done].
  by apply isEnvVarLine_not_blank in HK.
Qed.

(** ** Writing the .env file again, and reading it back *)

(** Where each line of the array comes from after the two calls of
    [updateEnvVarInPlace]. *)
Lemma updatedLines_origin (content : string) (env : gmap string string)
    (i : nat) (l' : string) :
  updatedLines content env !! i = Some l' →
  split LF content !! i = Some l'
  ∨ ∃ K l, (K = ENV_TITLE ∨ K = ENV_DESCRIPTION)
           ∧ split LF content !! i = Some l ∧ isEnvVarLine l K = true
           ∧ l' = envLine K (envValue env K).
Proof.
  unfold updatedLines. set (lines := split LF content).
  destruct (updateEnvVarInPlace_spec lines ENV_TITLE (envValue env ENV_TITLE))
    as (_ & Hlen1 & _ & Hfrom1 & _).
  set (lines1 := (updateEnvVarInPlace lines ENV_TITLE _).2) in *.
  destruct (updateEnvVarInPlace_spec lines1 ENV_DESCRIPTION
              (envValue env ENV_DESCRIPTION))
    as (_ & _ & _ & Hfrom2 & _).
  intros H2. destruct (Hfrom2 i l' H2) as [H | (-> & l1 & H1 & Hd)].
  - destruct (Hfrom1 i l' H) as [H' | (-> & l & Hl & Ht)]; [by left |].
    right. exists ENV_TITLE, l. auto.
  - right. destruct (lookup_lt_is_Some_2 lines i) as [l Hl].
    { rewrite <- Hlen1. by eapply lookup_lt_Some. }
    exists ENV_DESCRIPTION, l. split_and!; [auto | done | | done].
    by rewrite <- (updateTitle_same_description lines _ i l l1 Hl H1).
Qed.

(** The array that is joined: the lines after the two calls up to some
    index, after which they are all blank; an empty line or none; the
    lines of the keys that were missing. *)
Lemma writeEnvFile_lines_shape (content : string) (env : gmap string string) :
  ∃ (n : nat) (pad : list string),
    writeEnvFile_lines content env
    = take n (updatedLines content env) ++ pad
      ++ missingLines (split LF content) env
    ∧ (pad = [] ∨ pad = [""])
    ∧ ∀ j l, updatedLines content env !! j = Some l → trim l ≠ "" →
             (j < n)%nat.
Proof.
  rewrite writeEnvFile_lines_eq.
  destruct (assigned (split LF content) ENV_TITLE
            && assigned (split LF content) ENV_DESCRIPTION) eqn:Hboth.
  - apply andb_true_iff in Hboth as [Ht Hd].
    exists (length (updatedLines content env)), [].
    unfold missingLines. rewrite Ht, Hd, take_ge by done.
    split_and!; [by rewrite app_nil_r | by left |].
    intros j l Hj _. by eapply lookup_lt_Some.
  - destruct (removeTrailingEmptyLines_take (updatedLines content env))
      as (n & Hn & _ & Hlast).
    exists n, (if bool_decide
                    (0 < length (removeTrailingEmptyLines
                                   (updatedLines content env)))%nat
               then [""] else []).
    rewrite <- Hn. split_and!; [done | | done].
    destruct (bool_decide _); auto.
Qed.

Lemma includes_unit_app (c : ascii) (a b : string) :
  includes (a +:+ b) (String c "")
  = includes a (String c "") || includes b (String c "").
Proof.
  induction a as [|x a IH]; [done |].
  rewrite sapp_cons. cbn [includes]. rewrite !startsWith_unit, IH.
  by rewrite orb_assoc.
Qed.

Lemma split_lines_clean (s : string) :
  Forall (fun l => includes l nl = false) (split LF s).
Proof.
  induction s as [|c s IH]; [by repeat constructor |]. simpl.
  destruct (Ascii.eqb_spec c LF) as [-> | Hc]; [by constructor |].
  destruct (split LF s) as [|h t] eqn:Hs;
    [by destruct (split_not_nil LF s) |].
  apply Forall_cons in IH as [Hh Ht]. constructor; [| done].
  cbn [includes]. unfold nl at 1. rewrite startsWith_unit.
  apply orb_false_iff. split; [| done].
  apply Ascii.eqb_neq. congruence.
Qed.

(** Lines without a line feed, joined and split, are the same lines. *)
Lemma split_join_lines (ls : list string) :
  ls ≠ [] → Forall (fun l => includes l nl = false) ls →
  split LF (join nl ls) = ls.
Proof.
  intros Hne Hls. induction Hls as [|l ls Hl _ IH]; [done |].
  destruct ls as [|l' ls].
  - by apply split_one_line.
  - rewrite join_cons by done. rewrite split_first_line by done.
    by rewrite IH.
Qed.

(** What [writeEnvFile] writes, split into lines: the array that was
    joined, and an empty line or none. *)
Lemma split_withFinalNewline (ls : list string) :
  ls ≠ [] → Forall (fun l => includes l nl = false) ls →
  ∃ pad, (pad = [] ∨ pad = [""])
         ∧ split LF (withFinalNewline (join nl ls)) = ls ++ pad.
Proof.
  intros Hne Hls. unfold withFinalNewline.
  destruct (truthy (join nl ls) && negb (endsWith (join nl ls) nl)).
  - exists [""]. split; [by right |].
    rewrite <- (split_join_lines (ls ++ [""])).
    + by rewrite join_app.
    + by destruct ls.
    + apply Forall_app. split; [done | by repeat constructor].
  - exists []. split; [by left |].
    by rewrite sapp_nil_r, app_nil_r, split_join_lines.
Qed.

Lemma includes_envLine (K v : string) :
  K = ENV_TITLE ∨ K = ENV_DESCRIPTION → includes v nl = false →
  includes (envLine K v) nl = false.
Proof.
  intros HK Hv. unfold envLine. rewrite or_else_empty.
  unfold nl. rewrite !includes_unit_app. fold nl. rewrite Hv.
  by destruct HK as [-> | ->].
Qed.

Lemma missingLines_elem (lines : list string) (env : gmap string string)
    (l : string) :
  l ∈ missingLines lines env →
  ∃ K, (K = ENV_TITLE ∨ K = ENV_DESCRIPTION)
       ∧ assigned lines K = false ∧ l = envLine K (envValue env K).
Proof.
  unfold missingLines. intros [H | H]%elem_of_app.
  - destruct (assigned lines ENV_TITLE) eqn:Ha; [by apply elem_of_nil in H |].
    apply list_elem_of_singleton in H. exists ENV_TITLE. auto.
  - destruct (assigned lines ENV_DESCRIPTION) eqn:Ha;
      [by apply elem_of_nil in H |].
    apply list_elem_of_singleton in H. exists ENV_DESCRIPTION. auto.
Qed.

(** The lines of the written file hold no line feed when the two values
    hold none. *)
Lemma writeEnvFile_lines_clean (content : string) (env : gmap string string) :
  includes (envValue env ENV_TITLE) nl = false →
  includes (envValue env ENV_DESCRIPTION) nl = false →
  Forall (fun l => includes l nl = false) (writeEnvFile_lines content env).
Proof.
  intros Ht Hd.
  assert (Hline : ∀ K, K = ENV_TITLE ∨ K = ENV_DESCRIPTION →
                       includes (envLine K (envValue env K)) nl = false).
  { intros K HK. apply includes_envLine; [done |]. by destruct HK as [-> | ->]. }
  destruct (writeEnvFile_lines_shape content env) as (n & pad & -> & Hpad & _).
  apply Forall_app. split; [| apply Forall_app; split].
  - apply Forall_forall. intros l [i Hi]%list_elem_of_lookup.
    apply lookup_take_Some in Hi as [Hi _].
    destruct (updatedLines_origin content env i l Hi)
      as [H0 | (K & l0 & HK & _ & _ & ->)]; [| by apply Hline].
    by eapply (Forall_lookup_1 _ _ _ _ (split_lines_clean content)).
  - destruct Hpad as [-> | ->]; by repeat constructor.
  - apply Forall_forall. intros l (K & HK & _ & ->)%missingLines_elem.
    by apply Hline.
Qed.

Lemma writeEnvFile_lines_not_nil (content : string)
    (env : gmap string string) :
  writeEnvFile_lines content env ≠ [].
Proof.
  intros H. apply (writeEnvFile_lines_not_empty content env). by rewrite H.
Qed.

(** A line of the array after the two calls assigns [K] only where the
    line of the file did, or where the line is the new line for [K]. *)
Lemma updatedLines_not_assigning (content : string)
    (env : gmap string string) (K : string) (j : nat) (l : string) :
  K = ENV_TITLE ∨ K = ENV_DESCRIPTION →
  updatedLines content env !! j = Some l →
  (∀ l0, split LF content !! j = Some l0 → isEnvVarLine l0 K = false) →
  isEnvVarLine l K = false.
Proof.
  intros HK Hj Hno.
  destruct (updatedLines_origin content env j l Hj)
    as [H0 | (K' & l0 & HK' & H0 & Hl0 & ->)]; [by apply Hno |].
  destruct (decide (K = K')) as [<- | Hne].
  - specialize (Hno l0 H0). congruence.
  - apply (isEnvVarLine_other K K'); [done.. |]. by apply isEnvVarLine_envLine.
Qed.

(** The file that [writeEnvFile] writes, around its line for the key [K]:
    no line before it assigns [K], and the lines after it are empty, lines
    of the tool, or lines of the file from after its first line for [K]. *)
Lemma written_key_line (content : string) (env : gmap string string)
    (K : string) :
  K = ENV_TITLE ∨ K = ENV_DESCRIPTION →
  includes (envValue env ENV_TITLE) nl = false →
  includes (envValue env ENV_DESCRIPTION) nl = false →
  ∃ A B,
    split LF (writeEnvFile_content content env)
    = A ++ envLine K (envValue env K) :: B
    ∧ Forall (fun l => isEnvVarLine l K = false) A
    ∧ Forall (afterAssignment (split LF content) env K) B.
Proof.
  intros HK Ht Hd. unfold writeEnvFile_content.
  destruct (split_withFinalNewline (writeEnvFile_lines content env))
    as (pad' & Hpad' & ->);
    [apply writeEnvFile_lines_not_nil | by apply writeEnvFile_lines_clean |].
  destruct (writeEnvFile_lines_shape content env)
    as (n & pad & -> & Hpad & Hn).
  set (L0 := split LF content). set (L2 := updatedLines content env) in *.
  set (eK := envLine K (envValue env K)).
  assert (HeK : isEnvVarLine eK K = true) by by apply isEnvVarLine_envLine.
  assert (Hblank : ∀ p, p = [] ∨ p = [""] →
                        Forall (fun l : string => l = "") p).
  { intros p [-> | ->]; by repeat constructor. }
  assert (Hpad_A : ∀ p, p = [] ∨ p = [""] →
                        Forall (fun l => isEnvVarLine l K = false) p).
  { intros p Hp. eapply Forall_impl; [by apply Hblank |].
    intros l ->. by apply isEnvVarLine_blank. }
  assert (Hpad_B : ∀ p, p = [] ∨ p = [""] →
                        Forall (afterAssignment L0 env K) p).
  { intros p Hp. eapply Forall_impl; [by apply Hblank |].
    intros l ->. by left. }
  assert (Hmissing_B : Forall (afterAssignment L0 env K) (missingLines L0 env)).
  { apply Forall_forall. intros l (K' & HK' & _ & ->)%missingLines_elem.
    right. left. by exists K'. }
  destruct (assigned L0 K) eqn:Ha.
  - (* the file assigns [K]: its first line for [K] is replaced *)
    destruct (list_find (fun l => isEnvVarLine l K = true) L0)
      as [[i0 l0]|] eqn:Hfind.
    2: { apply list_find_None in Hfind.
         apply assigned_true in Ha as (i & l & Hi & Hl).
         by destruct (Forall_lookup_1 _ _ _ _ Hfind Hi). }
    apply list_find_Some in Hfind as (Hi0 & Hl0 & Hmin).
    assert (Hfirst : ∀ j l', (j < i0)%nat → L0 !! j = Some l' →
                             isEnvVarLine l' K = false).
    { intros j l' Hj Hl'. apply not_true_is_false. by eapply Hmin. }
    assert (H2 : L2 !! i0 = Some eK)
      by by apply (updatedLines_replaced content env K i0 l0).
    assert (Hlt : (i0 < n)%nat).
    { apply (Hn i0 eK H2). by apply (isEnvVarLine_not_blank _ K). }
    assert (Htake : take n L2
                    = take i0 L2 ++ eK :: drop (S i0) (take n L2)).
    { rewrite <- (take_drop_middle (take n L2) i0 eK) at 1
        by by rewrite lookup_take_lt.
      by rewrite take_take, Nat.min_l by lia. }
    exists (take i0 L2),
      (drop (S i0) (take n L2) ++ pad ++ missingLines L0 env ++ pad').
    split_and!.
    + rewrite Htake at 1. by rewrite <- !app_assoc.
    + apply Forall_forall. intros l [j Hj]%list_elem_of_lookup.
      apply lookup_take_Some in Hj as [Hj Hji].
      apply (updatedLines_not_assigning content env K j l HK Hj).
      intros l1 H1. exact (Hfirst j l1 Hji H1).
    + apply Forall_app; split;
        [| apply Forall_app; split;
           [by apply Hpad_B
           | apply Forall_app; split; [done | by apply Hpad_B]]].
      apply Forall_forall. intros l [j Hj]%list_elem_of_lookup.
      rewrite lookup_drop in Hj. apply lookup_take_Some in Hj as [Hj _].
      destruct (updatedLines_origin content env _ l Hj)
        as [H0 | (K' & l1 & HK' & _ & _ & ->)].
      * right. right. exists i0, (S i0 + j)%nat, l0.
        split_and!; [done | done | lia | done].
      * right. left. by exists K'.
  - (* the file does not assign [K]: the line for [K] is added *)
    assert (Hno : ∀ j l, L2 !! j = Some l → isEnvVarLine l K = false).
    { intros j l Hj.
      apply (updatedLines_not_assigning content env K j l HK Hj).
      intros l1 H1. by apply (proj1 (assigned_false L0 K) Ha j). }
    assert (Htake_A : Forall (fun l => isEnvVarLine l K = false) (take n L2)).
    { apply Forall_forall. intros l [j Hj]%list_elem_of_lookup.
      apply lookup_take_Some in Hj as [Hj _]. by eapply Hno. }
    unfold missingLines in *. fold L0 in Hmissing_B |- *.
    destruct HK as [-> | ->]; rewrite Ha in *.
    + exists (take n L2 ++ pad),
        ((if assigned L0 ENV_DESCRIPTION then []
          else [envLine ENV_DESCRIPTION (envValue env ENV_DESCRIPTION)])
         ++ pad').
      split_and!.
      * by rewrite <- !app_assoc.
      * apply Forall_app. split; [done | by apply Hpad_A].
      * apply Forall_app. split; [| by apply Hpad_B].
        by apply Forall_app in Hmissing_B as [_ ?].
    + exists (take n L2 ++ pad
              ++ (if assigned L0 ENV_TITLE then []
                  else [envLine ENV_TITLE (envValue env ENV_TITLE)])),
        pad'.
      split_and!.
      * by rewrite <- !app_assoc.
      * repeat (apply Forall_app; split); [done | by apply Hpad_A |].
        destruct (assigned L0 ENV_TITLE); [by constructor |].
        repeat constructor.
        apply (isEnvVarLine_other ENV_DESCRIPTION ENV_TITLE); auto.
        apply isEnvVarLine_envLine. auto.
      * by apply Hpad_B.
Qed.

Lemma updateEnvVarInPlace_fixed (A B : list string) (K v : string) :
  Forall (fun l => isEnvVarLine l K = false) A →
  isEnvVarLine (envLine K v) K = true →
  updateEnvVarInPlace (A ++ envLine K v :: B) K v
  = (true, A ++ envLine K v :: B).
Proof.
  intros HA Hline. unfold updateEnvVarInPlace.
  assert (Hat : (A ++ envLine K v :: B) !! length A = Some (envLine K v)).
  { by rewrite lookup_app_r, Nat.sub_diag by lia. }
  assert (list_find (fun l => isEnvVarLine l K = true) (A ++ envLine K v :: B)
          = Some (length A, envLine K v)) as ->.
  { apply list_find_Some. split_and!; [done | done |].
    intros j y Hj Hlt. rewrite lookup_app_l in Hj by done.
    rewrite (Forall_lookup_1 _ _ _ _ HA Hj). done. }
  by rewrite list_insert_id.
Qed.

Lemma withFinalNewline_idempotent (content : string) :
  withFinalNewline (withFinalNewline content) = withFinalNewline content.
Proof.
  unfold withFinalNewline.
  destruct (truthy content && negb (endsWith content nl)) eqn:Hc.
  - rewrite endsWith_nl_snoc, andb_false_r. apply sapp_nil_r.
  - by rewrite !sapp_nil_r, Hc, sapp_nil_r.
Qed.

(** X12. Writing the .env file a second time with the same two values
    changes nothing, whatever the file held before the first time, when
    the two values hold no line feed: the first line that assigns each key
    is the line of the tool, and the text already ends with a line feed. *)
Theorem writeEnvFile_idempotent (content : string)
    (env : gmap string string) :
  includes (envValue env ENV_TITLE) nl = false →
  includes (envValue env ENV_DESCRIPTION) nl = false →
  let written := writeEnvFile_content content env in
  writeEnvFile_content written env = written
  ∧ writeEnvFile_lines written env = split LF written.
Proof.
  intros Ht Hd written.
  destruct (written_key_line content env ENV_TITLE) as (A & B & HW & HA & _);
    [auto | done | done |].
  destruct (written_key_line content env ENV_DESCRIPTION)
    as (A' & B' & HW' & HA' & _); [auto | done | done |].
  fold written in HW, HW'.
  assert (Hlines : writeEnvFile_lines written env = split LF written).
  { unfold writeEnvFile_lines. rewrite HW.
    rewrite updateEnvVarInPlace_fixed
      by (try done; apply isEnvVarLine_envLine; auto).
    rewrite <- HW, HW'.
    rewrite updateEnvVarInPlace_fixed
      by (try done; apply isEnvVarLine_envLine; auto).
    done. }
  split; [| done].
  unfold writeEnvFile_content at 1. rewrite Hlines, join_split.
  apply withFinalNewline_idempotent.
Qed.

Lemma writeEnvFile_idempotent_witness :
  let content :=
    "# settings" +:+ nl +:+ "VITE_DESCRIPTION=old" +:+ nl +:+ "API=1"
    +:+ nl +:+ nl in
  let written := writeEnvFile_content content sample_env in
  written
  = "# settings" +:+ nl +:+ "VITE_DESCRIPTION=desc" +:+ nl +:+ "API=1"
    +:+ nl +:+ nl +:+ "VITE_TITLE=demo" +:+ nl
  ∧ writeEnvFile_content written sample_env = written.
Proof.
  split; [reflexivity |].
  apply (writeEnvFile_idempotent
           ("# settings" +:+ nl +:+ "VITE_DESCRIPTION=old" +:+ nl +:+ "API=1"
            +:+ nl +:+ nl) sample_env); reflexivity.
Defined.

Lemma valueFor_empty (key : string) : valueFor key "" = None.
Proof. done. Qed.

Lemma valueFor_pad (key : string) (pad : list string) :
  pad = [] ∨ pad = [""] → Forall (fun l => valueFor key l = None) pad.
Proof. intros [-> | ->]; by repeat constructor. Qed.

Lemma plainKey_tool (K : string) :
  K = ENV_TITLE ∨ K = ENV_DESCRIPTION → plainKey K = true.
Proof. by intros [-> | ->]. Qed.

(** X13. Writing the .env file leaves every other key as it was: for a key
    that is none of the two (and not __proto__), [readEnvFile] reads the
    same value (or none) from the file as written and from the file as it
    was, whatever the file held, when the two values hold no line feed. *)
Theorem writeEnvFile_keeps_other_keys (content : string)
    (env : gmap string string) (key : string) :
  includes (envValue env ENV_TITLE) nl = false →
  includes (envValue env ENV_DESCRIPTION) nl = false →
  key ≠ ENV_TITLE → key ≠ ENV_DESCRIPTION → key ≠ "__proto__" →
  readEnvFile_map (writeEnvFile_content content env) !! key
  = readEnvFile_map content !! key.
Proof.
  intros Ht Hd HkT HkD _. unfold readEnvFile_map, writeEnvFile_content.
  assert (Hother : ∀ K, K = ENV_TITLE ∨ K = ENV_DESCRIPTION → key ≠ K)
    by (by intros K [-> | ->]).
  destruct (split_withFinalNewline (writeEnvFile_lines content env))
    as (pad' & Hpad' & ->);
    [apply writeEnvFile_lines_not_nil | by apply writeEnvFile_lines_clean |].
  destruct (writeEnvFile_lines_shape content env)
    as (n & pad & -> & Hpad & Hn).
  set (L0 := split LF content). set (L2 := updatedLines content env) in *.
  rewrite foldl_app, (foldl_assign_skip key pad') by by apply valueFor_pad.
  rewrite !foldl_app.
  rewrite (foldl_assign_skip key (missingLines L0 env)).
  2: { apply Forall_forall. intros l (K & HK & _ & ->)%missingLines_elem.
       apply valueFor_envLine_other; [by apply plainKey_tool | auto]. }
  rewrite (foldl_assign_skip key pad) by by apply valueFor_pad.
  transitivity (foldl assignEnvLine ∅ L2 !! key).
  - rewrite <- (take_drop n L2) at 2. rewrite foldl_app.
    rewrite (foldl_assign_skip key (drop n L2)); [done |].
    apply Forall_forall. intros l [j Hj]%list_elem_of_lookup.
    rewrite lookup_drop in Hj. apply valueFor_blank.
    destruct (decide (trim l = "")) as [| Hl]; [done |].
    specialize (Hn _ l Hj Hl). lia.
  - apply foldl_assign_same; [| done].
    apply Forall2_same_length_lookup_2.
    { apply (updatedLines_spec content env). }
    intros i l2 l0 H2 H0.
    destruct (updatedLines_origin content env i l2 H2)
      as [H0' | (K & l0' & HK & H0' & Hl0 & ->)];
      fold L0 in H0'; rewrite H0 in H0'; injection H0' as <-; [done |].
    rewrite valueFor_envLine_other by (by apply plainKey_tool || auto).
    symmetry. apply (valueFor_assigning K key l0); auto.
    by apply plainKey_tool.
Qed.

Lemma writeEnvFile_keeps_other_keys_witness :
  let content :=
    "API=1" +:+ nl +:+ "VITE_TITLE=old" +:+ nl +:+ " API = 2 " +:+ nl
    +:+ nl +:+ nl in
  readEnvFile_map content !! "API" = Some "2"
  ∧ readEnvFile_map (writeEnvFile_content content sample_env) !! "API"
    = readEnvFile_map content !! "API".
Proof.
  split; [vm_compute; reflexivity |].
  apply (writeEnvFile_keeps_other_keys
           ("API=1" +:+ nl +:+ "VITE_TITLE=old" +:+ nl +:+ " API = 2 " +:+ nl
            +:+ nl +:+ nl) sample_env "API");
    [reflexivity | reflexivity | done | done | done].
Defined.

(** X14. Round trip: after [writeEnvFile], [readEnvFile] reads for each of
    the two keys the value that was written, trimmed, provided the value
    holds no line feed and no line of the file after its first line for
    the key gives the key a value (the write replaces the first line for
    a key, the read keeps the last). *)
Theorem writeEnvFile_read_back (content : string)
    (env : gmap string string) (K : string) :
  K = ENV_TITLE ∨ K = ENV_DESCRIPTION →
  includes (envValue env ENV_TITLE) nl = false →
  includes (envValue env ENV_DESCRIPTION) nl = false →
  (∀ (i j : nat) l0 l,
     split LF content !! i = Some l0 → isEnvVarLine l0 K = true →
     (i < j)%nat → split LF content !! j = Some l → valueFor K l = None) →
  readEnvFile_map (writeEnvFile_content content env) !! K
  = Some (trim (envValue env K)).
Proof.
  intros HK Ht Hd Hlast. unfold readEnvFile_map.
  destruct (written_key_line content env K HK Ht Hd) as (A & B & -> & _ & HB).
  assert (Hplain := plainKey_tool K HK).
  apply foldl_assign_after; [by apply valueFor_envLine |].
  eapply Forall_impl; [apply HB |].
  intros l [-> | [(K' & HK' & ->) | (i & j & l0 & Hi & Hl0 & Hij & Hj)]].
  - by left.
  - destruct (decide (K = K')) as [<- | Hne].
    + right. by apply valueFor_envLine.
    + left. apply valueFor_envLine_other; [by apply plainKey_tool | done].
  - left. by apply (Hlast i j l0 l).
Qed.

Lemma writeEnvFile_read_back_witness :
  let content :=
    "# settings" +:+ nl +:+ "VITE_TITLE = older" +:+ nl +:+ "VITE_TITLE=old"
    +:+ nl +:+ "API=1" +:+ nl in
  let env := <[ENV_TITLE := " my = app "]> sample_env in
  writeEnvFile_content content env
  = "# settings" +:+ nl +:+ "VITE_TITLE = older" +:+ nl
    +:+ "VITE_TITLE= my = app " +:+ nl +:+ "API=1" +:+ nl +:+ nl
    +:+ "VITE_DESCRIPTION=desc" +:+ nl
  ∧ trim (envValue env ENV_TITLE) = "my = app"
  ∧ readEnvFile_map (writeEnvFile_content content env) !! ENV_TITLE
    = Some (trim (envValue env ENV_TITLE)).
Proof.
  split; [vm_compute; reflexivity |]. split; [vm_compute; reflexivity |].
  apply (writeEnvFile_read_back
           ("# settings" +:+ nl +:+ "VITE_TITLE = older" +:+ nl
            +:+ "VITE_TITLE=old" +:+ nl +:+ "API=1" +:+ nl)
           (<[ENV_TITLE := " my = app "]> sample_env) ENV_TITLE);
    [by left | vm_compute; reflexivity | vm_compute; reflexivity |].
  intros i j l0 l Hi Hl0 Hij Hj.
  destruct i as [|[|[|[|[|i]]]]]; simpl in Hi; try done;
    injection Hi as <-; try (by vm_compute in Hl0);
    destruct j as [|[|[|[|[|j]]]]]; simpl in Hj; try done; try lia;
    by injection Hj as <-.
Defined.

(** ** More on README.md *)


(** X15. [updateReadmeTitle] never deletes text after the first line.
    When the first line starts with a number sign it is replaced by the
    heading with the name and the rest of the document is kept, code unit
    for code unit; otherwise the heading is put on a new line before the
    whole document. *)
Theorem updateReadmeTitle_keeps_content (content name first rest : string) :
  content = first +:+ rest → includes first nl = false →
  rest = "" ∨ startsWith rest nl = true →
  updateReadmeTitle content name
  = if startsWith first "#" then "# " +:+ name +:+ rest
    else "# " +:+ name +:+ nl +:+ content.
Proof.
  intros -> Hfirst Hrest. unfold updateReadmeTitle.
  assert (Hsplit : ∃ t, split LF (first +:+ rest) = first :: t
                        ∧ rest = match t with
                                 | [] => ""
                                 | _ => nl +:+ join nl t
                                 end).
  { destruct Hrest as [-> | [r ->]%startsWith_inv].
    - exists []. by rewrite sapp_nil_r, split_one_line.
    - exists (split LF r). rewrite split_first_line by done.
      split; [done |]. rewrite join_split.
      by destruct (split LF r) eqn:Hs; [destruct (split_not_nil LF r) |]. }
  destruct Hsplit as (t & Hs & Ht). rewrite Hs. cbn [lookup list_lookup default
    from_option id].
  change ((first :: t) !! 0%nat) with (Some first). cbn [default from_option id].
  destruct (startsWith first "#").
  - change (<[0%nat := "# " +:+ name]> (first :: t)) with (("# " +:+ name) :: t).
    rewrite Ht. destruct t as [|x t]; [by rewrite sapp_nil_r |].
    rewrite join_cons by done. by rewrite !sapp_assoc.
  - change (<[0%nat := "# " +:+ name +:+ nl +:+ first]> (first :: t))
      with (("# " +:+ name +:+ nl +:+ first) :: t).
    rewrite Ht. destruct t as [|x t]; [by rewrite sapp_nil_r |].
    rewrite join_cons by done. by rewrite !sapp_assoc.
Qed.

Lemma updateReadmeTitle_keeps_content_witness :
  updateReadmeTitle ("# old title" +:+ nl +:+ nl +:+ "Some text." +:+ nl)
    "demo"
  = "# demo" +:+ nl +:+ nl +:+ "Some text." +:+ nl.
Proof.
  apply (updateReadmeTitle_keeps_content
           ("# old title" +:+ nl +:+ nl +:+ "Some text." +:+ nl) "demo"
           "# old title" (nl +:+ nl +:+ "Some text." +:+ nl));
    [reflexivity | reflexivity | by right].
Defined.


(** ** More on deploy.yml *)

Lemma getGithubActionsInstallCommand_line (pm : PackageManager) :
  allUnits notLineTerminator (getGithubActionsInstallCommand pm) = true
  ∧ getGithubActionsInstallCommand pm ≠ "".
Proof. by destruct pm. Qed.

(** X17. In a workflow where the first line with the name of the step
    stands after other lines or after white space, and white space and
    [run: ] with a command follow it, [updateDeployYml] writes the command
    of the package manager in place of the command, whatever the package
    manager and the command are, and leaves every other line as it is.
    Run again for another package manager it gives what a single run for
    that one gives, and run again for the same one it changes nothing. *)
Theorem updateDeployYml_any_command (pm pm' : PackageManager)
    (before after : list string) (indent indent2 old : string) :
  allUnits isWhiteSpace indent = true →
  allUnits isWhiteSpace indent2 = true →
  allUnits notLineTerminator old = true → old ≠ "" →
  Forall (fun l => includes l stepName = false) before →
  before ≠ [] ∨ indent ≠ "" →
  let document := workflow before indent (indent2 +:+ "run: " +:+ old) after in
  let updated :=
    workflow before indent
      (indent2 +:+ "run: " +:+ getGithubActionsInstallCommand pm) after in
  updateDeployYml_content pm document = updated
  ∧ updateDeployYml_content pm' (updateDeployYml_content pm document)
    = updateDeployYml_content pm' document
  ∧ updateDeployYml_content pm updated = updated.
Proof.
  intros Hindent Hindent2 Hold Hne Hbefore Hstart document updated.
  assert (Hstep : ∀ m o, allUnits notLineTerminator o = true → o ≠ "" →
    updateDeployYml_content m
      (workflow before indent (indent2 +:+ "run: " +:+ o) after)
    = workflow before indent
        (indent2 +:+ "run: " +:+ getGithubActionsInstallCommand m) after).
  { intros m o Ho Hno. by apply updateDeployYml_content_step. }
  destruct (getGithubActionsInstallCommand_line pm) as [Hcmd Hcmd'].
  unfold document, updated. split_and!.
  - by apply Hstep.
  - by rewrite !Hstep.
  - by apply Hstep.
Qed.

Lemma updateDeployYml_any_command_witness :
  let before := ["jobs:"; "  build:"; "    steps:"] in
  let after := ["          npm ci"; "      - name: Build"] in
  let document :=
    workflow before "      " ("        " +:+ "run: " +:+ "|") after in
  updateDeployYml_content pnpm document
  = workflow before "      " ("        " +:+ "run: " +:+ "pnpm install") after
  ∧ updateDeployYml_content yarn (updateDeployYml_content pnpm document)
    = updateDeployYml_content yarn document.
Proof.
  destruct (updateDeployYml_any_command pnpm yarn
              ["jobs:"; "  build:"; "    steps:"]
              ["          npm ci"; "      - name: Build"]
              "      " "        " "|") as (H1 & H2 & _);
    [reflexivity | reflexivity | reflexivity | done
    | by repeat constructor | by left |].
  by split.
Defined.

Lemma includes_inv (s x : string) :
  includes s x = true → ∃ a b, s = a +:+ x +:+ b.
Proof.
  induction s as [|c s IH]; cbn [includes].
  - rewrite orb_false_r. intros [b ->]%startsWith_inv. by exists "", b.
  - intros [[b ->]%startsWith_inv | H]%orb_true_iff; [by exists "", b |].
    destruct (IH H) as (a & b & ->). by exists (String c a), b.
Qed.

Lemma includes_middle (a x b : string) : includes (a +:+ x +:+ b) x = true.
Proof. apply includes_suffix, startsWith_app. Qed.

Lemma join_elem (sep l : string) (ls : list string) :
  l ∈ ls → ∃ pre post, join sep ls = pre +:+ l +:+ post.
Proof.
  induction ls as [|h t IH]; [by intros ?%elem_of_nil |].
  intros [-> | Hin]%elem_of_cons.
  - destruct t as [|h' t]; [exists "", ""; by rewrite sapp_nil_r |].
    rewrite join_cons by done. by exists "", (sep +:+ join sep (h' :: t)).
  - destruct (IH Hin) as (pre & post & Hj).
    destruct t as [|h' t]; [by apply elem_of_nil in Hin |].
    rewrite join_cons, Hj by done.
    exists (h +:+ sep +:+ pre), post. by rewrite !sapp_assoc.
Qed.

(** A text that a line of a document holds, the document holds. *)
Lemma includes_line (s x l : string) :
  l ∈ split LF s → includes l x = true → includes s x = true.
Proof.
  intros (pre & post & Hj)%(join_elem nl) (a & b & ->)%includes_inv.
  rewrite join_split in Hj. rewrite Hj.
  rewrite <- !sapp_assoc. rewrite !sapp_assoc.
  rewrite <- (sapp_assoc pre a). apply includes_middle.
Qed.

Lemma fallbackLoop_none (lines : list string) (installCommand : string) :
  Forall (fun l => includes l "Install dependencies" = false) lines →
  fallbackLoop lines installCommand = lines.
Proof.
  induction 1 as [|l rest Hl _ IH]; [done |].
  cbn [fallbackLoop]. destruct rest as [|next after]; [done |].
  by rewrite Hl, IH.
Qed.

(** X18. A workflow that does not hold the text Install dependencies is
    written back as it was, for every package manager: nothing is added
    and nothing is reported. *)
Theorem updateDeployYml_without_step (pm : PackageManager) (content : string) :
  includes content "Install dependencies" = false →
  updateDeployYml_content pm content = content.
Proof.
  intros Hno. unfold updateDeployYml_content.
  rewrite installPattern_exec_none.
  - rewrite fallbackLoop_none; [apply join_split |].
    apply Forall_forall. intros l Hl.
    destruct (includes l "Install dependencies") eqn:Hin; [| done].
    by rewrite (includes_line content _ l Hl Hin) in Hno.
  - intros p v -> _.
    destruct (startsWith v stepName) eqn:Hv; [| done].
    apply startsWith_inv in Hv as [r ->].
    assert (Heq : p +:+ stepName +:+ r
                  = (p +:+ "- name: ") +:+ "Install dependencies" +:+ r)
      by by rewrite sapp_assoc.
    by rewrite Heq, includes_middle in Hno.
Qed.

Lemma updateDeployYml_without_step_witness :
  let content :=
    "jobs:" +:+ nl +:+ "  build:" +:+ nl +:+ "    steps:" +:+ nl
    +:+ "      - run: npm ci" +:+ nl in
  updateDeployYml_content yarn content = content.
Proof.
  apply (updateDeployYml_without_step yarn
           ("jobs:" +:+ nl +:+ "  build:" +:+ nl +:+ "    steps:" +:+ nl
            +:+ "      - run: npm ci" +:+ nl)).
  reflexivity.
Defined.

(** ** The main flow *)

Lemma effects_refl (w : world) : effects w w [] [].
Proof.
  unfold effects. split_and!; try done. exists []. rewrite app_nil_r.
  split_and!; try done. apply not_elem_of_nil.
Qed.

Lemma effects_trans (w w1 w2 : world) (ws1 ws2 : list (string * string))
    (cs1 cs2 : list string) :
  effects w w1 ws1 cs1 → effects w1 w2 ws2 cs2 →
  effects w w2 (ws1 ++ ws2) (cs1 ++ cs2).
Proof.
  intros (Ha1 & Hs1 & Hi1 & Hf1 & Hd1 & evs1 & Ht1 & Hw1 & Hc1 & Hq1 & Hn1)
         (Ha2 & Hs2 & Hi2 & Hf2 & Hd2 & evs2 & Ht2 & Hw2 & Hc2 & Hq2 & Hn2).
  unfold effects. split_and!; try congruence.
  - unfold written in *. by rewrite foldl_app, <- Hf1.
  - exists (evs1 ++ evs2). unfold writes, commands, questions in *.
    rewrite !omap_app, Ht2, Ht1, app_assoc, Hw1, Hw2, Hc1, Hc2, Hq1, Hq2.
    split_and!; try done. by intros [?|?]%elem_of_app.
Qed.

(** One event that writes nothing, runs nothing and asks nothing. *)
Lemma effects_record (w : world) (e : event) :
  writes [e] = [] → commands [e] = [] → questions [e] = [] → e ≠ EvClose →
  effects w (record e w) [] [].
Proof.
  intros Hw Hc Hq He. unfold effects. split_and!; try done.
  exists [e]. split_and!; try done.
  intros H%list_elem_of_singleton. congruence.
Qed.

Lemma effects_exec (w : world) (command : string) :
  effects w (record (EvExec command) w) [] [command].
Proof.
  unfold effects. split_and!; try done.
  exists [EvExec command]. split_and!; try done.
  by intros ?%list_elem_of_singleton.
Qed.

Lemma effects_write (w : world) (path content : string) :
  effects w (store path content (record (EvWrite path content) w))
    [(path, content)] [].
Proof.
  unfold effects. split_and!; try done.
  exists [EvWrite path content]. split_and!; try done.
  by intros ?%list_elem_of_singleton.
Qed.

Lemma effects_files (w w' : world) (cs : list string) :
  effects w w' [] cs → files w' = files w.
Proof. by intros (_ & _ & _ & ? & _). Qed.

Lemma execSync_run (command : string) (w : world) :
  execSync command w
  = match shell w command with
    | Some out => (Return out, record (EvExec command) w)
    | None =>
        (Throw ("Command failed: " +:+ command), record (EvExec command) w)
    end.
Proof. done. Qed.

(** [updatePackageJson]: the two commands in order; the first one that
    fails is the last one that is run, and its error is thrown again after
    a line on the error stream. *)
Lemma updatePackageJson_run (options : BootstrapOptions) (w : world) :
  ∃ w',
    if bool_decide (Forall (fun c => is_Some (shell w c)) (setCommands options))
    then
      updatePackageJson (name options) (description options) w
      = (Return (), w')
      ∧ effects w w' [] (setCommands options)
    else
      (∃ error, updatePackageJson (name options) (description options) w
                = (Throw error, w'))
      ∧ ∃ cs, effects w w' [] cs.
Proof.
  unfold updatePackageJson, try_catch, setCommands.
  rewrite bind_run, execSync_run.
  set (c1 := "npm pkg set name=" +:+ quote +:+ name options +:+ quote).
  set (c2 := "npm pkg set description=" +:+ quote +:+ description options
             +:+ quote).
  destruct (shell w c1) as [o1|] eqn:H1.
  - rewrite bind_run, execSync_run. cbn [shell record].
    destruct (shell w c2) as [o2|] eqn:H2.
    + rewrite bool_decide_eq_true_2
        by (repeat constructor; by rewrite ?H1, ?H2).
      eexists. split; [reflexivity |].
      eapply (effects_trans _ _ _ [] [] [_] [_]); apply effects_exec.
    + rewrite bool_decide_eq_false_2.
      2: { intros (_ & [H _]%Forall_cons)%Forall_cons.
           rewrite H2 in H. by destruct H. }
      eexists. split; [eexists; reflexivity |]. exists [c1; c2].
      eapply (effects_trans _ _ _ [] [] [_] [_]); [apply effects_exec |].
      eapply (effects_trans _ _ _ [] [] [_] []); [apply effects_exec |].
      by apply effects_record.
  - rewrite bool_decide_eq_false_2.
    2: { intros [H _]%Forall_cons. rewrite H1 in H. by destruct H. }
    eexists. split; [eexists; reflexivity |]. exists [c1].
    eapply (effects_trans _ _ _ [] [] [_] []); [apply effects_exec |].
    by apply effects_record.
Qed.

Lemma mret_run {A : Type} (a : A) (w : world) :
  (mret a : M A) w = (Return a, w).
Proof. done. Qed.

Lemma existsSync_run (path : string) (w : world) :
  existsSync path w
  = (Return (bool_decide (is_Some (files w !! path))),
     record (EvExists path) w).
Proof. done. Qed.

Lemma readFileSync_run (path : string) (w : world) :
  readFileSync path w
  = match files w !! path with
    | Some content => (Return content, record (EvRead path) w)
    | None =>
        (Throw ("ENOENT: no such file or directory, open " +:+ path),
         record (EvRead path) w)
    end.
Proof. done. Qed.

Lemma writeFileSync_run (path content : string) (w : world) :
  writeFileSync path content w
  = if directoryExists w (dirname path)
    then (Return (), store path content (record (EvWrite path content) w))
    else (Throw ("ENOENT: no such file or directory, open " +:+ path),
          record (EvWrite path content) w).
Proof. done. Qed.

Lemma directoryExists_record (e : event) (w : world) (dir : string) :
  directoryExists (record e w) dir = directoryExists w dir.
Proof. done. Qed.

Lemma directoryExists_here (w : world) (path : string) :
  dirname path = "" → directoryExists w (dirname path) = true.
Proof. intros ->. done. Qed.

(** A path is in the working directory, or it starts with its directory
    and a slash. *)
Lemma dirname_prefix (path : string) :
  dirname path = "" ∨ startsWith path (dirname path +:+ "/") = true.
Proof.
  unfold dirname.
  assert (Hjoin := join_split_sep "/"%char path).
  rewrite (app_removelast_last "" (split_not_nil "/"%char path)) in Hjoin.
  destruct (removelast (split "/"%char path)) as [|d front] eqn:Hfront;
    [by left |].
  right. rewrite join_app in Hjoin by done. rewrite <- Hjoin at 1.
  rewrite <- !sapp_assoc. apply startsWith_app.
Qed.

(** The directory of a file that is there is there. *)
Lemma directoryExists_file (w : world) (path : string) :
  is_Some (files w !! path) → directoryExists w (dirname path) = true.
Proof.
  intros Hfile. destruct (dirname_prefix path) as [Hhere | Hprefix];
    [by apply directoryExists_here |].
  unfold directoryExists. apply orb_true_iff. right.
  apply existsb_exists. exists path. split; [| done].
  by apply list_elem_of_In, elem_of_elements, elem_of_dom.
Qed.

Lemma written_is_Some (fs : gmap string string) (ws : list (string * string))
    (path : string) :
  is_Some (fs !! path) → is_Some (written fs ws !! path).
Proof.
  revert fs. induction ws as [|[p c] ws IH]; intros fs Hfs; [done |].
  cbn [written foldl] in *. apply IH. rewrite lookup_insert_is_Some.
  destruct (decide (p = path)); auto.
Qed.

Lemma directoryExists_same (w w' : world) (dir : string) :
  files w' = files w → dirs w' = dirs w →
  directoryExists w' dir = directoryExists w dir.
Proof. intros Hfiles Hdirs. unfold directoryExists. by rewrite Hfiles, Hdirs. Qed.

(** A directory that is there stays there. *)
Lemma directoryExists_effects (w w' : world) (ws : list (string * string))
    (cs : list string) (dir : string) :
  effects w w' ws cs → directoryExists w dir = true →
  directoryExists w' dir = true.
Proof.
  intros (_ & _ & _ & Hfiles & Hdirs & _). unfold directoryExists.
  rewrite Hdirs, !orb_true_iff. intros [? | Hfile]; [by left | right].
  apply existsb_exists in Hfile as (path & Hin & Hpath).
  apply existsb_exists. exists path. split; [| done].
  apply list_elem_of_In, elem_of_elements, elem_of_dom in Hin.
  apply list_elem_of_In, elem_of_elements, elem_of_dom.
  rewrite Hfiles. by apply written_is_Some.
Qed.

(** A patcher that reads a file and writes it back: without the file the
    read throws and nothing is written. *)
Lemma patch_run (path : string) (f : string → string) (w : world) :
  ∃ w',
    match files w !! path with
    | Some content =>
        (content ← readFileSync path; writeFileSync path (f content)) w
        = (Return (), w')
        ∧ effects w w' [(path, f content)] []
    | None =>
        (∃ error,
           (content ← readFileSync path; writeFileSync path (f content)) w
           = (Throw error, w'))
        ∧ effects w w' [] []
    end.
Proof.
  rewrite bind_run, readFileSync_run.
  destruct (files w !! path) as [content|] eqn:Hfile.
  - rewrite writeFileSync_run, directoryExists_record.
    rewrite directoryExists_file by (by rewrite Hfile).
    eexists. split; [reflexivity |].
    eapply (effects_trans _ _ _ [] [_] [] []); [| apply effects_write].
    by apply effects_record.
  - eexists. split; [eexists; reflexivity |]. by apply effects_record.
Qed.

Lemma envValue_inserted (env : gmap string string) (n d : string) :
  envValue (<[ENV_DESCRIPTION := d]> (<[ENV_TITLE := n]> env)) ENV_TITLE = n
  ∧ envValue (<[ENV_DESCRIPTION := d]> (<[ENV_TITLE := n]> env))
      ENV_DESCRIPTION = d.
Proof.
  unfold envValue.
  rewrite lookup_insert_eq, lookup_insert_ne, lookup_insert_eq by done.
  by rewrite !or_else_empty.
Qed.

(** What [writeEnvFile] writes depends on the two values only. *)
Lemma writeEnvFile_content_values (content : string)
    (env env' : gmap string string) :
  envValue env ENV_TITLE = envValue env' ENV_TITLE →
  envValue env ENV_DESCRIPTION = envValue env' ENV_DESCRIPTION →
  writeEnvFile_content content env = writeEnvFile_content content env'.
Proof.
  intros Ht Hd. unfold writeEnvFile_content, writeEnvFile_lines.
  by rewrite Ht, Hd.
Qed.

Lemma envContent_eq (options : BootstrapOptions) (original : string)
    (env : gmap string string) :
  writeEnvFile_content original
    (<[ENV_DESCRIPTION := description options]>
       (<[ENV_TITLE := name options]> env))
  = envContent options original.
Proof.
  unfold envContent. apply writeEnvFile_content_values.
  - by rewrite !(proj1 (envValue_inserted _ _ _)).
  - by rewrite !(proj2 (envValue_inserted _ _ _)).
Qed.

(** The statements on the .env file always return: the file is read when
    it is there, and it is written in every case. *)
Lemma updateEnv_run (options : BootstrapOptions) (w : world) :
  ∃ w',
    updateEnv options w = (Return (), w')
    ∧ effects w w'
        [(envPath, envContent options (default "" (files w !! envPath)))] [].
Proof.
  unfold updateEnv, readEnvFile, writeEnvFile, try_catch.
  rewrite bind_run, bind_run, existsSync_run.
  destruct (files w !! envPath) as [content|] eqn:Hfile.
  - rewrite bool_decide_eq_true_2 by done. cbn [negb].
    rewrite bind_run, readFileSync_run. cbn [files record]. rewrite Hfile.
    rewrite mret_run. cbv beta iota.
    rewrite bind_run, existsSync_run. cbv beta iota. cbn [files record].
    rewrite Hfile, bool_decide_eq_true_2 by done.
    rewrite bind_run, readFileSync_run. cbn [files record]. rewrite Hfile.
    cbv beta iota.
    rewrite writeFileSync_run, (directoryExists_here _ envPath) by done.
    rewrite envContent_eq.
    eexists. split; [reflexivity |].
    eapply (effects_trans _ _ _ [] [_] [] []); [| apply effects_write].
    eapply (effects_trans _ _ _ [] [] [] []); [| by apply effects_record].
    eapply (effects_trans _ _ _ [] [] [] []); [| by apply effects_record].
    eapply (effects_trans _ _ _ [] [] [] []); by apply effects_record.
  - rewrite bool_decide_eq_false_2 by (by intros [? ?]). cbn [negb].
    rewrite mret_run. cbv beta iota.
    rewrite bind_run, existsSync_run. cbv beta iota. cbn [files record].
    rewrite Hfile, bool_decide_eq_false_2 by (by intros [? ?]).
    rewrite bind_run, mret_run. cbv beta iota.
    rewrite writeFileSync_run, (directoryExists_here _ envPath) by done.
    rewrite envContent_eq.
    eexists. split; [reflexivity |].
    eapply (effects_trans _ _ _ [] [_] [] []); [| apply effects_write].
    eapply (effects_trans _ _ _ [] [] [] []); by apply effects_record.
Qed.

(** [updateWorktreesJson] reads nothing: it writes the file when the
    directory .cursor is there, and throws without it. *)
Lemma updateWorktreesJson_run (pm : PackageManager) (w : world) :
  updateWorktreesJson pm w
  = if directoryExists w ".cursor"
    then (Return (),
          store worktreesPath (worktreesJson pm)
            (record (EvWrite worktreesPath (worktreesJson pm)) w))
    else (Throw ("ENOENT: no such file or directory, open " +:+ worktreesPath),
          record (EvWrite worktreesPath (worktreesJson pm)) w).
Proof. done. Qed.

Lemma effects_logs (w : world) (t1 t2 : string) :
  effects w (record (EvLog t2) (record (EvLog t1) w)) [] [].
Proof.
  eapply (effects_trans _ _ _ [] [] [] []); by apply effects_record.
Qed.

Lemma updateReadme_run (n : string) (w : world) :
  ∃ w',
    match files w !! readmePath with
    | Some content =>
        updateReadme n w = (Return (), w')
        ∧ effects w w' [(readmePath, updateReadme_content n content)] []
    | None => (∃ error, updateReadme n w = (Throw error, w'))
              ∧ effects w w' [] []
    end.
Proof. apply (patch_run readmePath (updateReadme_content n)). Qed.

Lemma updateDeployYml_run (pm : PackageManager) (w : world) :
  ∃ w',
    match files w !! deployPath with
    | Some content =>
        updateDeployYml pm w = (Return (), w')
        ∧ effects w w' [(deployPath, updateDeployYml_content pm content)] []
    | None => (∃ error, updateDeployYml pm w = (Throw error, w'))
              ∧ effects w w' [] []
    end.
Proof. apply (patch_run deployPath (updateDeployYml_content pm)). Qed.

Lemma includes_indent (s : string) :
  allUnits isIndent s = true → includes s nl = false.
Proof.
  induction s as [|c s IH]; [done |]. cbn [allUnits includes].
  intros [Hc Hs]%andb_true_iff. unfold nl at 1. rewrite startsWith_unit.
  rewrite IH by done. rewrite orb_false_r.
  apply Ascii.eqb_neq. intros <-. done.
Qed.

(** The lines of a document with the step, when none of them holds a line
    feed. *)
Lemma workflow_lines (before after : list string)
    (indent indent2 command : string) :
  allUnits isIndent indent = true →
  allUnits isIndent indent2 = true →
  includes command nl = false →
  Forall (fun l => includes l nl = false) (before ++ after) →
  split LF (workflow before indent (indent2 +:+ "run: " +:+ command) after)
  = before ++ [indent +:+ stepName; indent2 +:+ "run: " +:+ command]
    ++ after.
Proof.
  intros Hindent Hindent2 Hcommand [Hbefore Hafter]%Forall_app.
  unfold workflow. apply split_join_lines; [by destruct before |].
  apply Forall_app. split; [done |].
  repeat apply Forall_cons_2; [| | done].
  - unfold nl. rewrite includes_unit_app. fold nl.
    by rewrite includes_indent.
  - unfold nl. rewrite !includes_unit_app. fold nl.
    by rewrite includes_indent, Hcommand.
Qed.

(** C6. In a workflow where the first line with the name of the step
    Install dependencies is followed by the run line with the command
    npm ci, [updateDeployYml] for yarn reads the document and writes it
    back with the command yarn install --frozen-lockfile on that run line
    and every other line as it is, the later steps too.  The step stands
    after other lines or after an indentation, and the pattern finds it; or
    it starts the document, no later line names the step, and the loop over
    the lines finds it. *)
Theorem updateDeployYml_yarn (before after : list string)
    (indent indent2 : string) :
  allUnits isIndent indent = true →
  allUnits isIndent indent2 = true →
  Forall (fun l => includes l stepName = false) before →
  before ≠ [] ∨ indent ≠ ""
  ∨ Forall (fun l => includes l stepName = false) after →
  let document := workflow before indent (indent2 +:+ "run: npm ci") after in
  let updated :=
    workflow before indent
      (indent2 +:+ "run: yarn install --frozen-lockfile") after in
  getGithubActionsInstallCommand yarn = "yarn install --frozen-lockfile"
  ∧ updateDeployYml_content yarn document = updated
  ∧ (∀ w : world,
       files w !! deployPath = Some document →
       updateDeployYml yarn w
       = (Return (),
          store deployPath updated
            (record (EvWrite deployPath updated)
               (record (EvRead deployPath) w))))
  ∧ (Forall (fun l => includes l nl = false) (before ++ after) →
     split LF document
     = before ++ [indent +:+ stepName; indent2 +:+ "run: npm ci"] ++ after
     ∧ split LF updated
       = before
         ++ [indent +:+ stepName;
             indent2 +:+ "run: yarn install --frozen-lockfile"]
         ++ after).
Proof.
  intros Hindent Hindent2 Hbefore Hstart document updated.
  assert (Hcontent : updateDeployYml_content yarn document = updated).
  { destruct (decide (before ≠ [] ∨ indent ≠ "")) as [Hregex | Hfirst].
    - apply (updateDeployYml_content_step yarn before after indent indent2
               "npm ci"); try done; by apply allUnits_indent_space.
    - destruct Hstart as [? | [? | Hafter]];
        [by destruct Hfirst; left | by destruct Hfirst; right |].
      destruct before; [| by destruct Hfirst; left].
      destruct indent; [| by destruct Hfirst; right].
      by apply (updateDeployYml_content_first yarn after indent2 "npm ci"). }
  split_and!; [done | done | |].
  - intros w Hfile. unfold updateDeployYml.
    rewrite bind_run, readFileSync_run, Hfile.
    rewrite writeFileSync_run, directoryExists_record.
    rewrite directoryExists_file by (by rewrite Hfile).
    by rewrite Hcontent.
  - intros Hlines. split.
    + by apply (workflow_lines before after indent indent2 "npm ci").
    + by apply (workflow_lines before after indent indent2
                  "yarn install --frozen-lockfile").
Qed.

Lemma updateDeployYml_yarn_witness :
  let before := ["jobs:"; "  build:"; "    steps:"] in
  let after := ["      - name: Build"; "        run: npm run build"; ""] in
  let updated :=
    workflow before "      "
      ("        " +:+ "run: yarn install --frozen-lockfile") after in
  workflow before "      " ("        " +:+ "run: npm ci") after
  = sample_workflow
  ∧ updateDeployYml_content yarn sample_workflow = updated
  ∧ updateDeployYml yarn (sample_world [] [])
    = (Return (),
       store deployPath updated
         (record (EvWrite deployPath updated)
            (record (EvRead deployPath) (sample_world [] []))))
  ∧ split LF updated
    = ["jobs:"; "  build:"; "    steps:";
       "      - name: Install dependencies";
       "        run: yarn install --frozen-lockfile";
       "      - name: Build"; "        run: npm run build"; ""].
Proof.
  destruct (updateDeployYml_yarn ["jobs:"; "  build:"; "    steps:"]
              ["      - name: Build"; "        run: npm run build"; ""]
              "      " "        ") as (_ & Hcontent & Hrun & Hlines).
  - reflexivity.
  - reflexivity.
  - repeat constructor.
  - left. discriminate.
  - split_and!; [reflexivity | exact Hcontent | |].
    + apply (Hrun (sample_world [] [])). reflexivity.
    + apply Hlines. repeat constructor.
Defined.

(** C6, the steps that the claim covers and the code misses.  A step with
    a key between its name and its run line keeps the command npm ci: the
    pattern and the loop both ask for the run line right after the name.
    When a step on the first line of the document is followed by a second
    step of the same name, the pattern, which asks for white space before
    the name, rewrites the second one and leaves the first.  When an
    earlier step of the same name runs another command, that step is
    rewritten and the one with npm ci is left. *)
Lemma updateDeployYml_misses_step :
  let between :=
    join nl ["steps:"; "  - name: Install dependencies";
             "    if: always()"; "    run: npm ci"] in
  let second :=
    join nl ["- name: Install dependencies"; "  run: npm ci";
             "- name: Install dependencies"; "  run: npm ci"] in
  let earlier :=
    join nl ["steps:"; "  - name: Install dependencies";
             "    run: make deps"; "  - name: Install dependencies";
             "    run: npm ci"] in
  updateDeployYml_content yarn between = between
  ∧ (∀ w : world,
       files w !! deployPath = Some between →
       updateDeployYml yarn w
       = (Return (),
          store deployPath between
            (record (EvWrite deployPath between)
               (record (EvRead deployPath) w))))
  ∧ updateDeployYml_content yarn second
    = join nl ["- name: Install dependencies"; "  run: npm ci";
               "- name: Install dependencies";
               "  run: yarn install --frozen-lockfile"]
  ∧ updateDeployYml_content yarn earlier
    = join nl ["steps:"; "  - name: Install dependencies";
               "    run: yarn install --frozen-lockfile";
               "  - name: Install dependencies"; "    run: npm ci"].
Proof.
  split_and!; [reflexivity | | reflexivity | reflexivity].
  intros w Hfile. unfold updateDeployYml.
  rewrite bind_run, readFileSync_run, Hfile.
  rewrite writeFileSync_run, directoryExists_record.
  rewrite directoryExists_file by (by rewrite Hfile).
  reflexivity.
Qed.

Lemma written_lookup_ne (fs : gmap string string) (ws : list (string * string))
    (path : string) :
  Forall (fun pc => pc.1 ≠ path) ws → written fs ws !! path = fs !! path.
Proof.
  intros H. revert fs. induction H as [|[p c] ws Hp _ IH]; intros fs; [done |].
  cbn [written foldl] in *. rewrite IH. by apply lookup_insert_ne.
Qed.

(** Where a step of [applyBootstrapChanges] starts: after the line that
    announces it. *)
Lemma effects_log_after (w w1 : world) (ws : list (string * string))
    (cs : list string) (text : string) :
  effects w w1 ws cs → effects w (record (EvLog text) w1) ws cs.
Proof.
  intros E. rewrite <- (app_nil_r ws), <- (app_nil_r cs).
  eapply effects_trans; [apply E | by apply effects_record].
Qed.

Lemma effects_lookup (w w' : world) (ws : list (string * string))
    (cs : list string) (path : string) :
  effects w w' ws cs → Forall (fun pc => pc.1 ≠ path) ws →
  files w' !! path = files w !! path.
Proof.
  intros (_ & _ & _ & -> & _) H. by apply written_lookup_ne.
Qed.

(** [applyBootstrapChanges] up to the write of README.md, when the two
    commands succeed. *)
Lemma applyBootstrapChanges_manifest (options : BootstrapOptions) (w : world) :
  Forall (fun c => is_Some (shell w c)) (setCommands options) →
  ∃ w2,
    effects w w2 [] (setCommands options)
    ∧ applyBootstrapChanges options w
      = (_ ← updateReadme (name options);
         _ ← console_log "  ✓ Updating .env...";
         _ ← updateEnv options;
         _ ← console_log "  ✓ Updating .cursor/worktrees.json...";
         _ ← updateWorktreesJson (packageManager options);
         _ ← console_log "  ✓ Updating .github/workflows/deploy.yml...";
         _ ← updateDeployYml (packageManager options);
         console_log (nl +:+ "✅ Bootstrap complete!" +:+ nl)) w2.
Proof.
  intros Hset. unfold applyBootstrapChanges.
  rewrite bind_run, console_log_run. cbv beta iota.
  rewrite bind_run, console_log_run. cbv beta iota.
  set (w1 := record _ (record _ w)).
  assert (E1 : effects w w1 [] []) by apply effects_logs.
  destruct (updatePackageJson_run options w1) as [w2 H2].
  rewrite bool_decide_eq_true_2 in H2 by done. destruct H2 as [R2 E2].
  rewrite bind_run, R2. cbv beta iota.
  rewrite bind_run, console_log_run. cbv beta iota.
  eexists. split; [| reflexivity].
  apply effects_log_after. by apply (effects_trans _ _ _ [] [] [] _ E1).
Qed.

(** [applyBootstrapChanges] from the write of README.md to the line
    before the write of worktrees.json, when README.md is there. *)
Lemma applyBootstrapChanges_texts (options : BootstrapOptions) (w w2 : world)
    (cs : list string) (readme : string) :
  effects w w2 [] cs → files w !! readmePath = Some readme →
  ∃ w4,
    effects w w4 (take 2 (patches options (files w))) cs
    ∧ (_ ← updateReadme (name options);
       _ ← console_log "  ✓ Updating .env...";
       _ ← updateEnv options;
       _ ← console_log "  ✓ Updating .cursor/worktrees.json...";
       _ ← updateWorktreesJson (packageManager options);
       _ ← console_log "  ✓ Updating .github/workflows/deploy.yml...";
       _ ← updateDeployYml (packageManager options);
       console_log (nl +:+ "✅ Bootstrap complete!" +:+ nl)) w2
      = (_ ← updateWorktreesJson (packageManager options);
         _ ← console_log "  ✓ Updating .github/workflows/deploy.yml...";
         _ ← updateDeployYml (packageManager options);
         console_log (nl +:+ "✅ Bootstrap complete!" +:+ nl)) w4.
Proof.
  intros E2 Hreadme.
  destruct (updateReadme_run (name options) w2) as [w3 H3].
  rewrite (effects_lookup w w2 [] cs readmePath E2), Hreadme in H3
    by constructor.
  destruct H3 as [R3 E3]. rewrite bind_run, R3. cbv beta iota.
  rewrite bind_run, console_log_run. cbv beta iota.
  assert (E3' := effects_log_after _ _ _ _ "  ✓ Updating .env..."
                   (effects_trans _ _ _ _ _ _ _ E2 E3)).
  destruct (updateEnv_run options (record (EvLog "  ✓ Updating .env...") w3))
    as (w4 & R4 & E4).
  rewrite bind_run, R4. cbv beta iota.
  rewrite bind_run, console_log_run. cbv beta iota.
  cbn [files record] in E4.
  rewrite (effects_lookup w w3 _ _ envPath (effects_trans _ _ _ _ _ _ _ E2 E3))
    in E4 by (by repeat constructor).
  assert (E4' := effects_log_after _ _ _ _
                   "  ✓ Updating .cursor/worktrees.json..."
                   (effects_trans _ _ _ _ _ _ _ E3' E4)).
  eexists. split; [| reflexivity].
  unfold patches. rewrite Hreadme. cbn [take default from_option id].
  rewrite !app_nil_r in E4'. exact E4'.
Qed.

(** [applyBootstrapChanges] from the write of README.md to the write of
    deploy.yml, when README.md and the directory .cursor are there. *)
Lemma applyBootstrapChanges_files (options : BootstrapOptions) (w w2 : world)
    (cs : list string) (readme : string) :
  effects w w2 [] cs → files w !! readmePath = Some readme →
  directoryExists w ".cursor" = true →
  ∃ w5,
    effects w w5 (take 3 (patches options (files w))) cs
    ∧ (_ ← updateReadme (name options);
       _ ← console_log "  ✓ Updating .env...";
       _ ← updateEnv options;
       _ ← console_log "  ✓ Updating .cursor/worktrees.json...";
       _ ← updateWorktreesJson (packageManager options);
       _ ← console_log "  ✓ Updating .github/workflows/deploy.yml...";
       _ ← updateDeployYml (packageManager options);
       console_log (nl +:+ "✅ Bootstrap complete!" +:+ nl)) w2
      = (_ ← updateDeployYml (packageManager options);
         console_log (nl +:+ "✅ Bootstrap complete!" +:+ nl)) w5.
Proof.
  intros E2 Hreadme Hcursor.
  destruct (applyBootstrapChanges_texts options w w2 cs readme E2 Hreadme)
    as (w4 & E4 & ->).
  rewrite bind_run, updateWorktreesJson_run.
  rewrite (directoryExists_effects _ _ _ _ _ E4 Hcursor). cbv beta iota.
  rewrite bind_run, console_log_run. cbv beta iota.
  eexists. split; [| reflexivity].
  apply effects_log_after.
  assert (E5 := effects_trans _ _ _ _ _ _ _ E4
                  (effects_write w4 worktreesPath
                     (worktreesJson (packageManager options)))).
  unfold patches in *. cbn [take default from_option id] in *.
  by rewrite app_nil_r in E5.
Qed.

Lemma getCurrentPackageJsonValues_ok (w : world) (n d : string) :
  shell w "npm pkg get name" = Some n →
  shell w "npm pkg get description" = Some d →
  getCurrentPackageJsonValues w
  = (Return (extractNpmPkgValue n, extractNpmPkgValue d),
     record (EvExec "npm pkg get description")
       (record (EvExec "npm pkg get name") w)).
Proof.
  intros Hn Hd. unfold getCurrentPackageJsonValues, try_catch.
  rewrite bind_run, execSync_run, Hn, bind_run, execSync_run.
  cbn [shell record]. by rewrite Hd.
Qed.

Lemma effects_get (w : world) :
  effects w
    (record (EvExec "npm pkg get description")
       (record (EvExec "npm pkg get name") w))
    [] getCommands.
Proof.
  eapply (effects_trans _ _ _ [] [] [_] [_]); apply effects_exec.
Qed.

(** A run that the arguments make unattended, when the manifest can be
    read: the two values are read twice, no question is asked, and the
    changes are applied to the options that the arguments and the manifest
    give. *)
Lemma run_unattended (w : world) (cliArgs : PartialOptions) (n d : string) :
  parseArgs (process_argv w) = Parsed cliArgs →
  cli_interactive cliArgs = Some false →
  shell w "npm pkg get name" = Some n →
  shell w "npm pkg get description" = Some d →
  let options :=
    mergeOptions cliArgs (extractNpmPkgValue n, extractNpmPkgValue d) in
  ∃ w2,
    effects w w2 [] (getCommands ++ getCommands)
    ∧ run w
      = match applyBootstrapChanges options w2 with
        | (Return _, w') => (Exited 0, record EvClose w')
        | (Throw error, w') =>
            (Exited 1,
             record
               (EvError (nl +:+ "❌ Error during bootstrap: " +:+ error)) w')
        | (Exit code, w') => (Exited code, w')
        | (Waiting, w') => (Hangs, w')
        | (Unfinished, w') => (Cut, w')
        end.
Proof.
  intros Hparse Hoff Hn Hd options.
  set (w1 := record (EvExec "npm pkg get description")
               (record (EvExec "npm pkg get name") w)).
  set (w2 := record (EvExec "npm pkg get description")
               (record (EvExec "npm pkg get name") w1)).
  exists w2. split.
  { apply (effects_trans w w1 w2 [] [] getCommands getCommands);
      apply effects_get. }
  unfold run, main. rewrite bind_run. unfold argv at 1. rewrite Hparse.
  unfold try_finally, try_catch.
  rewrite bind_run, (getCurrentPackageJsonValues_ok w n d Hn Hd).
  fold w1. rewrite bind_run.
  assert (Hcollect : collectOptions cliArgs w1 = (Return options, w2)).
  { unfold collectOptions.
    rewrite bind_run, (getCurrentPackageJsonValues_ok w1 n d Hn Hd).
    fold w2 options. rewrite bind_run. unfold argv.
    unfold shouldSkipInteractive.
    by rewrite (bool_decide_eq_true_2 _ Hoff). }
  rewrite Hcollect.
  assert (Hint : interactive options = false).
  { unfold options. by rewrite mergeOptions_interactive, Hoff. }
  rewrite Hint. rewrite bind_run, mret_run. cbn [negb].
  destruct (applyBootstrapChanges options w2) as [[[]| | | |] w']; try done.
Qed.

Lemma effects_shell (w w' : world) (ws : list (string * string))
    (cs : list string) :
  effects w w' ws cs → shell w' = shell w.
Proof. by intros (_ & ? & _). Qed.

(** [applyBootstrapChanges] when the two commands succeed and the two
    files that are read and the directory .cursor are there. *)
Lemma applyBootstrapChanges_ok (options : BootstrapOptions) (w w2 : world)
    (cs : list string) (readme deploy : string) :
  effects w w2 [] cs →
  Forall (fun c => is_Some (shell w c)) (setCommands options) →
  files w !! readmePath = Some readme →
  files w !! deployPath = Some deploy →
  directoryExists w ".cursor" = true →
  ∃ w',
    applyBootstrapChanges options w2 = (Return (), w')
    ∧ effects w w' (patches options (files w)) (cs ++ setCommands options).
Proof.
  intros E2 Hset Hreadme Hdeploy Hcursor.
  destruct (applyBootstrapChanges_manifest options w2) as (w3 & E3 & ->).
  { by rewrite (effects_shell _ _ _ _ E2). }
  assert (E3' := effects_trans _ _ _ _ _ _ _ E2 E3).
  destruct (applyBootstrapChanges_files options w w3 _ readme E3' Hreadme
              Hcursor) as (w5 & E5 & ->).
  destruct (updateDeployYml_run (packageManager options) w5) as [w6 H6].
  rewrite (effects_lookup _ _ _ _ deployPath E5), Hdeploy in H6
    by (unfold patches; by repeat constructor).
  destruct H6 as [R6 E6]. rewrite bind_run, R6, console_log_run.
  eexists. split; [reflexivity |].
  apply effects_log_after.
  assert (E := effects_trans _ _ _ _ _ _ _ E5 E6).
  unfold patches in *. rewrite Hdeploy. cbn [take default from_option id] in *.
  by rewrite app_nil_r in E.
Qed.

(** X19. An unattended run in a project where the manifest can be read and
    updated and README.md, the workflow and the directory .cursor are
    there ends with code 0 after it has asked nothing, run the two reading
    commands twice and the two updating commands once, and written
    README.md, .env, worktrees.json and deploy.yml, in that order, each
    from what the file held at the start; the stream of the prompts is
    closed last. *)
Theorem unattended_run_applies (w : world) (cliArgs : PartialOptions)
    (n d readme deploy : string) :
  parseArgs (process_argv w) = Parsed cliArgs →
  cli_interactive cliArgs = Some false →
  shell w "npm pkg get name" = Some n →
  shell w "npm pkg get description" = Some d →
  let options :=
    mergeOptions cliArgs (extractNpmPkgValue n, extractNpmPkgValue d) in
  Forall (fun c => is_Some (shell w c)) (setCommands options) →
  files w !! readmePath = Some readme →
  files w !! deployPath = Some deploy →
  directoryExists w ".cursor" = true →
  ∃ w1,
    run w = (Exited 0, record EvClose w1)
    ∧ effects w w1 (patches options (files w))
        (getCommands ++ getCommands ++ setCommands options).
Proof.
  intros Hparse Hoff Hn Hd options Hset Hreadme Hdeploy Hcursor.
  destruct (run_unattended w cliArgs n d Hparse Hoff Hn Hd)
    as (w2 & E2 & ->). fold options.
  destruct (applyBootstrapChanges_ok options w w2 _ readme deploy E2 Hset
              Hreadme Hdeploy Hcursor) as (w' & -> & E).
  exists w'. split; [done |]. by rewrite <- app_assoc in E.
Qed.

Lemma unattended_run_applies_witness :
  let w := sample_world ["--name"; "demo"; "--no-interactive"] [] in
  let options := {| name := "demo"; description := "A starter template.";
                    packageManager := npm; interactive := false |} in
  ∃ w1,
    run w = (Exited 0, record EvClose w1)
    ∧ effects w w1 (patches options (files w))
        (getCommands ++ getCommands ++ setCommands options).
Proof.
  apply (unattended_run_applies
           (sample_world ["--name"; "demo"; "--no-interactive"] [])
           (set_interactive (set_name no_options "demo") false)
           (quote +:+ "vite-react-ts-template" +:+ quote +:+ nl)
           (quote +:+ "A starter template." +:+ quote +:+ nl)
           ("# vite-react-ts-template" +:+ nl) sample_workflow);
    try reflexivity.
  by repeat constructor.
Defined.

(** X20. An unattended run in a project without README.md ends with code 1
    after the line of the error: the manifest has been updated by then,
    but no file has been written, and the stream of the prompts has not
    been closed, since the process is left inside the handler. *)
Theorem missing_readme_stops_run (w : world) (cliArgs : PartialOptions)
    (n d : string) :
  parseArgs (process_argv w) = Parsed cliArgs →
  cli_interactive cliArgs = Some false →
  shell w "npm pkg get name" = Some n →
  shell w "npm pkg get description" = Some d →
  let options :=
    mergeOptions cliArgs (extractNpmPkgValue n, extractNpmPkgValue d) in
  Forall (fun c => is_Some (shell w c)) (setCommands options) →
  files w !! readmePath = None →
  ∃ w1 error,
    run w
    = (Exited 1,
       record (EvError (nl +:+ "❌ Error during bootstrap: " +:+ error)) w1)
    ∧ effects w w1 [] (getCommands ++ getCommands ++ setCommands options)
    ∧ files (run w).2 = files w.
Proof.
  intros Hparse Hoff Hn Hd options Hset Hreadme.
  destruct (run_unattended w cliArgs n d Hparse Hoff Hn Hd)
    as (w2 & E2 & ->). fold options.
  destruct (applyBootstrapChanges_manifest options w2) as (w3 & E3 & ->).
  { by rewrite (effects_shell _ _ _ _ E2). }
  assert (E3' := effects_trans _ _ _ _ _ _ _ E2 E3).
  destruct (updateReadme_run (name options) w3) as [w4 H4].
  rewrite (effects_lookup _ _ _ _ readmePath E3'), Hreadme in H4
    by constructor.
  destruct H4 as [[error R4] E4]. rewrite bind_run, R4.
  assert (E := effects_trans _ _ _ _ _ _ _ E3' E4).
  rewrite !app_nil_r, <- app_assoc in E. cbn [app] in E.
  exists w4, error. split_and!; [done | done |].
  cbn [snd files record]. by apply (effects_files _ _ _ E).
Qed.

Lemma missing_readme_stops_run_witness :
  let w := sample_world_without readmePath ["--no-interactive"] in
  let options := {| name := "vite-react-ts-template";
                    description := "A starter template.";
                    packageManager := npm; interactive := false |} in
  ∃ w1 error,
    run w
    = (Exited 1,
       record (EvError (nl +:+ "❌ Error during bootstrap: " +:+ error)) w1)
    ∧ effects w w1 [] (getCommands ++ getCommands ++ setCommands options)
    ∧ files (run w).2 = files w.
Proof.
  apply (missing_readme_stops_run
           (sample_world_without readmePath ["--no-interactive"])
           (set_interactive no_options false)
           (quote +:+ "vite-react-ts-template" +:+ quote +:+ nl)
           (quote +:+ "A starter template." +:+ quote +:+ nl));
    try reflexivity.
  by repeat constructor.
Defined.

(** X21. An unattended run in a project without the workflow, where the
    directory .cursor is there, ends with code 1 after the line of the
    error, and what was done before stays done: the manifest has been
    updated and README.md, .env and worktrees.json have been written;
    nothing is rolled back. *)
Theorem missing_workflow_leaves_partial_result (w : world)
    (cliArgs : PartialOptions) (n d readme : string) :
  parseArgs (process_argv w) = Parsed cliArgs →
  cli_interactive cliArgs = Some false →
  shell w "npm pkg get name" = Some n →
  shell w "npm pkg get description" = Some d →
  let options :=
    mergeOptions cliArgs (extractNpmPkgValue n, extractNpmPkgValue d) in
  Forall (fun c => is_Some (shell w c)) (setCommands options) →
  files w !! readmePath = Some readme →
  files w !! deployPath = None →
  directoryExists w ".cursor" = true →
  ∃ w1 error,
    run w
    = (Exited 1,
       record (EvError (nl +:+ "❌ Error during bootstrap: " +:+ error)) w1)
    ∧ effects w w1 (take 3 (patches options (files w)))
        (getCommands ++ getCommands ++ setCommands options).
Proof.
  intros Hparse Hoff Hn Hd options Hset Hreadme Hdeploy Hcursor.
  destruct (run_unattended w cliArgs n d Hparse Hoff Hn Hd)
    as (w2 & E2 & ->). fold options.
  destruct (applyBootstrapChanges_manifest options w2) as (w3 & E3 & ->).
  { by rewrite (effects_shell _ _ _ _ E2). }
  assert (E3' := effects_trans _ _ _ _ _ _ _ E2 E3).
  destruct (applyBootstrapChanges_files options w w3 _ readme E3' Hreadme
              Hcursor) as (w5 & E5 & ->).
  destruct (updateDeployYml_run (packageManager options) w5) as [w6 H6].
  rewrite (effects_lookup _ _ _ _ deployPath E5), Hdeploy in H6
    by (unfold patches; by repeat constructor).
  destruct H6 as [[error R6] E6]. rewrite bind_run, R6.
  assert (E := effects_trans _ _ _ _ _ _ _ E5 E6).
  rewrite !app_nil_r, <- app_assoc in E.
  by exists w6, error.
Qed.

Lemma missing_workflow_leaves_partial_result_witness :
  let w := sample_world_without deployPath ["--no-interactive"] in
  let options := {| name := "vite-react-ts-template";
                    description := "A starter template.";
                    packageManager := npm; interactive := false |} in
  ∃ w1 error,
    run w
    = (Exited 1,
       record (EvError (nl +:+ "❌ Error during bootstrap: " +:+ error)) w1)
    ∧ effects w w1 (take 3 (patches options (files w)))
        (getCommands ++ getCommands ++ setCommands options).
Proof.
  apply (missing_workflow_leaves_partial_result
           (sample_world_without deployPath ["--no-interactive"])
           (set_interactive no_options false)
           (quote +:+ "vite-react-ts-template" +:+ quote +:+ nl)
           (quote +:+ "A starter template." +:+ quote +:+ nl)
           ("# vite-react-ts-template" +:+ nl));
    try reflexivity.
  by repeat constructor.
Defined.



(** X23. An interactive run, answered and confirmed, in a project where
    README.md, the workflow and the directory .cursor are there, applies
    the options that the answers give: the three answers are read after
    the values of the arguments and of the manifest have been merged, an
    answer to the confirmation that is neither n nor no (the empty answer
    too) lets the changes be applied, and the four files are written from
    what they held, for the options after the answers. *)
Theorem interactive_run_applies (w : world) (cliArgs : PartialOptions)
    (n d readme deploy a1 a2 a3 answer : string) (rest : list string) :
  parseArgs (process_argv w) = Parsed cliArgs →
  cli_interactive cliArgs ≠ Some false →
  shouldSkipInteractive cliArgs (process_argv w) = false →
  shell w "npm pkg get name" = Some n →
  shell w "npm pkg get description" = Some d →
  input w = a1 :: a2 :: a3 :: answer :: rest →
  confirms answer = true →
  let options :=
    answered
      (mergeOptions cliArgs (extractNpmPkgValue n, extractNpmPkgValue d))
      a1 a2 a3 in
  Forall (fun c => is_Some (shell w c)) (setCommands options) →
  files w !! readmePath = Some readme →
  files w !! deployPath = Some deploy →
  directoryExists w ".cursor" = true →
  ∃ w0 w1,
    run w = (Exited 0, record EvClose w1)
    ∧ files w0 = files w ∧ input w0 = rest
    ∧ last (trace w0) = Some (EvQuestion confirmQuery)
    ∧ effects w0 w1 (patches options (files w)) (setCommands options).
Proof.
  intros Hparse Hon Hskip Hn Hd Hin Hyes options Hset Hreadme Hdeploy Hcursor.
  set (pkg := (extractNpmPkgValue n, extractNpmPkgValue d)).
  set (w1 := record (EvExec "npm pkg get description")
               (record (EvExec "npm pkg get name") w)).
  set (w2 := record (EvExec "npm pkg get description")
               (record (EvExec "npm pkg get name") w1)).
  assert (Hmerged : interactive (mergeOptions cliArgs pkg) = true).
  { rewrite mergeOptions_interactive.
    by destruct (cli_interactive cliArgs) as [[]|]. }
  destruct (promptForUserInput_run (mergeOptions cliArgs pkg) w2 a1 a2 a3
              (answer :: rest) Hin)
    as (w3 & Hprompt & Hin3 & Hfiles3 & Hargv3 & Hshell3 & Hdirs3 & _).
  assert (Hcollect : collectOptions cliArgs w1 = (Return options, w3)).
  { unfold collectOptions.
    rewrite bind_run, (getCurrentPackageJsonValues_ok w1 n d Hn Hd).
    fold w2 pkg. rewrite bind_run. unfold argv.
    change (process_argv w2) with (process_argv w).
    by rewrite Hskip, Hmerged. }
  destruct (showSummary_quiet options pkg w3)
    as (w4 & evs4 & Hsummary & (Hargv4 & Hshell4 & Hfiles4 & Hdirs4 & _) & _
        & Hin4).
  destruct (promptUser_answer confirmQuery w4 answer rest)
    as (w5 & Hconfirm & (Hargv5 & Hshell5 & Hfiles5 & Hdirs5 & Htrace5)
        & Hin5);
    [by rewrite Hin4, Hin3 |].
  assert (Hfiles : files w5 = files w) by (by rewrite Hfiles5, Hfiles4, Hfiles3).
  assert (Hshell : shell w5 = shell w) by (by rewrite Hshell5, Hshell4, Hshell3).
  assert (Hdirs : dirs w5 = dirs w) by (by rewrite Hdirs5, Hdirs4, Hdirs3).
  destruct (applyBootstrapChanges_ok options w5 w5 [] readme deploy
              (effects_refl w5)) as (w6 & Happly & E);
    [by rewrite Hshell | by rewrite Hfiles | by rewrite Hfiles
    | by rewrite (directoryExists_same w w5) |].
  exists w5, w6. split_and!; [| done | done | | by rewrite <- Hfiles].
  - unfold run, main. rewrite bind_run. unfold argv at 1. rewrite Hparse.
    unfold try_finally, try_catch.
    rewrite bind_run, (getCurrentPackageJsonValues_ok w n d Hn Hd).
    fold w1 pkg. rewrite bind_run, Hcollect.
    assert (interactive options = true) as -> by done.
    rewrite bind_run, bind_run, Hsummary. unfold confirmChanges.
    rewrite bind_run, Hconfirm, mret_run, Hyes. cbn [negb].
    by rewrite Happly.
  - by rewrite Htrace5, last_snoc.
Qed.

Lemma interactive_run_applies_witness :
  let w := sample_world [] [" demo app "; ""; "pnpm"; ""; "later"] in
  let options := {| name := "demo app"; description := "A starter template.";
                    packageManager := pnpm; interactive := true |} in
  ∃ w0 w1,
    run w = (Exited 0, record EvClose w1)
    ∧ files w0 = files w ∧ input w0 = ["later"]
    ∧ last (trace w0) = Some (EvQuestion confirmQuery)
    ∧ effects w0 w1 (patches options (files w)) (setCommands options).
Proof.
  apply (interactive_run_applies
           (sample_world [] [" demo app "; ""; "pnpm"; ""; "later"])
           no_options
           (quote +:+ "vite-react-ts-template" +:+ quote +:+ nl)
           (quote +:+ "A starter template." +:+ quote +:+ nl)
           ("# vite-react-ts-template" +:+ nl) sample_workflow
           " demo app " "" "pnpm" "" ["later"]);
    try reflexivity; try done.
  by repeat constructor.
Defined.

(** ** What [readEnvFile] returns *)

Lemma foldl_assign_last (key : string) (ls : list string) :
  ∀ env : gmap string string,
    foldl assignEnvLine env ls !! key
    = match last (omap (valueFor key) ls) with
      | Some v => Some v
      | None => env !! key
      end.
Proof.
  induction ls as [|l ls IH] using rev_ind; intros env; [done |].
  rewrite foldl_app, omap_app. cbn [foldl omap list_omap].
  rewrite assignEnvLine_lookup.
  destruct (valueFor key l) as [v|].
  - by rewrite last_snoc.
  - by rewrite app_nil_r, IH.
Qed.

(** X24. [readEnvFile] never throws and writes nothing.  Without the file
    it returns the empty object; with it, the object gives each key
    (__proto__ aside) the value of the last line of the file that
    [parseEnvLine] reads as that key, so that of two lines for one key the
    later one counts. *)
Theorem readEnvFile_result (w : world) :
  ∃ w',
    readEnvFile w
    = (Return
         match files w !! envPath with
         | Some content => readEnvFile_map content
         | None => ∅
         end,
       w')
    ∧ effects w w' [] []
    ∧ ∀ content key,
        key ≠ "__proto__" →
        readEnvFile_map content !! key
        = last (omap (valueFor key) (split LF content)).
Proof.
  assert (Hlast : ∀ content key,
            key ≠ "__proto__" →
            readEnvFile_map content !! key
            = last (omap (valueFor key) (split LF content))).
  { intros content key _. unfold readEnvFile_map.
    rewrite foldl_assign_last, lookup_empty. by destruct (last _). }
  unfold readEnvFile, try_catch. rewrite bind_run, existsSync_run.
  destruct (files w !! envPath) as [content|] eqn:Hfile.
  - rewrite bool_decide_eq_true_2 by done. cbn [negb].
    rewrite bind_run, readFileSync_run. cbn [files record]. rewrite Hfile.
    eexists. split; [reflexivity |]. split; [| done].
    eapply (effects_trans _ _ _ [] [] [] []); by apply effects_record.
  - rewrite bool_decide_eq_false_2 by (by intros [? ?]). cbn [negb].
    eexists. split; [reflexivity |]. split; [| done].
    by apply effects_record.
Qed.

(** ** A project without the directory .cursor *)

Lemma written_is_Some_inv (fs : gmap string string)
    (ws : list (string * string)) (path : string) :
  is_Some (written fs ws !! path) →
  is_Some (fs !! path) ∨ path ∈ ws.*1.
Proof.
  revert fs. induction ws as [|[p c] ws IH]; intros fs; [by left |].
  cbn [written foldl fmap list_fmap fst]. intros H.
  destruct (IH _ H) as [Hfs | Hin].
  - apply lookup_insert_is_Some in Hfs as [<- | [_ ?]]; [| by left].
    right. apply list_elem_of_here.
  - right. by apply list_elem_of_further.
Qed.

(** A directory that is not there is not there after writes to files that
    are not below it. *)
Lemma directoryExists_absent (w w' : world) (ws : list (string * string))
    (cs : list string) (dir : string) :
  effects w w' ws cs → directoryExists w dir = false →
  Forall (fun pc => startsWith pc.1 (dir +:+ "/") = false) ws →
  directoryExists w' dir = false.
Proof.
  intros (_ & _ & _ & Hfiles & Hdirs & _) Hno Hws.
  destruct (directoryExists w' dir) eqn:Hyes; [| done].
  unfold directoryExists in *. rewrite Hdirs in Hyes.
  apply orb_false_iff in Hno as [Hno Hfile]. rewrite Hno in Hyes.
  apply existsb_exists in Hyes as (path & Hin & Hpath).
  apply list_elem_of_In, elem_of_elements, elem_of_dom in Hin.
  rewrite Hfiles in Hin.
  destruct (written_is_Some_inv _ _ _ Hin) as [Hfs | Hw].
  - assert (existsb (fun path => startsWith path (dir +:+ "/"))
              (elements (dom (files w))) = true); [| congruence].
    apply existsb_exists. exists path. split; [| done].
    by apply list_elem_of_In, elem_of_elements, elem_of_dom.
  - apply list_elem_of_fmap in Hw as ([p c] & -> & Hpc).
    rewrite Forall_forall in Hws. specialize (Hws _ Hpc). simpl in *.
    congruence.
Qed.

(** X25. An unattended run in a project that has README.md but not the
    directory .cursor ends with code 1 after the line of the error: the
    write of worktrees.json throws.  By then the manifest has been
    updated and README.md and .env have been written; worktrees.json is
    not made and the workflow is as it was. *)
Theorem missing_directory_stops_run (w : world) (cliArgs : PartialOptions)
    (n d readme : string) :
  parseArgs (process_argv w) = Parsed cliArgs →
  cli_interactive cliArgs = Some false →
  shell w "npm pkg get name" = Some n →
  shell w "npm pkg get description" = Some d →
  let options :=
    mergeOptions cliArgs (extractNpmPkgValue n, extractNpmPkgValue d) in
  Forall (fun c => is_Some (shell w c)) (setCommands options) →
  files w !! readmePath = Some readme →
  directoryExists w ".cursor" = false →
  ∃ w1 error,
    run w
    = (Exited 1,
       record (EvError (nl +:+ "❌ Error during bootstrap: " +:+ error))
         (record
            (EvWrite worktreesPath (worktreesJson (packageManager options)))
            w1))
    ∧ effects w w1 (take 2 (patches options (files w)))
        (getCommands ++ getCommands ++ setCommands options)
    ∧ files (run w).2 !! worktreesPath = None
    ∧ files (run w).2 !! deployPath = files w !! deployPath.
Proof.
  intros Hparse Hoff Hn Hd options Hset Hreadme Hcursor.
  destruct (run_unattended w cliArgs n d Hparse Hoff Hn Hd)
    as (w2 & E2 & ->). fold options.
  destruct (applyBootstrapChanges_manifest options w2) as (w3 & E3 & ->).
  { by rewrite (effects_shell _ _ _ _ E2). }
  assert (E3' := effects_trans _ _ _ _ _ _ _ E2 E3).
  destruct (applyBootstrapChanges_texts options w w3 _ readme E3' Hreadme)
    as (w4 & E4 & ->).
  rewrite bind_run, updateWorktreesJson_run.
  rewrite (directoryExists_absent _ _ _ _ _ E4 Hcursor)
    by (unfold patches; by repeat constructor).
  rewrite <- app_assoc in E4.
  exists w4. eexists. split_and!; [reflexivity | done | |].
  - cbn [snd files record].
    rewrite (effects_lookup _ _ _ _ worktreesPath E4)
      by (unfold patches; by repeat constructor).
    destruct (files w !! worktreesPath) eqn:Hfile; [| done].
    assert (Hthere : directoryExists w ".cursor" = true)
      by (apply (directoryExists_file w worktreesPath); by rewrite Hfile).
    congruence.
  - cbn [snd files record].
    by rewrite (effects_lookup _ _ _ _ deployPath E4)
      by (unfold patches; by repeat constructor).
Qed.

Lemma missing_directory_stops_run_witness :
  let w := sample_world_without_directory ".cursor" ["--no-interactive"] in
  let options := {| name := "vite-react-ts-template";
                    description := "A starter template.";
                    packageManager := npm; interactive := false |} in
  ∃ w1 error,
    run w
    = (Exited 1,
       record (EvError (nl +:+ "❌ Error during bootstrap: " +:+ error))
         (record (EvWrite worktreesPath (worktreesJson npm)) w1))
    ∧ effects w w1 (take 2 (patches options (files w)))
        (getCommands ++ getCommands ++ setCommands options)
    ∧ files (run w).2 !! worktreesPath = None
    ∧ files (run w).2 !! deployPath = files w !! deployPath.
Proof.
  apply (missing_directory_stops_run
           (sample_world_without_directory ".cursor" ["--no-interactive"])
           (set_interactive no_options false)
           (quote +:+ "vite-react-ts-template" +:+ quote +:+ nl)
           (quote +:+ "A starter template." +:+ quote +:+ nl)
           ("# vite-react-ts-template" +:+ nl));
    try reflexivity.
  by repeat constructor.
Defined.

(** ** The line feeds at the end of the .env file *)

Lemma length_newlines (k : nat) : String.length (newlines k) = k.
Proof. induction k as [|k IH]; [done |]. simpl. by rewrite IH. Qed.

Lemma newlines_snoc (k : nat) : newlines (S k) = newlines k +:+ nl.
Proof.
  induction k as [|k IH]; [done |].
  change (newlines (S (S k))) with (nl +:+ newlines (S k)).
  rewrite IH at 1. change (newlines (S k)) with (nl +:+ newlines k).
  by rewrite sapp_assoc.
Qed.

Lemma trailingNewlines_newlines (k : nat) : trailingNewlines (newlines k) = k.
Proof.
  induction k as [|k IH]; [done |].
  change (newlines (S k)) with (String LF (newlines k)).
  cbn [trailingNewlines]. rewrite IH, length_newlines, Nat.eqb_refl.
  done.
Qed.

Lemma trailingNewlines_le (s : string) :
  (trailingNewlines s ≤ String.length s)%nat.
Proof.
  induction s as [|c s IH]; [done |]. cbn [trailingNewlines String.length].
  destruct (_ && _); lia.
Qed.

(** A text that does not end with a line feed, and [k] line feeds after
    it, end with [k] line feeds. *)
Lemma trailingNewlines_app (body : string) (k : nat) :
  endsWith body nl = false →
  trailingNewlines (body +:+ newlines k) = k.
Proof.
  induction body as [|c body IH]; intros Hbody.
  - apply trailingNewlines_newlines.
  - rewrite sapp_cons. cbn [trailingNewlines].
    cbn [endsWith] in Hbody. apply orb_false_iff in Hbody as [Hc Hrest].
    destruct body as [|d body].
    + cbn [String.append]. rewrite trailingNewlines_newlines.
      replace (Ascii.eqb c LF) with false; [done |].
      symmetry. apply Ascii.eqb_neq. intros ->. done.
    + rewrite IH by done. rewrite length_sapp, length_newlines.
      replace (k =? String.length (String d body) + k)%nat with false;
        [by rewrite andb_false_r |].
      symmetry. apply Nat.eqb_neq. simpl. lia.
Qed.

(** Every text is a text that does not end with a line feed, and the line
    feeds that it ends with. *)
Lemma trailingNewlines_body (s : string) :
  ∃ body,
    s = body +:+ newlines (trailingNewlines s) ∧ endsWith body nl = false.
Proof.
  induction s as [|c s (body & Hs & Hbody)]; [by exists "" |].
  cbn [trailingNewlines].
  destruct (Ascii.eqb_spec c LF) as [-> | Hc]; cbn [andb].
  - destruct (Nat.eqb_spec (trailingNewlines s) (String.length s))
      as [Hall | Hsome].
    + exists "". split; [| done].
      assert (body = "") as ->.
      { assert (Hlen := f_equal String.length Hs).
        rewrite length_sapp, length_newlines in Hlen.
        destruct body; [done | simpl in Hlen; lia]. }
      simpl in Hs. by rewrite Hs at 1.
    + exists (String LF body). split; [by rewrite sapp_cons, <- Hs |].
      cbn [endsWith]. rewrite Hbody, orb_false_r.
      destruct body as [|d body]; [| done].
      simpl in Hs. destruct Hsome.
      rewrite Hs at 2. by rewrite length_newlines.
  - exists (String c body). split; [by rewrite sapp_cons, <- Hs |].
    cbn [endsWith]. rewrite Hbody, orb_false_r.
    destruct body as [|d body]; [| by simpl; destruct (Ascii.eqb c LF)].
    simpl. by apply Ascii.eqb_neq in Hc as ->.
Qed.

Lemma split_snoc_nl (s : string) : split LF (s +:+ nl) = split LF s ++ [""].
Proof.
  induction s as [|c s IH]; [done |]. rewrite sapp_cons. cbn [split].
  rewrite IH. destruct (Ascii.eqb c LF); [done |].
  destruct (split LF s) as [|h t] eqn:Hs;
    [by destruct (split_not_nil LF s) | done].
Qed.

Lemma split_newlines (body : string) (k : nat) :
  split LF (body +:+ newlines k) = split LF body ++ replicate k "".
Proof.
  revert body. induction k as [|k IH]; intros body.
  - by rewrite sapp_nil_r, app_nil_r.
  - change (newlines (S k)) with (nl +:+ newlines k).
    rewrite <- sapp_assoc, IH, split_snoc_nl, <- app_assoc. done.
Qed.

Lemma join_newlines (ls : list string) (k : nat) :
  ls ≠ [] → join nl (ls ++ replicate k "") = join nl ls +:+ newlines k.
Proof.
  revert ls. induction k as [|k IH]; intros ls Hne.
  - by rewrite app_nil_r, sapp_nil_r.
  - change (replicate (S k) "") with ([""] ++ replicate k "").
    rewrite app_assoc, IH by (by destruct ls).
    rewrite join_app by done.
    change (join nl [""]) with "". by rewrite sapp_nil_r, sapp_assoc.
Qed.

(** The lines of a text that is not empty and does not end with a line
    feed: the last one is not empty and does not end with a line feed. *)
Lemma split_last_line (body : string) :
  body ≠ "" → endsWith body nl = false →
  ∃ front l, split LF body = front ++ [l] ∧ l ≠ "" ∧ endsWith l nl = false.
Proof.
  intros Hne Hbody.
  destruct (split LF body) as [|h t] eqn:Hs using rev_ind;
    [by destruct (split_not_nil LF body) |].
  clear IHt. exists t, h. split; [done |].
  assert (Hj := join_split body). rewrite Hs in Hj.
  destruct (decide (h = "")) as [-> | Hh].
  - destruct t as [|x t]; [by destruct Hne |].
    rewrite join_app in Hj by done. change (join nl [""]) with "" in Hj.
    rewrite sapp_nil_r in Hj. rewrite <- Hj in Hbody.
    by rewrite endsWith_nl_snoc in Hbody.
  - split; [done |]. rewrite <- Hj in Hbody.
    by rewrite endsWith_join_snoc in Hbody.
Qed.

(** The array of a file that assigns both keys: the lines before the
    empty lines at the end, of which the last is not empty and does not end
    with a line feed, and the empty lines at the end. *)
Lemma updatedLines_newlines (body : string) (k : nat)
    (env : gmap string string) :
  let content := body +:+ newlines k in
  endsWith body nl = false →
  assigned (split LF content) ENV_TITLE = true →
  endsWith (envValue env ENV_TITLE) nl = false →
  endsWith (envValue env ENV_DESCRIPTION) nl = false →
  ∃ front l,
    updatedLines content env = (front ++ [l]) ++ replicate k ""
    ∧ l ≠ "" ∧ endsWith l nl = false.
Proof.
  intros content Hbody Ht Hvt Hvd.
  assert (Hlines : split LF content = split LF body ++ replicate k "")
    by apply split_newlines.
  assert (Hne : body ≠ "").
  { intros ->. apply assigned_true in Ht as (i & l & Hi & Hl).
    rewrite Hlines in Hi. change (split LF "") with ([""] ++ []) in Hi.
    rewrite <- app_assoc in Hi.
    change ([""] ++ [] ++ replicate k "") with (replicate (S k) "") in Hi.
    apply lookup_replicate in Hi as [-> _]. done. }
  destruct (split_last_line body Hne Hbody) as (front & l & Hs & Hl & Hle).
  rewrite Hs in Hlines.
  destruct (updatedLines_spec content env) as (Hlen & Hkeep & _ & Hfrom & _).
  rewrite Hlines in Hlen, Hkeep, Hfrom.
  set (out := updatedLines content env) in *.
  set (n := length front).
  assert (Hn : (n < length out)%nat).
  { rewrite Hlen, !length_app. simpl. lia. }
  destruct (lookup_lt_is_Some_2 out n Hn) as [l' Hl'].
  exists (take n out), l'.
  assert (Hrest : drop (S n) out = replicate k "").
  { apply list_eq. intros i. rewrite lookup_drop.
    destruct (decide (i < k)%nat) as [Hi | Hi].
    - rewrite (lookup_replicate_2 _ _ _ Hi). apply Hkeep; [| done].
      rewrite lookup_app_r by (rewrite length_app; simpl; lia).
      rewrite length_app. simpl.
      apply lookup_replicate_2. unfold n. lia.
    - transitivity (@None string); [| symmetry]; apply lookup_ge_None_2.
      + rewrite Hlen, !length_app, length_replicate. simpl. unfold n. lia.
      + rewrite length_replicate. lia. }
  split_and!.
  - rewrite <- Hrest, <- app_assoc. symmetry.
    by apply take_drop_middle.
  - destruct (Hfrom n l' Hl') as [H | (l0 & _ & _ & [-> | ->])].
    + rewrite lookup_app_l in H by (rewrite length_app; simpl; unfold n; lia).
      rewrite lookup_app_r in H by (unfold n; lia).
      replace (n - length front)%nat with 0%nat in H by (unfold n; lia).
      by injection H as <-.
    + done.
    + done.
  - destruct (Hfrom n l' Hl') as [H | (l0 & _ & _ & [-> | ->])].
    + rewrite lookup_app_l in H by (rewrite length_app; simpl; unfold n; lia).
      rewrite lookup_app_r in H by (unfold n; lia).
      replace (n - length front)%nat with 0%nat in H by (unfold n; lia).
      by injection H as <-.
    + by rewrite endsWith_envLine_title.
    + by rewrite endsWith_envLine_description.
Qed.

(** C9, as the script has it. What [writeEnvFile] writes always ends with
    a line feed.  It ends with one line feed and no more when the file
    lacks an assignment of one of the two keys, so that the key is added at
    the end, and the two values do not end with a line feed.  When the file
    assigns both keys and the two values do not end with a line feed, the
    line feeds at the end of the file are written back as they are, and
    one is added when the file ends with none: what is written ends with as
    many line feeds as the file, and with one when the file ends with
    none. *)
Theorem writeEnvFile_final_newline (content : string)
    (env : gmap string string) :
  let lines := split LF content in
  let written := writeEnvFile_content content env in
  endsWith written nl = true
  ∧ (assigned lines ENV_TITLE && assigned lines ENV_DESCRIPTION = false →
     endsWith (envValue env ENV_TITLE) nl = false →
     endsWith (envValue env ENV_DESCRIPTION) nl = false →
     endsWithOneNewline written = true
     ∧ trailingNewlines written = 1%nat)
  ∧ (assigned lines ENV_TITLE && assigned lines ENV_DESCRIPTION = true →
     endsWith (envValue env ENV_TITLE) nl = false →
     endsWith (envValue env ENV_DESCRIPTION) nl = false →
     trailingNewlines written = Nat.max 1 (trailingNewlines content)
     ∧ (endsWith content nl = true →
        written = join nl (updatedLines content env))).
Proof.
  intros lines written. unfold written, writeEnvFile_content, withFinalNewline.
  assert (Hne := writeEnvFile_lines_not_empty content env).
  apply truthy_true in Hne as Ht. rewrite Ht. cbn [andb].
  split_and!.
  - destruct (endsWith (join nl _) nl) eqn:He; simpl.
    + by rewrite sapp_nil_r.
    + apply endsWith_nl_snoc.
  - intros Hmiss Hvt Hvd.
    assert (He : endsWith (join nl (writeEnvFile_lines content env)) nl
                 = false).
    { rewrite writeEnvFile_lines_eq. fold lines. rewrite Hmiss.
      unfold missingLines.
      destruct (assigned lines ENV_DESCRIPTION).
      - destruct (assigned lines ENV_TITLE); [done |].
        rewrite app_nil_r, app_assoc.
        by rewrite endsWith_join_snoc, endsWith_envLine_title.
      - rewrite !app_assoc.
        by rewrite endsWith_join_snoc, endsWith_envLine_description. }
    rewrite He. simpl. split.
    + unfold endsWithOneNewline.
      by rewrite endsWith_nl_snoc, endsWith_nl2_snoc, He.
    + by apply (trailingNewlines_app _ 1).
  - intros Hboth Hvt Hvd.
    rewrite writeEnvFile_lines_eq. fold lines. rewrite Hboth.
    apply andb_true_iff in Hboth as [Hat _].
    destruct (trailingNewlines_body content) as (body & Hcontent & Hbody).
    set (k := trailingNewlines content) in *.
    unfold lines in Hat. rewrite Hcontent in Hat.
    destruct (updatedLines_newlines body k env Hbody Hat Hvt Hvd)
      as (front & l & Hout & Hl & Hle).
    rewrite <- Hcontent in Hout. rewrite Hout.
    rewrite join_newlines by (by destruct front).
    assert (Hjoin : endsWith (join nl (front ++ [l])) nl = false)
      by (by rewrite endsWith_join_snoc).
    destruct k as [|k].
    + rewrite sapp_nil_r, Hjoin. cbn [negb]. split.
      * by apply (trailingNewlines_app _ 1).
      * intros Hends. rewrite Hcontent, sapp_nil_r in Hends. congruence.
    + replace (endsWith (join nl (front ++ [l]) +:+ newlines (S k)) nl)
        with true.
      * cbn [negb]. rewrite sapp_nil_r. split; [| done].
        rewrite trailingNewlines_app by done. lia.
      * symmetry. rewrite newlines_snoc, <- sapp_assoc.
        apply endsWith_nl_snoc.
Qed.

Lemma writeEnvFile_final_newline_witness :
  let content := "# settings" +:+ nl +:+ "VITE_TITLE=a" +:+ nl +:+ nl in
  let both :=
    "VITE_TITLE=a" +:+ nl +:+ "VITE_DESCRIPTION=b" +:+ nl +:+ nl +:+ nl in
  assigned (split LF content) ENV_TITLE
  && assigned (split LF content) ENV_DESCRIPTION = false
  ∧ endsWith (envValue sample_env ENV_TITLE) nl = false
  ∧ endsWith (envValue sample_env ENV_DESCRIPTION) nl = false
  ∧ endsWith (writeEnvFile_content content sample_env) nl = true
  ∧ endsWithOneNewline (writeEnvFile_content content sample_env) = true
  ∧ trailingNewlines (writeEnvFile_content content sample_env) = 1%nat
  ∧ assigned (split LF both) ENV_TITLE
    && assigned (split LF both) ENV_DESCRIPTION = true
  ∧ trailingNewlines both = 3%nat
  ∧ trailingNewlines (writeEnvFile_content both sample_env)
    = Nat.max 1 (trailingNewlines both).
Proof.
  destruct (writeEnvFile_final_newline
              ("# settings" +:+ nl +:+ "VITE_TITLE=a" +:+ nl +:+ nl)
              sample_env) as (Hends & Hone & _).
  destruct (writeEnvFile_final_newline
              ("VITE_TITLE=a" +:+ nl +:+ "VITE_DESCRIPTION=b" +:+ nl +:+ nl
               +:+ nl)
              sample_env) as (_ & _ & Hsame).
  split_and!;
    [reflexivity | reflexivity | reflexivity | exact Hends | | | reflexivity
     | reflexivity |].
  - apply Hone; reflexivity.
  - apply Hone; reflexivity.
  - apply Hsame; reflexivity.
Defined.

(** ** The lines of the .env file that is written *)

(** The index where the loop of [updateEnvVarInPlace] stops is that of a
    line that assigns the key, and no line before it does. *)
Lemma firstAssigning_Some (lines : list string) (key : string) (i : nat) :
  firstAssigning lines key = Some i
  ↔ (∃ l, lines !! i = Some l ∧ isEnvVarLine l key = true)
    ∧ ∀ j l', (j < i)%nat → lines !! j = Some l' →
              isEnvVarLine l' key = false.
Proof.
  unfold firstAssigning. split.
  - destruct (list_find _ lines) as [[k x]|] eqn:Hfind; [| done].
    simpl. intros [= ->].
    apply list_find_Some in Hfind as (Hk & Hx & Hfirst).
    split; [eauto |]. intros j l' Hj Hl'.
    specialize (Hfirst j l' Hl' Hj). by destruct (isEnvVarLine l' key).
  - intros [(l & Hi & Hl) Hfirst].
    assert (list_find (fun l => isEnvVarLine l key = true) lines
            = Some (i, l)) as ->; [| done].
    apply list_find_Some. split_and!; [done | done |].
    intros j y Hj Hlt. by rewrite (Hfirst j y Hlt Hj).
Qed.

Lemma updateEnvVarInPlace_other (lines : list string) (key v : string)
    (i : nat) :
  firstAssigning lines key ≠ Some i →
  (updateEnvVarInPlace lines key v).2 !! i = lines !! i.
Proof.
  unfold firstAssigning, updateEnvVarInPlace.
  destruct (list_find _ lines) as [[k x]|]; simpl; [| done].
  intros Hne. apply list_lookup_insert_ne. congruence.
Qed.

(** The update of the title does not move the first line that assigns the
    description. *)
Lemma firstAssigning_updateTitle (lines : list string) (v : string)
    (i : nat) :
  firstAssigning (updateEnvVarInPlace lines ENV_TITLE v).2 ENV_DESCRIPTION
  = Some i →
  firstAssigning lines ENV_DESCRIPTION = Some i.
Proof.
  destruct (updateEnvVarInPlace_spec lines ENV_TITLE v) as (_ & Hlen & _).
  set (lines1 := (updateEnvVarInPlace lines ENV_TITLE v).2) in *.
  rewrite !firstAssigning_Some. intros [(l1 & H1 & Hl1) Hfirst].
  destruct (lookup_lt_is_Some_2 lines i) as [l Hl].
  { rewrite <- Hlen. by eapply lookup_lt_Some. }
  split.
  - exists l. split; [done |].
    by rewrite <- (updateTitle_same_description lines v i l l1).
  - intros j l' Hj Hl'.
    destruct (lookup_lt_is_Some_2 lines1 j) as [l1' H1'].
    { rewrite Hlen. by eapply lookup_lt_Some. }
    rewrite <- (updateTitle_same_description lines v j l' l1' Hl' H1').
    by eapply Hfirst.
Qed.

(** A line where neither loop stops is left as it is, a second line that
    assigns a key too. *)
Lemma updatedLines_other (content : string) (env : gmap string string)
    (i : nat) :
  firstAssigning (split LF content) ENV_TITLE ≠ Some i →
  firstAssigning (split LF content) ENV_DESCRIPTION ≠ Some i →
  updatedLines content env !! i = split LF content !! i.
Proof.
  intros Ht Hd. unfold updatedLines.
  rewrite updateEnvVarInPlace_other.
  - by apply updateEnvVarInPlace_other.
  - intros H. by apply firstAssigning_updateTitle in H.
Qed.

Lemma includes_endsWith (s : string) :
  includes s nl = false → endsWith s nl = false.
Proof.
  induction s as [|c s IH]; [done |]. cbn [includes endsWith].
  unfold nl at 1. rewrite startsWith_unit.
  intros [Hc Hs]%orb_false_iff. rewrite IH by done. rewrite orb_false_r.
  apply String.eqb_neq. intros [= -> _]. done.
Qed.

(** What [writeEnvFile] writes, split into lines: the array that was
    joined, and an empty line after it unless its last line is empty. *)
Lemma split_withFinalNewline_last (ls : list string) :
  Forall (fun l => includes l nl = false) ls → join nl ls ≠ "" →
  split LF (withFinalNewline (join nl ls))
  = ls ++ (if bool_decide (last ls = Some "") then [] else [""]).
Proof.
  intros Hls Hne. unfold withFinalNewline.
  apply truthy_true in Hne as Ht. rewrite Ht. cbn [andb].
  destruct ls as [|h t _] using rev_ind; [done |].
  rewrite last_snoc.
  destruct (decide (h = "")) as [-> | Hh].
  - rewrite bool_decide_eq_true_2 by done.
    destruct t as [|x t]; [done |].
    replace (endsWith (join nl ((x :: t) ++ [""])) nl) with true.
    + cbn [negb]. rewrite sapp_nil_r, app_nil_r.
      by apply split_join_lines.
    + symmetry. rewrite join_app by done.
      change (join nl [""]) with "". rewrite sapp_nil_r.
      apply endsWith_nl_snoc.
  - rewrite bool_decide_eq_false_2 by congruence.
    assert (Hlast : includes h nl = false).
    { apply (Forall_forall _ _) with (x := h) in Hls; [done |].
      apply elem_of_app. right. by apply list_elem_of_singleton. }
    rewrite endsWith_join_snoc, (includes_endsWith h) by done. cbn [negb].
    rewrite <- (split_join_lines ((t ++ [h]) ++ [""])).
    + rewrite (join_app nl (t ++ [h]) [""]) by (done || by destruct t).
      done.
    + by destruct t.
    + apply Forall_app. split; [done | by repeat constructor].
Qed.

Lemma missingLines_last (lines : list string) (env : gmap string string) :
  assigned lines ENV_TITLE && assigned lines ENV_DESCRIPTION = false →
  ∃ l, last (missingLines lines env) = Some l ∧ l ≠ "".
Proof.
  unfold missingLines. intros Hmiss.
  destruct (assigned lines ENV_TITLE), (assigned lines ENV_DESCRIPTION);
    [done | ..]; eexists; (split; [reflexivity | done]).
Qed.

(** C1, as the script has it, for two values without a line feed; the
    lines are those of the file that is written.  A line where neither
    loop of [updateEnvVarInPlace] stops (a comment, an empty line, a line
    for another key, a second line that assigns one of the two keys) and
    that comes before or is a line that does not trim to nothing stands
    unchanged at its index; the first line that assigns a key is replaced
    at its index by the line of that key.  When the file assigns both keys
    every other line stands unchanged at its index, the empty ones at the
    end too, and nothing is added but an empty last line when the file has
    none.  When a key is missing the lines at the end that trim to nothing
    are dropped, and an empty line (when a line is left), the lines of the
    missing keys and an empty last line are added.  Every line that is
    written is a line of the file at its index, an empty line, or the line
    of one of the two keys. *)
Theorem writeEnvFile_keeps_other_lines (content : string)
    (env : gmap string string) :
  includes (envValue env ENV_TITLE) nl = false →
  includes (envValue env ENV_DESCRIPTION) nl = false →
  let lines := split LF content in
  let written := split LF (writeEnvFile_content content env) in
  let titleLine := envLine ENV_TITLE (envValue env ENV_TITLE) in
  let descriptionLine :=
    envLine ENV_DESCRIPTION (envValue env ENV_DESCRIPTION) in
  (∀ key i l, lines !! i = Some l → isEnvVarLine l key = false →
              firstAssigning lines key ≠ Some i)
  ∧ (∀ i l, lines !! i = Some l →
            firstAssigning lines ENV_TITLE ≠ Some i →
            firstAssigning lines ENV_DESCRIPTION ≠ Some i →
            (∃ j l', (i ≤ j)%nat ∧ lines !! j = Some l' ∧ trim l' ≠ "") →
            written !! i = Some l)
  ∧ (∀ key i, key = ENV_TITLE ∨ key = ENV_DESCRIPTION →
              firstAssigning lines key = Some i →
              written !! i = Some (envLine key (envValue env key)))
  ∧ (assigned lines ENV_TITLE && assigned lines ENV_DESCRIPTION = true →
     length written
     = (length lines
        + if bool_decide (last lines = Some "") then 0 else 1)%nat
     ∧ (∀ i l, lines !! i = Some l →
               firstAssigning lines ENV_TITLE ≠ Some i →
               firstAssigning lines ENV_DESCRIPTION ≠ Some i →
               written !! i = Some l)
     ∧ (∀ l, written !! length lines = Some l → l = ""))
  ∧ (assigned lines ENV_TITLE && assigned lines ENV_DESCRIPTION = false →
     ∃ kept,
       (length kept ≤ length lines)%nat
       ∧ (∀ i l, lines !! i = Some l → trim l ≠ "" →
                 (i < length kept)%nat)
       ∧ (∀ i, (i < length kept)%nat →
               ∃ j l', (i ≤ j)%nat ∧ lines !! j = Some l' ∧ trim l' ≠ "")
       ∧ written
         = kept ++ (if bool_decide (0 < length kept)%nat then [""] else [])
                ++ missingLines lines env ++ [""])
  ∧ (∀ i l, written !! i = Some l →
            lines !! i = Some l ∨ l = "" ∨ l = titleLine
            ∨ l = descriptionLine).
Proof.
  intros Hvt Hvd lines written titleLine descriptionLine.
  set (out := writeEnvFile_lines content env).
  assert (Hwritten :
            written
            = out ++ (if bool_decide (last out = Some "") then [] else [""])).
  { apply split_withFinalNewline_last.
    - by apply writeEnvFile_lines_clean.
    - apply writeEnvFile_lines_not_empty. }
  destruct (updatedLines_spec content env)
    as (Hlen & Hkeep & Hblank & Hfrom & _).
  fold lines in Hlen, Hkeep, Hblank, Hfrom.
  destruct (removeTrailingEmptyLines_take (updatedLines content env))
    as (n & Hn & Hle & Hlast).
  assert (Hout := writeEnvFile_lines_eq content env).
  fold lines out in Hout. cbv zeta in Hout.
  assert (Hlastkept := removeTrailingEmptyLines_last
                         (updatedLines content env)).
  rewrite Hn in Hout, Hlastkept.
  assert (Hfront : ∀ i j l l', (i ≤ j)%nat → lines !! i = Some l →
                     lines !! j = Some l' → trim l' ≠ "" →
                     written !! i = updatedLines content env !! i).
  { intros i j l l' Hij Hi Hj Hl'.
    destruct (Hblank j l' Hj Hl') as (l2 & H2 & Hl2).
    assert (Hj2 := lookup_lt_Some _ _ _ H2).
    rewrite Hwritten, Hout.
    destruct (assigned lines ENV_TITLE && assigned lines ENV_DESCRIPTION).
    - apply lookup_app_l. lia.
    - specialize (Hlast j l2 H2 Hl2).
      rewrite <- !app_assoc. rewrite lookup_app_l.
      + apply lookup_take_lt. lia.
      + rewrite length_take. lia. }
  assert (Hupd : ∀ k l, updatedLines content env !! k = Some l →
            lines !! k = Some l ∨ l = "" ∨ l = titleLine
            ∨ l = descriptionLine).
  { intros k l Hk. destruct (Hfrom k l Hk) as [H | (l0 & _ & _ & [-> | ->])];
      auto. }
  split_and!.
  - intros key i l Hi Hl [(l0 & Hi0 & Hl0) _]%firstAssigning_Some. congruence.
  - intros i l Hi Ht Hd (j & l' & Hij & Hj & Hl').
    rewrite (Hfront i j l l') by done.
    unfold lines in Ht, Hd. by rewrite updatedLines_other.
  - intros key i Hkey [(l & Hi & Hl) Hfirst]%firstAssigning_Some.
    rewrite (Hfront i i l l) by (done || by eapply isEnvVarLine_not_blank).
    by apply updatedLines_replaced with (l := l).
  - intros Hboth. rewrite Hboth in Hout.
    assert (Hsame : bool_decide (last out = Some "")
                    = bool_decide (last lines = Some "")).
    { apply bool_decide_ext. rewrite Hout, !last_lookup, Hlen. split.
      - intros H. by destruct (Hfrom _ _ H) as [H0 | (l0 & _ & _ & [? | ?])].
      - intros H. by apply Hkeep. }
    rewrite Hsame, Hout in Hwritten. split_and!.
    + rewrite Hwritten, length_app, Hlen. by destruct (bool_decide _).
    + intros i l Hi Ht Hd. rewrite Hwritten.
      rewrite lookup_app_l by (rewrite Hlen; by eapply lookup_lt_Some).
      unfold lines in Ht, Hd, Hi. by rewrite updatedLines_other.
    + intros l. rewrite Hwritten.
      rewrite lookup_app_r by (by rewrite Hlen). rewrite Hlen, Nat.sub_diag.
      destruct (bool_decide _); [done |]. by intros [= <-].
  - intros Hmiss. rewrite Hmiss in Hout.
    destruct (missingLines_last lines env Hmiss) as (m & Hm & Hne).
    assert (Hpad : bool_decide (last out = Some "") = false).
    { apply bool_decide_eq_false_2. rewrite Hout, !last_app, Hm. congruence. }
    rewrite Hpad, Hout in Hwritten.
    assert (Hkept : length (take n (updatedLines content env)) = n)
      by (rewrite length_take; lia).
    exists (take n (updatedLines content env)). rewrite Hkept. split_and!.
    + lia.
    + intros i l Hi Hl. destruct (Hblank i l Hi Hl) as (l2 & H2 & Hl2).
      by apply (Hlast i l2).
    + intros i Hi. exists (Init.Nat.pred n).
      destruct (lookup_lt_is_Some_2 (take n (updatedLines content env))
                  (Init.Nat.pred n)) as [l2 H2]; [lia |].
      assert (Hl2 : trim l2 ≠ "").
      { apply Hlastkept. by rewrite last_lookup, Hkept. }
      apply lookup_take_Some in H2 as [H2 _].
      destruct (updatedLines_origin content env _ _ H2)
        as [H0 | (K & l0 & _ & H0 & Hl0 & _)].
      * exists l2. split_and!; [lia | done | done].
      * exists l0. split_and!; [lia | done |].
        by eapply isEnvVarLine_not_blank.
    + rewrite Hwritten, Hkept. by rewrite <- !app_assoc.
  - intros i l Hi. rewrite Hwritten in Hi.
    apply lookup_app_Some in Hi as [Hi | [_ Hi]].
    + rewrite Hout in Hi.
      destruct (assigned lines ENV_TITLE && assigned lines ENV_DESCRIPTION).
      { by apply Hupd. }
      apply lookup_app_Some in Hi as [Hi | [_ Hi]].
      * apply lookup_take_Some in Hi as [Hi _]. by apply Hupd.
      * apply list_elem_of_lookup_2 in Hi. right.
        apply elem_of_app in Hi as [Hi | Hi].
        -- destruct (bool_decide (0 < _)%nat); [| by apply elem_of_nil in Hi].
           apply elem_of_cons in Hi as [-> | Hi]; [by left |].
           by apply elem_of_nil in Hi.
        -- unfold missingLines in Hi.
           destruct (assigned lines ENV_TITLE),
             (assigned lines ENV_DESCRIPTION);
             simpl in Hi;
             repeat (apply elem_of_cons in Hi as [-> | Hi]; [by auto |]);
             by apply elem_of_nil in Hi.
    + destruct (bool_decide _); [done |].
      apply list_elem_of_lookup_2, list_elem_of_singleton in Hi. auto.
Qed.

Lemma writeEnvFile_keeps_other_lines_witness :
  let content :=
    "# settings" +:+ nl +:+ nl +:+ "API=1" +:+ nl +:+ " VITE_TITLE=old"
    +:+ nl +:+ "VITE_TITLE=again" +:+ nl +:+ nl in
  let lines := split LF content in
  let written := split LF (writeEnvFile_content content sample_env) in
  lines
  = ["# settings"; ""; "API=1"; " VITE_TITLE=old"; "VITE_TITLE=again"; "";
     ""]
  ∧ firstAssigning lines ENV_TITLE = Some 3%nat
  ∧ firstAssigning lines ENV_DESCRIPTION = None
  ∧ written !! 0%nat = Some "# settings"
  ∧ written !! 1%nat = Some ""
  ∧ written !! 2%nat = Some "API=1"
  ∧ written !! 3%nat = Some "VITE_TITLE=demo"
  ∧ written !! 4%nat = Some "VITE_TITLE=again"
  ∧ written
    = ["# settings"; ""; "API=1"; "VITE_TITLE=demo"; "VITE_TITLE=again"; "";
       "VITE_DESCRIPTION=desc"; ""].
Proof.
  destruct (writeEnvFile_keeps_other_lines
              ("# settings" +:+ nl +:+ nl +:+ "API=1" +:+ nl
               +:+ " VITE_TITLE=old" +:+ nl +:+ "VITE_TITLE=again" +:+ nl
               +:+ nl) sample_env)
    as (_ & Hkeep & Hreplace & _).
  - reflexivity.
  - reflexivity.
  - split_and!.
    + reflexivity.
    + reflexivity.
    + reflexivity.
    + apply Hkeep; [reflexivity | by vm_compute | by vm_compute |].
      exists 0%nat, "# settings".
      split_and!; [lia | reflexivity | discriminate].
    + apply Hkeep; [reflexivity | by vm_compute | by vm_compute |].
      exists 2%nat, "API=1". split_and!; [lia | reflexivity | discriminate].
    + apply Hkeep; [reflexivity | by vm_compute | by vm_compute |].
      exists 2%nat, "API=1". split_and!; [lia | reflexivity | discriminate].
    + apply (Hreplace ENV_TITLE 3%nat); [by left | reflexivity].
    + apply Hkeep; [reflexivity | by vm_compute | by vm_compute |].
      exists 4%nat, "VITE_TITLE=again".
      split_and!; [lia | reflexivity | discriminate].
    + reflexivity.
Defined.

(** A value with a line feed is written as it is, so that the line of the
    key takes two lines of the file and the lines after it move by one. *)
Example writeEnvFile_value_with_line_feed :
  let content := "VITE_TITLE=x" +:+ nl +:+ "VITE_DESCRIPTION=y" +:+ nl
                 +:+ "A=1" +:+ nl in
  let env := <[ENV_DESCRIPTION := "desc"]>
               (<[ENV_TITLE := "a" +:+ nl +:+ "b"]> ∅) in
  split LF content = ["VITE_TITLE=x"; "VITE_DESCRIPTION=y"; "A=1"; ""]
  ∧ split LF (writeEnvFile_content content env)
    = ["VITE_TITLE=a"; "b"; "VITE_DESCRIPTION=desc"; "A=1"; ""].
Proof. by vm_compute. Qed.
